(** * svclink: a shallow embedding of the reconciliation core

    The development follows the packages of the repository:

    - [config]       label keys and the managed-by value (pkg/config);
    - [v1alpha1]     the ClusterLink descriptor and its filter policy;
    - [aggregator]   collection of ready endpoints with loop avoidance;
    - [updater]      create/update/delete of the managed EndpointSlices;
    - [clusterlink]  listing descriptors and building remote clients;
    - [discoverer]   filtered service discovery over the remote clusters;
    - [controller]   the per-service part of one sync cycle.

    Go maps that are only looked up are finite maps ([gmap]); Go maps that
    are ranged over are taken together with an explicit iteration order.
    Calls to the local API server are state passing over [World]; a remote
    [kubernetes.Interface] is a record of its list methods. *)

From Stdlib Require Import ZArith List.
From stdpp Require Import base option gmap strings list fin_maps.

Local Open Scope string_scope.
Local Open Scope list_scope.

(** ** Errors and results *)

(** A Go [error]: the text of [Error()] and whether
    [apierrors.IsNotFound] recognises it. *)
Record error := mkError { err_msg : string; err_not_found : bool }.

(** [fmt.Errorf(prefix + ": %w", err)]; [IsNotFound] sees through [%w]. *)
Definition wrap (prefix : string) (e : error) : error :=
  {| err_msg := prefix +:+ ": " +:+ err_msg e; err_not_found := err_not_found e |}.

Definition server_error (msg : string) : error :=
  {| err_msg := msg; err_not_found := false |}.

Definition not_found (what : string) : error :=
  {| err_msg := what +:+ " not found"; err_not_found := true |}.

Inductive result (A : Type) : Type :=
| Ok (a : A)
| Err (e : error).
Arguments Ok {A} a.
Arguments Err {A} e.

(** ** pkg/config *)

Module config.

Definition SyncAnnotation := "cloudpilot.ai/svclink".
Definition ClusterLabel := "cloudpilot.ai/svclink-cluster".
Definition ServiceNameLabel := "kubernetes.io/service-name".
Definition ManagedByLabel := "endpointslice.kubernetes.io/managed-by".
Definition ManagedByValue := "svclink.cloudpilot.ai".

End config.

(** ** pkg/apis/svclink/v1alpha1 *)

Module v1alpha1.

(** [api.NamespaceSystem] of k8s.io/kubernetes/pkg/apis/core. *)
Definition NamespaceSystem := "kube-system".

Record ClusterLinkSpec := {
  Enabled : bool;
  Kubeconfig : string;
  ExcludedNamespaces : list string;
  IncludedNamespaces : list string;
  ExcludedServices : list string;
  ExcludedServiceNames : list string
}.

Inductive ClusterLinkConditionType := ClusterLinkReady | ClusterLinkError.
Inductive ConditionStatus := ConditionTrue | ConditionFalse | ConditionUnknown.

Record ClusterLinkCondition := {
  Type_ : ClusterLinkConditionType;
  Status_ : ConditionStatus;
  LastTransitionTime : Z;
  Reason : string;
  Message : string
}.

Record ClusterLinkStatus := {
  Connected : bool;
  LastConnected : option Z;
  Error : string;
  Version : string;
  Conditions : list ClusterLinkCondition
}.

Record ClusterLink := {
  Name : string;
  Spec : ClusterLinkSpec;
  Status : ClusterLinkStatus
}.

(** [sets.New(xs...)] *)
Definition sets_New (xs : list string) : gset string := list_to_set xs.

Definition ToExcludedNamespaceSet (cls : ClusterLinkSpec) : gset string :=
  let excludedNS := sets_New (ExcludedNamespaces cls) in
  {[ NamespaceSystem ]} ∪ excludedNS.

Definition ToIncludedNamespaceSet (cls : ClusterLinkSpec) : gset string :=
  sets_New (IncludedNamespaces cls).

Definition ToExcludedServiceSet (cls : ClusterLinkSpec) : gset string :=
  sets_New (ExcludedServices cls).

Definition ToExcludedServiceNameSet (cls : ClusterLinkSpec) : gset string :=
  let excludedSvcNames := sets_New (ExcludedServiceNames cls) in
  {[ "kubernetes" ]} ∪ excludedSvcNames.

(** The receiver is unused by the Go method as well: the decision is
    taken on the two pre-computed sets. *)
Definition ShouldExcludeNamespace (cls : ClusterLinkSpec) (namespace : string)
    (excludedNS includedNS : gset string) : bool :=
  if bool_decide (namespace ∈ excludedNS) then true
  else if bool_decide (0 < size includedNS) && negb (bool_decide (namespace ∈ includedNS))
  then true
  else false.

Definition ShouldExcludeService (cls : ClusterLinkSpec) (namespace serviceName : string)
    (excludedSvcSet excludedSvcNameSet : gset string) : bool :=
  let fullName := namespace +:+ "/" +:+ serviceName in
  if bool_decide (fullName ∈ excludedSvcSet) then true
  else if bool_decide (serviceName ∈ excludedSvcNameSet) then true
  else false.

End v1alpha1.

(** ** Kubernetes objects used by the core *)

Record OwnerReference := {
  or_APIVersion : string;
  or_Kind : string;
  or_Name : string;
  or_UID : string
}.

(** [discoveryv1.Endpoint]: [Ready] is [Conditions.Ready], a [*bool]. *)
Record Endpoint := {
  Addresses : list string;
  Ready : option bool
}.

Record EndpointPort := {
  PortName : option string;
  Port : option Z
}.

(** [discoveryv1.EndpointSlice]; a nil label map is the empty map. *)
Record EndpointSlice := {
  es_Name : string;
  es_Namespace : string;
  es_Labels : gmap string string;
  es_OwnerReferences : list OwnerReference;
  es_AddressType : string;
  es_Endpoints : list Endpoint;
  es_Ports : list EndpointPort
}.

(** [corev1.Service], as far as the core reads it. *)
Record Service := {
  svc_Name : string;
  svc_Namespace : string;
  svc_UID : string
}.

(** A remote [kubernetes.Interface]: the list calls the core issues and
    the discovery client's [ServerVersion]. *)
Record Client := {
  Namespaces_List : result (list string);
  Services_List : string -> result (list Service);
  EndpointSlices_List : string -> string -> result (list EndpointSlice);
  ServerVersion : result string
}.

(** ** The local API server behind the controller-runtime client *)

(** A label selector as [labels.Selector] holds it: a conjunction of
    requirements. *)
Inductive Requirement :=
| ReqEquals (key value : string)
| ReqExists (key : string).

Definition req_matches (labels : gmap string string) (r : Requirement) : bool :=
  match r with
  | ReqEquals k v => bool_decide (labels !! k = Some v)
  | ReqExists k => bool_decide (is_Some (labels !! k))
  end.

Definition selector_matches (sel : list Requirement) (labels : gmap string string) : bool :=
  forallb (req_matches labels) sel.

(** The calls the core issues on the local cluster. *)
Inductive ApiCall :=
| GetService (ns name : string)
| GetSlice (ns name : string)
| CreateSlice (ns name : string)
| UpdateSlice (ns name : string)
| DeleteSlice (ns name : string)
| ListSlices (ns : string)
| ListClusterLinks
| UpdateStatus (name : string).

Definition is_write (c : ApiCall) : bool :=
  match c with
  | CreateSlice _ _ | UpdateSlice _ _ | DeleteSlice _ _ => true
  | _ => false
  end.

Definition is_create (c : ApiCall) : bool :=
  match c with CreateSlice _ _ => true | _ => false end.
Definition is_update (c : ApiCall) : bool :=
  match c with UpdateSlice _ _ => true | _ => false end.
Definition is_delete (c : ApiCall) : bool :=
  match c with DeleteSlice _ _ => true | _ => false end.

Inductive LogLevel := ERROR | WARNING.

(** The local cluster together with what the process reads from its
    environment: [w_faults] names the calls the API server fails (a
    server-side error other than not-found), [w_now] is [time.Now()],
    [w_calls] the calls issued so far, oldest first, and [w_log] the
    [klog.Errorf]/[klog.Warningf] lines written so far. Informational log
    lines are not recorded. *)
Record World := {
  w_services : gmap (string * string) Service;
  w_slices : gmap (string * string) EndpointSlice;
  w_clusterLinks : gmap string v1alpha1.ClusterLink;
  w_faults : ApiCall -> option string;
  w_now : Z;
  w_calls : list ApiCall;
  w_log : list (LogLevel * string)
}.

Definition M (A : Type) : Type := World -> A * World.

Definition ret {A} (a : A) : M A := fun w => (a, w).
Definition bind {A B} (m : M A) (k : A -> M B) : M B :=
  fun w => let (a, w') := m w in k a w'.

Declare Scope m_scope.
Delimit Scope m_scope with M.
Notation "x <- c ;; k" := (bind c (fun x => k))
  (at level 100, c at next level, right associativity) : m_scope.
Notation "c ;;; k" := (bind c (fun _ => k))
  (at level 100, right associativity) : m_scope.
Local Open Scope m_scope.

Definition set_slices (f : gmap (string * string) EndpointSlice -> gmap (string * string) EndpointSlice)
    (w : World) : World :=
  {| w_services := w_services w; w_slices := f (w_slices w);
     w_clusterLinks := w_clusterLinks w; w_faults := w_faults w; w_now := w_now w;
     w_calls := w_calls w; w_log := w_log w |}.

Definition set_clusterLinks (f : gmap string v1alpha1.ClusterLink -> gmap string v1alpha1.ClusterLink)
    (w : World) : World :=
  {| w_services := w_services w; w_slices := w_slices w;
     w_clusterLinks := f (w_clusterLinks w); w_faults := w_faults w; w_now := w_now w;
     w_calls := w_calls w; w_log := w_log w |}.

Definition record_call (c : ApiCall) (w : World) : World :=
  {| w_services := w_services w; w_slices := w_slices w;
     w_clusterLinks := w_clusterLinks w; w_faults := w_faults w; w_now := w_now w;
     w_calls := w_calls w ++ [c]; w_log := w_log w |}.

Definition klog (lvl : LogLevel) (line : string) : M unit :=
  fun w => (tt,
    {| w_services := w_services w; w_slices := w_slices w;
       w_clusterLinks := w_clusterLinks w; w_faults := w_faults w; w_now := w_now w;
       w_calls := w_calls w; w_log := w_log w ++ [(lvl, line)] |}).

Definition klog_Errorf := klog ERROR.
Definition klog_Warningf := klog WARNING.

Definition time_Now : M Z := fun w => (w_now w, w).

(** One call to the API server: it is recorded, fails when the
    environment says so, and otherwise runs against the store. *)
Definition api {A} (c : ApiCall) (body : M (result A)) : M (result A) :=
  fun w =>
    let w1 := record_call c w in
    match w_faults w c with
    | Some msg => (Err (server_error msg), w1)
    | None => body w1
    end.

(** The server holds an object under its namespace and name, and serves
    it with that identity. *)
Definition slice_at (k : string * string) (s : EndpointSlice) : EndpointSlice :=
  {| es_Name := k.2; es_Namespace := k.1; es_Labels := es_Labels s;
     es_OwnerReferences := es_OwnerReferences s; es_AddressType := es_AddressType s;
     es_Endpoints := es_Endpoints s; es_Ports := es_Ports s |}.

Definition service_at (k : string * string) (s : Service) : Service :=
  {| svc_Name := k.2; svc_Namespace := k.1; svc_UID := svc_UID s |}.

Definition link_at (name : string) (cl : v1alpha1.ClusterLink) : v1alpha1.ClusterLink :=
  {| v1alpha1.Name := name; v1alpha1.Spec := v1alpha1.Spec cl;
     v1alpha1.Status := v1alpha1.Status cl |}.

Definition slice_key (s : EndpointSlice) : string * string := (es_Namespace s, es_Name s).

Module kubeClient.

Definition Get_Service (ns name : string) : M (result Service) :=
  api (GetService ns name) (fun w =>
    match w_services w !! (ns, name) with
    | Some s => (Ok (service_at (ns, name) s), w)
    | None => (Err (not_found ("services " +:+ name)), w)
    end).

Definition Get_EndpointSlice (ns name : string) : M (result EndpointSlice) :=
  api (GetSlice ns name) (fun w =>
    match w_slices w !! (ns, name) with
    | Some s => (Ok (slice_at (ns, name) s), w)
    | None => (Err (not_found ("endpointslices " +:+ name)), w)
    end).

Definition Create_EndpointSlice (s : EndpointSlice) : M (result unit) :=
  api (CreateSlice (es_Namespace s) (es_Name s)) (fun w =>
    match w_slices w !! slice_key s with
    | Some _ => (Err (server_error ("endpointslices " +:+ es_Name s +:+ " already exists")), w)
    | None => (Ok tt, set_slices (insert (slice_key s) s) w)
    end).

Definition Update_EndpointSlice (s : EndpointSlice) : M (result unit) :=
  api (UpdateSlice (es_Namespace s) (es_Name s)) (fun w =>
    match w_slices w !! slice_key s with
    | Some _ => (Ok tt, set_slices (insert (slice_key s) s) w)
    | None => (Err (not_found ("endpointslices " +:+ es_Name s)), w)
    end).

Definition Delete_EndpointSlice (s : EndpointSlice) : M (result unit) :=
  api (DeleteSlice (es_Namespace s) (es_Name s)) (fun w =>
    match w_slices w !! slice_key s with
    | Some _ => (Ok tt, set_slices (delete (slice_key s)) w)
    | None => (Err (not_found ("endpointslices " +:+ es_Name s)), w)
    end).

(** [List] with [ListOptions{Namespace, LabelSelector}]. *)
Definition List_EndpointSlices (ns : string) (sel : list Requirement)
    : M (result (list EndpointSlice)) :=
  api (ListSlices ns) (fun w =>
    (Ok (omap (fun '(k, s) =>
           if bool_decide (k.1 = ns) && selector_matches sel (es_Labels s)
           then Some (slice_at k s) else None)
         (map_to_list (w_slices w))), w)).

Definition List_ClusterLinks : M (result (list v1alpha1.ClusterLink)) :=
  api ListClusterLinks (fun w =>
    (Ok (map (fun '(k, cl) => link_at k cl) (map_to_list (w_clusterLinks w))), w)).

(** [Status().Update]: only the status sub-resource is written. *)
Definition Status_Update (cl : v1alpha1.ClusterLink) : M (result unit) :=
  api (UpdateStatus (v1alpha1.Name cl)) (fun w =>
    match w_clusterLinks w !! v1alpha1.Name cl with
    | Some old =>
        (Ok tt, set_clusterLinks (insert (v1alpha1.Name cl)
           {| v1alpha1.Name := v1alpha1.Name cl; v1alpha1.Spec := v1alpha1.Spec old;
              v1alpha1.Status := v1alpha1.Status cl |}) w)
    | None => (Err (not_found ("clusterlinks " +:+ v1alpha1.Name cl)), w)
    end).

End kubeClient.

(** [for _, x := range xs { acc = body(acc, x) }] *)
Fixpoint foldM {A B} (body : A -> B -> M A) (acc : A) (xs : list B) : M A :=
  match xs with
  | [] => ret acc
  | x :: rest => acc' <- body acc x ;; foldM body acc' rest
  end.

Definition when_err (r : option error) (k : error -> M unit) : M unit :=
  match r with
  | Some e => k e
  | None => ret tt
  end.

(** ** pkg/clusterlink *)

Module clusterlink.

Record ClusterInfo := {
  Name : string;
  Enabled : bool;
  Client_ : Client;
  ClusterLink : v1alpha1.ClusterLink
}.

Record RestConfig := { Host : string }.

(** The library calls between a descriptor and its client:
    [base64.StdEncoding.DecodeString],
    [clientcmd.RESTConfigFromKubeConfig] and [kubernetes.NewForConfig]. *)
Record Libs := {
  DecodeString : string -> result string;
  RESTConfigFromKubeConfig : string -> result RestConfig;
  NewForConfig : RestConfig -> result Client
}.

Definition buildClientWithVersion (libs : Libs) (kubeconfigData : string)
    : result (Client * string) :=
  match RESTConfigFromKubeConfig libs kubeconfigData with
  | Err e => Err (wrap "failed to parse kubeconfig" e)
  | Ok restConfig =>
      match NewForConfig libs restConfig with
      | Err e => Err (wrap "failed to create client" e)
      | Ok client =>
          (* Try to get the cluster version *)
          let version :=
            match ServerVersion client with
            | Err _ => ""
            | Ok gitVersion => gitVersion
            end in
          Ok (client, version)
      end
  end.

Definition buildConditions (connected : bool) (errorMsg : string)
    : M (list v1alpha1.ClusterLinkCondition) :=
  now <- time_Now ;;
  if connected then
    ret [ {| v1alpha1.Type_ := v1alpha1.ClusterLinkReady;
             v1alpha1.Status_ := v1alpha1.ConditionTrue;
             v1alpha1.LastTransitionTime := now;
             v1alpha1.Reason := "Connected";
             v1alpha1.Message := "Successfully connected to remote cluster" |} ]
  else
    let conditions :=
      [ {| v1alpha1.Type_ := v1alpha1.ClusterLinkReady;
           v1alpha1.Status_ := v1alpha1.ConditionFalse;
           v1alpha1.LastTransitionTime := now;
           v1alpha1.Reason := "ConnectionFailed";
           v1alpha1.Message := "Failed to connect to remote cluster" |} ] in
    if bool_decide (errorMsg ≠ "") then
      ret (conditions ++
           [ {| v1alpha1.Type_ := v1alpha1.ClusterLinkError;
                v1alpha1.Status_ := v1alpha1.ConditionTrue;
                v1alpha1.LastTransitionTime := now;
                v1alpha1.Reason := "Error";
                v1alpha1.Message := errorMsg |} ])
    else ret conditions.

(** The Go function mutates [*cluster]; here the mutated descriptor is
    the result. *)
Definition updateClusterStatus (cluster : v1alpha1.ClusterLink) (connected : bool)
    (version errorMsg : string) : M v1alpha1.ClusterLink :=
  lastConnected <-
    (if connected then now <- time_Now ;; ret (Some now)
     else ret (v1alpha1.LastConnected (v1alpha1.Status cluster))) ;;
  conditions <- buildConditions connected errorMsg ;;
  let cluster' :=
    {| v1alpha1.Name := v1alpha1.Name cluster;
       v1alpha1.Spec := v1alpha1.Spec cluster;
       v1alpha1.Status :=
         {| v1alpha1.Connected := connected;
            v1alpha1.LastConnected := lastConnected;
            v1alpha1.Error := errorMsg;
            v1alpha1.Version := version;
            v1alpha1.Conditions := conditions |} |} in
  r <- kubeClient.Status_Update cluster' ;;
  match r with
  | Err e =>
      (* Ignore not found errors - the resource may have been deleted *)
      (if negb (err_not_found e)
       then klog_Errorf ("Failed to update status for ClusterLink "
                         +:+ v1alpha1.Name cluster +:+ ": " +:+ err_msg e)
       else ret tt) ;;;
      ret cluster'
  | Ok _ => ret cluster'
  end.

Definition ListClusterInfo_body (libs : Libs) (clusterInfos : gmap string ClusterInfo)
    (clusterLink : v1alpha1.ClusterLink) : M (gmap string ClusterInfo) :=
  let name := v1alpha1.Name clusterLink in
  match DecodeString libs (v1alpha1.Kubeconfig (v1alpha1.Spec clusterLink)) with
  | Err e =>
      klog_Errorf ("Failed to decode kubeconfig for cluster " +:+ name +:+ ": " +:+ err_msg e) ;;;
      _ <- updateClusterStatus clusterLink false ""
             ("Failed to decode kubeconfig: " +:+ err_msg e) ;;
      ret clusterInfos
  | Ok kubeconfigData =>
      match buildClientWithVersion libs kubeconfigData with
      | Err e =>
          klog_Errorf ("Failed to build client for cluster " +:+ name +:+ ": " +:+ err_msg e) ;;;
          _ <- updateClusterStatus clusterLink false ""
                 ("Failed to build client: " +:+ err_msg e) ;;
          ret clusterInfos
      | Ok (client, version) =>
          clusterLink' <- updateClusterStatus clusterLink true version "" ;;
          ret (<[ name :=
                  {| Name := name;
                     Enabled := v1alpha1.Enabled (v1alpha1.Spec clusterLink);
                     Client_ := client;
                     ClusterLink := clusterLink' |} ]> clusterInfos)
      end
  end.

Definition ListClusterInfo (libs : Libs) : M (result (gmap string ClusterInfo)) :=
  r <- kubeClient.List_ClusterLinks ;;
  match r with
  | Err e => ret (Err e)
  | Ok items =>
      clusterInfos <- foldM (ListClusterInfo_body libs) ∅ items ;;
      ret (Ok clusterInfos)
  end.

Definition UpdateClusterSyncError (clusterInfo : ClusterInfo) (clusterName : string)
    (syncError : option error) : M ClusterInfo :=
  let errorMsg :=
    match syncError with
    | Some e => "Service sync error: " +:+ err_msg e
    | None => ""
    end in
  (* Always update status - either with error or clear it (empty string) *)
  cl <- updateClusterStatus (ClusterLink clusterInfo) true
          (v1alpha1.Version (v1alpha1.Status (ClusterLink clusterInfo))) errorMsg ;;
  ret {| Name := Name clusterInfo; Enabled := Enabled clusterInfo;
         Client_ := Client_ clusterInfo; ClusterLink := cl |}.

End clusterlink.

(** ** pkg/aggregator *)

Module aggregator.

Record ClusterEndpoints := {
  ClusterName : string;
  Endpoints : list Endpoint;
  Ports : list EndpointPort
}.

(** [_, isSyncedSlice := slice.Labels[config.ClusterLabel]] *)
Definition isSyncedSlice (slice : EndpointSlice) : bool :=
  bool_decide (is_Some (es_Labels slice !! config.ClusterLabel)).

(** [ep.Conditions.Ready != nil && *ep.Conditions.Ready] *)
Definition isReady (ep : Endpoint) : Prop := Ready ep = Some true.

#[global] Instance isReady_dec (ep : Endpoint) : Decision (isReady ep).
Proof. unfold isReady. apply _. Defined.

(** The first loop of [getEndpointsFromCluster]. *)
Definition collect (acc : list Endpoint * list EndpointPort) (slice : EndpointSlice)
    : list Endpoint * list EndpointPort :=
  let '(allEndpoints, ports) := acc in
  if isSyncedSlice slice then (allEndpoints, ports)
  else
    (allEndpoints ++ es_Endpoints slice,
     if Nat.eqb (length ports) 0 && Nat.ltb 0 (length (es_Ports slice))
     then es_Ports slice else ports).

Definition getEndpointsFromCluster (client : Client) (namespace serviceName : string)
    : result (list Endpoint * list EndpointPort) :=
  match EndpointSlices_List client namespace
          ("kubernetes.io/service-name=" +:+ serviceName) with
  | Err e => Err e
  | Ok items =>
      let '(allEndpoints, ports) := foldl collect ([], []) items in
      (* Filter only ready endpoints *)
      let readyEndpoints := filter isReady allEndpoints in
      Ok (readyEndpoints, ports)
  end.

Definition AggregateEndpoints_body (namespace serviceName : string)
    (clusterInfos : gmap string clusterlink.ClusterInfo)
    (results : list ClusterEndpoints) (clusterName : string) : M (list ClusterEndpoints) :=
  match clusterInfos !! clusterName with
  | None => ret results
  | Some clusterInfo =>
      match getEndpointsFromCluster (clusterlink.Client_ clusterInfo) namespace serviceName with
      | Err e =>
          klog_Warningf ("Failed to get endpoints from cluster "
                         +:+ clusterlink.Name clusterInfo +:+ " for service "
                         +:+ namespace +:+ "/" +:+ serviceName +:+ ": " +:+ err_msg e) ;;;
          ret results
      | Ok (endpoints, ports) =>
          if Nat.ltb 0 (length endpoints)
          then ret (results ++ [ {| ClusterName := clusterlink.Name clusterInfo;
                                    Endpoints := endpoints;
                                    Ports := ports |} ])
          else ret results
      end
  end.

Definition AggregateEndpoints (namespace serviceName : string) (clusters : list string)
    (clusterInfos : gmap string clusterlink.ClusterInfo)
    : M (list ClusterEndpoints * option error) :=
  results <- foldM (AggregateEndpoints_body namespace serviceName clusterInfos) [] clusters ;;
  ret (results, None).

End aggregator.

(** ** pkg/updater (slice updater) *)

Module updater.

Import aggregator.

(** [fmt.Sprintf("%s-svclink-%s", serviceName, ce.ClusterName)] *)
Definition sliceName (serviceName clusterName : string) : string :=
  serviceName +:+ "-svclink-" +:+ clusterName.

(** The three labels written on create and on update. *)
Definition stamp (serviceName clusterName : string) (labels : gmap string string)
    : gmap string string :=
  <[ config.ManagedByLabel := config.ManagedByValue ]>
    (<[ config.ClusterLabel := clusterName ]>
       (<[ config.ServiceNameLabel := serviceName ]> labels)).

Definition updateSliceForCluster (namespace serviceName : string) (ce : ClusterEndpoints)
    : M (option error) :=
  let sliceName := sliceName serviceName (ClusterName ce) in
  (* Get the service to set as owner reference *)
  r <- kubeClient.Get_Service namespace serviceName ;;
  match r with
  | Err e =>
      ret (Some (wrap ("failed to get service " +:+ namespace +:+ "/" +:+ serviceName) e))
  | Ok service =>
      let ownerRef :=
        {| or_APIVersion := "v1"; or_Kind := "Service";
           or_Name := svc_Name service; or_UID := svc_UID service |} in
      let slice :=
        {| es_Name := sliceName;
           es_Namespace := namespace;
           es_Labels := stamp serviceName (ClusterName ce) ∅;
           es_OwnerReferences := [ownerRef];
           es_AddressType := "IPv4";
           es_Endpoints := Endpoints ce;
           es_Ports := Ports ce |} in
      (* Try to get existing slice *)
      r <- kubeClient.Get_EndpointSlice namespace sliceName ;;
      match r with
      | Err e =>
          if negb (err_not_found e)
          then ret (Some (wrap "failed to get EndpointSlice" e))
          else
            (* Create new slice *)
            r <- kubeClient.Create_EndpointSlice slice ;;
            match r with
            | Err e => ret (Some (wrap "failed to create EndpointSlice" e))
            | Ok _ => ret None
            end
      | Ok existing =>
          (* Update existing slice *)
          let existing' :=
            {| es_Name := es_Name existing;
               es_Namespace := es_Namespace existing;
               es_Labels := stamp serviceName (ClusterName ce) (es_Labels existing);
               es_OwnerReferences := es_OwnerReferences existing;
               es_AddressType := es_AddressType existing;
               es_Endpoints := Endpoints ce;
               es_Ports := Ports ce |} in
          r <- kubeClient.Update_EndpointSlice existing' ;;
          match r with
          | Err e => ret (Some (wrap "failed to update EndpointSlice" e))
          | Ok _ => ret None
          end
      end
  end.

(** The delete loop of [cleanupOrphanedSlices]; a failed delete other
    than not-found returns at once. *)
Fixpoint cleanupOrphanedSlices_loop (namespace : string) (activeClusters : gset string)
    (items : list EndpointSlice) : M (option error) :=
  match items with
  | [] => ret None
  | slice :: rest =>
      if bool_decide (es_Labels slice = ∅)
      then cleanupOrphanedSlices_loop namespace activeClusters rest
      else
        let clusterName := default "" (es_Labels slice !! config.ClusterLabel) in
        if bool_decide (clusterName ∈ activeClusters)
        then cleanupOrphanedSlices_loop namespace activeClusters rest
        else
          r <- kubeClient.Delete_EndpointSlice slice ;;
          match r with
          | Err e =>
              if negb (err_not_found e)
              then ret (Some (wrap ("failed to delete orphaned EndpointSlice "
                                    +:+ namespace +:+ "/" +:+ es_Name slice) e))
              else cleanupOrphanedSlices_loop namespace activeClusters rest
          | Ok _ => cleanupOrphanedSlices_loop namespace activeClusters rest
          end
  end.

Definition cleanupOrphanedSlices (namespace serviceName : string)
    (activeClusterEndpoints : list ClusterEndpoints) : M (option error) :=
  (* Build set of active clusters *)
  let activeClusters : gset string := list_to_set (map ClusterName activeClusterEndpoints) in
  (* List all EndpointSlices for this service with cluster label;
     labels.NewRequirement does not fail on this constant key *)
  let selector :=
    [ ReqEquals config.ServiceNameLabel serviceName; ReqExists config.ClusterLabel ] in
  r <- kubeClient.List_EndpointSlices namespace selector ;;
  match r with
  | Err e => ret (Some e)
  | Ok items => cleanupOrphanedSlices_loop namespace activeClusters items
  end.

Definition UpdateEndpointSlices_body (namespace serviceName : string) (_ : unit)
    (ce : ClusterEndpoints) : M unit :=
  r <- updateSliceForCluster namespace serviceName ce ;;
  when_err r (fun e =>
    klog_Errorf ("Failed to update EndpointSlice for cluster " +:+ ClusterName ce
                 +:+ ", service " +:+ namespace +:+ "/" +:+ serviceName
                 +:+ ": " +:+ err_msg e)).
    (* Continue with other clusters even if one fails *)

Definition UpdateEndpointSlices (namespace serviceName : string)
    (clusterEndpoints : list ClusterEndpoints) : M (option error) :=
  foldM (UpdateEndpointSlices_body namespace serviceName) tt clusterEndpoints ;;;
  (* Clean up EndpointSlices for clusters that no longer have endpoints *)
  r <- cleanupOrphanedSlices namespace serviceName clusterEndpoints ;;
  when_err r (fun e =>
    klog_Errorf ("Failed to cleanup orphaned slices for service "
                 +:+ namespace +:+ "/" +:+ serviceName +:+ ": " +:+ err_msg e)) ;;;
  ret None.

End updater.

(** ** pkg/discoverer *)

Module discoverer.

(** [apis/discoverer.ServiceInfo] *)
Record ServiceInfo := {
  Name : string;
  Namespace : string;
  Clusters : list string;
  Service_ : option Service
}.

Section InCluster.

Variable clusterName : string.
Variable clusterInfo : clusterlink.ClusterInfo.
Variable cfgIncludedNamespaces : gset string.

Let spec := v1alpha1.Spec (clusterlink.ClusterLink clusterInfo).
Let excludedNS := v1alpha1.ToExcludedNamespaceSet spec.
Let includedNS := v1alpha1.ToIncludedNamespaceSet spec.
Let excludedSvc := v1alpha1.ToExcludedServiceSet spec.
Let excludedSvcName := v1alpha1.ToExcludedServiceNameSet spec.

(** The body of the loop over [svcList.Items]. *)
Definition addService (namespace : string) (services : gmap string ServiceInfo)
    (svc : Service) : gmap string ServiceInfo :=
  let serviceName := svc_Name svc in
  if v1alpha1.ShouldExcludeService spec namespace serviceName excludedSvc excludedSvcName
  then services
  else
    (* Add or update service info *)
    let key := namespace +:+ "/" +:+ serviceName in
    let svcInfo :=
      match services !! key with
      | Some i => i
      | None => {| Name := serviceName; Namespace := namespace;
                   Clusters := []; Service_ := None |}
      end in
    <[ key := {| Name := Name svcInfo; Namespace := Namespace svcInfo;
                 Clusters := Clusters svcInfo ++ [clusterName];
                 Service_ := Some svc |} ]> services.

(** The loop over [nsList.Items]; the map is the caller's, so what was
    added before a failing list call stays in it. *)
Fixpoint discoverInCluster_loop (namespaces : list string)
    (services : gmap string ServiceInfo) : M (gmap string ServiceInfo * option error) :=
  match namespaces with
  | [] => ret (services, None)
  | namespace :: rest =>
      if bool_decide (0 < size cfgIncludedNamespaces)
         && negb (bool_decide (namespace ∈ cfgIncludedNamespaces))
      then discoverInCluster_loop rest services
      else if v1alpha1.ShouldExcludeNamespace spec namespace excludedNS includedNS
      then discoverInCluster_loop rest services
      else
        match Services_List (clusterlink.Client_ clusterInfo) namespace with
        | Err e =>
            klog_Errorf ("Failed to list services in namespace " +:+ namespace
                         +:+ " of cluster " +:+ clusterName +:+ ": " +:+ err_msg e) ;;;
            ret (services, Some e)
        | Ok svcList =>
            discoverInCluster_loop rest (foldl (addService namespace) services svcList)
        end
  end.

Definition discoverInCluster (services : gmap string ServiceInfo)
    : M (gmap string ServiceInfo * option error) :=
  match Namespaces_List (clusterlink.Client_ clusterInfo) with
  | Err e =>
      klog_Errorf ("Failed to list namespaces in cluster " +:+ clusterName
                   +:+ ": " +:+ err_msg e) ;;;
      ret (services, Some e)
  | Ok nsList => discoverInCluster_loop nsList services
  end.

End InCluster.

Definition DiscoverServices_body (includedNS : gset string)
    (services : gmap string ServiceInfo) (entry : string * clusterlink.ClusterInfo)
    : M (gmap string ServiceInfo) :=
  let '(clusterName, clusterInfo) := entry in
  out <- discoverInCluster clusterName clusterInfo includedNS services ;;
  let '(services', err) := out in
  (* Always update cluster status: either with error or clear error *)
  _ <- clusterlink.UpdateClusterSyncError clusterInfo clusterName err ;;
  when_err err (fun e =>
    klog_Errorf ("Failed to discover services in cluster " +:+ clusterName
                 +:+ ": " +:+ err_msg e)) ;;;
  ret services'.

(** [clusterInfos] is the Go map in the order [range] yields it. *)
Definition DiscoverServices (clusterInfos : list (string * clusterlink.ClusterInfo))
    (includedNamespaces : list string) : M (gmap string ServiceInfo * option error) :=
  let includedNS := v1alpha1.sets_New includedNamespaces in
  services <- foldM (DiscoverServices_body includedNS) ∅ clusterInfos ;;
  ret (services, None).

End discoverer.

(** ** pkg/updater (service updater) *)

Module service_updater.

(** [services] is the Go map in the order [range] yields it; the names of
    one namespace come out in that order. The records are values here, so
    the test for a nil record has no counterpart. *)
Definition groupServicesByNamespace (services : list (string * discoverer.ServiceInfo))
    : gmap string (list string) :=
  foldl (fun namespaceServiceMap '(_, serviceInfo) =>
           let ns := discoverer.Namespace serviceInfo in
           let names := default [] (namespaceServiceMap !! ns) in
           <[ ns := names ++ [discoverer.Name serviceInfo] ]> namespaceServiceMap)
        ∅ services.

End service_updater.

(** ** pkg/controller *)

Module controller.

Definition syncService (svcInfo : discoverer.ServiceInfo)
    (clusterInfos : gmap string clusterlink.ClusterInfo) : M (option error) :=
  (* Aggregate endpoints from all clusters *)
  out <- aggregator.AggregateEndpoints (discoverer.Namespace svcInfo)
           (discoverer.Name svcInfo) (discoverer.Clusters svcInfo) clusterInfos ;;
  let '(clusterEndpoints, err) := out in
  match err with
  | Some e => ret (Some e)
  | None =>
      (* Update EndpointSlices *)
      r <- updater.UpdateEndpointSlices (discoverer.Namespace svcInfo)
             (discoverer.Name svcInfo) clusterEndpoints ;;
      match r with
      | Some e => ret (Some e)
      | None => ret None
      end
  end.

(** [utilserrors.NewAggregate(errs).Error()] *)
Definition aggregate_msg (errs : list string) : string :=
  match errs with
  | [e] => e
  | _ => "[" +:+ String.concat ", " errs +:+ "]"
  end.

(** The last part of [sync]: the loop over the discovered services, in
    the order [range] yields them, and the report of the collected
    errors. The result is [errs]. *)
Definition sync_services (services : list (string * discoverer.ServiceInfo))
    (clusterInfos : gmap string clusterlink.ClusterInfo) : M (list string) :=
  errs <- foldM (fun errs '(key, svcInfo) =>
            r <- syncService svcInfo clusterInfos ;;
            match r with
            | Some e => ret (errs ++ ["failed to sync service " +:+ key +:+ ": " +:+ err_msg e])
            | None => ret errs
            end) [] services ;;
  (if Nat.ltb 0 (length errs)
   then klog_Errorf ("Sync cycle completed with errors: " +:+ aggregate_msg errs)
   else ret tt) ;;;
  ret errs.

(** [listed] is what [c.ctrlClient.List] returns for the services of all
    namespaces of the local cluster. *)
Definition filterServicesExistingInLocalCluster (listed : result (list Service))
    (includedNamespaces : list string) (services : gmap string discoverer.ServiceInfo)
    : result (gmap string discoverer.ServiceInfo) :=
  match listed with
  | Err e => Err e
  | Ok items =>
      (* Build a set of local services for efficient lookup *)
      let includedNSSet := v1alpha1.sets_New includedNamespaces in
      let localServices : gset string :=
        foldl (fun localServices svc =>
                 if bool_decide (0 < size includedNSSet)
                    && negb (bool_decide (svc_Namespace svc ∈ includedNSSet))
                 then localServices
                 else {[ svc_Namespace svc +:+ "/" +:+ svc_Name svc ]} ∪ localServices)
              ∅ items in
      (* Filter services to only include those that exist locally *)
      Ok (filter (fun kv => kv.1 ∈ localServices) services)
  end.

End controller.

(** ** Notions used in the statements *)

(** A resource carries the marker when its labels have the key
    [config.ClusterLabel], whatever the value: the test of
    [getEndpointsFromCluster]. *)
Definition carries_marker (slice : EndpointSlice) : Prop :=
  is_Some (es_Labels slice !! config.ClusterLabel).

#[global] Instance carries_marker_dec slice : Decision (carries_marker slice).
Proof. unfold carries_marker. apply _. Defined.

(** The label selector [getEndpointsFromCluster] sends. *)
Definition service_selector (serviceName : string) : string :=
  "kubernetes.io/service-name=" +:+ serviceName.

(** What one contributing cluster adds to the result of
    [AggregateEndpoints]. *)
Definition contribution (namespace serviceName : string)
    (clusterInfos : gmap string clusterlink.ClusterInfo) (clusterName : string)
    : option aggregator.ClusterEndpoints :=
  match clusterInfos !! clusterName with
  | None => None
  | Some clusterInfo =>
      match aggregator.getEndpointsFromCluster (clusterlink.Client_ clusterInfo)
              namespace serviceName with
      | Err _ => None
      | Ok (endpoints, ports) =>
          if Nat.ltb 0 (length endpoints)
          then Some {| aggregator.ClusterName := clusterlink.Name clusterInfo;
                       aggregator.Endpoints := endpoints;
                       aggregator.Ports := ports |}
          else None
      end
  end.

Definition no_faults : ApiCall -> option string := fun _ => None.

(** The calls issued between two states of the world. *)
Definition calls_since (w w' : World) : list ApiCall :=
  drop (length (w_calls w)) (w_calls w').

(** The world after more calls, more log lines and a change of the
    stored slices. *)
Definition extend (w : World) (slices : gmap (string * string) EndpointSlice)
    (calls : list ApiCall) (lines : list (LogLevel * string)) : World :=
  {| w_services := w_services w; w_slices := slices;
     w_clusterLinks := w_clusterLinks w; w_faults := w_faults w; w_now := w_now w;
     w_calls := w_calls w ++ calls; w_log := w_log w ++ lines |}.

(** *** The reconciler on the store, when no call fails *)

Definition target (namespace serviceName : string) (ce : aggregator.ClusterEndpoints)
    : string * string :=
  (namespace, updater.sliceName serviceName (aggregator.ClusterName ce)).

(** The slice [updateSliceForCluster] leaves under the target key: the
    created one when there was none, the overwritten one otherwise. *)
Definition written (namespace serviceName : string) (service : Service)
    (ce : aggregator.ClusterEndpoints) (old : option EndpointSlice) : EndpointSlice :=
  match old with
  | None =>
      {| es_Name := updater.sliceName serviceName (aggregator.ClusterName ce);
         es_Namespace := namespace;
         es_Labels := updater.stamp serviceName (aggregator.ClusterName ce) ∅;
         es_OwnerReferences :=
           [ {| or_APIVersion := "v1"; or_Kind := "Service";
                or_Name := svc_Name service; or_UID := svc_UID service |} ];
         es_AddressType := "IPv4";
         es_Endpoints := aggregator.Endpoints ce;
         es_Ports := aggregator.Ports ce |}
  | Some existing =>
      {| es_Name := updater.sliceName serviceName (aggregator.ClusterName ce);
         es_Namespace := namespace;
         es_Labels := updater.stamp serviceName (aggregator.ClusterName ce) (es_Labels existing);
         es_OwnerReferences := es_OwnerReferences existing;
         es_AddressType := es_AddressType existing;
         es_Endpoints := aggregator.Endpoints ce;
         es_Ports := aggregator.Ports ce |}
  end.

Definition upsert (namespace serviceName : string) (service : Service)
    (m : gmap (string * string) EndpointSlice) (ce : aggregator.ClusterEndpoints)
    : gmap (string * string) EndpointSlice :=
  <[ target namespace serviceName ce :=
       written namespace serviceName service ce (m !! target namespace serviceName ce) ]> m.

Definition upsert_calls (namespace serviceName : string)
    (m : gmap (string * string) EndpointSlice) (ce : aggregator.ClusterEndpoints)
    : list ApiCall :=
  let name := updater.sliceName serviceName (aggregator.ClusterName ce) in
  [ GetService namespace serviceName; GetSlice namespace name;
    match m !! target namespace serviceName ce with
    | Some _ => UpdateSlice namespace name
    | None => CreateSlice namespace name
    end ].

Fixpoint reconcile_calls (namespace serviceName : string) (service : Service)
    (m : gmap (string * string) EndpointSlice) (ces : list aggregator.ClusterEndpoints)
    : list ApiCall :=
  match ces with
  | [] => []
  | ce :: rest =>
      upsert_calls namespace serviceName m ce
      ++ reconcile_calls namespace serviceName service
           (upsert namespace serviceName service m ce) rest
  end.

(** An orphan of a service: a stored slice of the namespace that has
    the service's label and a cluster label whose value is not among the
    active clusters. *)
Definition is_orphan (namespace serviceName : string) (active : gset string)
    (k : string * string) (s : EndpointSlice) : Prop :=
  k.1 = namespace
  ∧ es_Labels s !! config.ServiceNameLabel = Some serviceName
  ∧ ∃ c, es_Labels s !! config.ClusterLabel = Some c ∧ c ∉ active.

(** The test of the delete loop on a listed slice. *)
Definition doomed (active : gset string) (s : EndpointSlice) : Prop :=
  es_Labels s ≠ ∅ ∧ default "" (es_Labels s !! config.ClusterLabel) ∉ active.

#[global] Instance doomed_dec active s : Decision (doomed active s).
Proof. unfold doomed. apply _. Defined.

#[global] Instance is_orphan_dec namespace serviceName active k s :
  Decision (is_orphan namespace serviceName active k s).
Proof.
  unfold is_orphan.
  destruct (es_Labels s !! config.ClusterLabel) as [c|].
  - destruct (decide (k.1 = namespace ∧
                      es_Labels s !! config.ServiceNameLabel = Some serviceName ∧
                      c ∉ active)) as [H|H].
    + left. destruct H as (? & ? & ?). eauto.
    + right. intros (? & ? & c' & [= <-] & ?). tauto.
  - right. intros (_ & _ & c & ? & _). discriminate.
Defined.

(** The selector and the listing of [cleanupOrphanedSlices]. *)
Definition cleanup_selector (serviceName : string) : list Requirement :=
  [ ReqEquals config.ServiceNameLabel serviceName; ReqExists config.ClusterLabel ].

Definition listed (namespace : string) (sel : list Requirement)
    (m : gmap (string * string) EndpointSlice) : list EndpointSlice :=
  omap (fun '(k, s) =>
          if bool_decide (k.1 = namespace) && selector_matches sel (es_Labels s)
          then Some (slice_at k s) else None)
       (map_to_list m).

(** One step of the delete loop on the store, and its call. *)
Definition delete_slice (m : gmap (string * string) EndpointSlice) (s : EndpointSlice)
    : gmap (string * string) EndpointSlice :=
  delete (slice_key s) m.

Definition delete_call (s : EndpointSlice) : ApiCall :=
  DeleteSlice (es_Namespace s) (es_Name s).

Definition active_clusters (ces : list aggregator.ClusterEndpoints) : gset string :=
  list_to_set (map aggregator.ClusterName ces).

(** No call to the local API server fails. *)
Definition reliable (w : World) : Prop := ∀ c, w_faults w c = None.

(** The line [UpdateEndpointSlices] logs for a failed cluster. *)
Definition update_failure_line (namespace serviceName : string)
    (ce : aggregator.ClusterEndpoints)
    (e : error) : LogLevel * string :=
  (ERROR, "Failed to update EndpointSlice for cluster " +:+ aggregator.ClusterName ce
          +:+ ", service " +:+ namespace +:+ "/" +:+ serviceName
          +:+ ": " +:+ err_msg e).

(** The line [UpdateEndpointSlices] logs when the cleanup fails. *)
Definition cleanup_failure_line (namespace serviceName : string) (e : error)
    : LogLevel * string :=
  (ERROR, "Failed to cleanup orphaned slices for service "
          +:+ namespace +:+ "/" +:+ serviceName +:+ ": " +:+ err_msg e).

(** The log only grows. *)
Definition log_grows {A} (m : M A) : Prop :=
  ∀ w, w_log w `prefix_of` w_log (m w).2.

(** The error of [updateSliceForCluster] when the parent service is absent. *)
Definition no_service_error (namespace serviceName : string) : error :=
  wrap ("failed to get service " +:+ namespace +:+ "/" +:+ serviceName)
       (not_found ("services " +:+ serviceName)).

(** *** The registry on the store *)

(** The world after more calls, more log lines and a change of the
    stored descriptors. *)
Definition extend_links (w : World) (links : gmap string v1alpha1.ClusterLink)
    (calls : list ApiCall) (lines : list (LogLevel * string)) : World :=
  {| w_services := w_services w; w_slices := w_slices w;
     w_clusterLinks := links; w_faults := w_faults w; w_now := w_now w;
     w_calls := w_calls w ++ calls; w_log := w_log w ++ lines |}.

(** The conditions [buildConditions] returns at time [now]. *)
Definition conditions_at (now : Z) (connected : bool) (errorMsg : string)
    : list v1alpha1.ClusterLinkCondition :=
  let ready status reason message :=
    {| v1alpha1.Type_ := v1alpha1.ClusterLinkReady; v1alpha1.Status_ := status;
       v1alpha1.LastTransitionTime := now;
       v1alpha1.Reason := reason; v1alpha1.Message := message |} in
  if connected
  then [ready v1alpha1.ConditionTrue "Connected" "Successfully connected to remote cluster"]
  else
    ready v1alpha1.ConditionFalse "ConnectionFailed" "Failed to connect to remote cluster"
    :: (if bool_decide (errorMsg ≠ "")
        then [ {| v1alpha1.Type_ := v1alpha1.ClusterLinkError;
                  v1alpha1.Status_ := v1alpha1.ConditionTrue;
                  v1alpha1.LastTransitionTime := now;
                  v1alpha1.Reason := "Error"; v1alpha1.Message := errorMsg |} ]
        else []).

(** The status [updateClusterStatus] computes at time [now]. *)
Definition status_at (now : Z) (old : v1alpha1.ClusterLinkStatus) (connected : bool)
    (version errorMsg : string) : v1alpha1.ClusterLinkStatus :=
  {| v1alpha1.Connected := connected;
     v1alpha1.LastConnected := if connected then Some now else v1alpha1.LastConnected old;
     v1alpha1.Error := errorMsg;
     v1alpha1.Version := version;
     v1alpha1.Conditions := conditions_at now connected errorMsg |}.

(** The store after a status update of the descriptor [name]. *)
Definition put_status (name : string) (status : v1alpha1.ClusterLinkStatus)
    (links : gmap string v1alpha1.ClusterLink) : gmap string v1alpha1.ClusterLink :=
  match links !! name with
  | Some old =>
      <[ name := {| v1alpha1.Name := name; v1alpha1.Spec := v1alpha1.Spec old;
                    v1alpha1.Status := status |} ]> links
  | None => links
  end.

(** The error text [UpdateClusterSyncError] stores. *)
Definition sync_error_msg (syncError : option error) : string :=
  match syncError with
  | Some e => "Service sync error: " +:+ err_msg e
  | None => ""
  end.

(** The name of the descriptor a cluster info carries. *)
Definition descriptor_name (entry : string * clusterlink.ClusterInfo) : string :=
  v1alpha1.Name (clusterlink.ClusterLink entry.2).

(** ** Example inputs *)

Module examples.

Definition ep (addr : string) (ready : option bool) : Endpoint :=
  {| Addresses := [addr]; Ready := ready |}.

Definition http : EndpointPort := {| PortName := Some "http"; Port := Some 8080%Z |}.

(** The two slices of TestGetEndpointsFromCluster_SkipsSyncedSlices. *)
Definition nativeSlice : EndpointSlice :=
  {| es_Name := "test-service-abc123"; es_Namespace := "default";
     es_Labels := {[ "kubernetes.io/service-name" := "test-service" ]};
     es_OwnerReferences := []; es_AddressType := "IPv4";
     es_Endpoints := [ep "10.0.1.1" (Some true); ep "10.0.1.2" (Some true)];
     es_Ports := [http] |}.

Definition syncedSlice : EndpointSlice :=
  {| es_Name := "test-service-cluster-b"; es_Namespace := "default";
     es_Labels := <[ config.ClusterLabel := "cluster-b" ]>
                    {[ "kubernetes.io/service-name" := "test-service" ]};
     es_OwnerReferences := []; es_AddressType := "IPv4";
     es_Endpoints := [ep "10.0.2.1" (Some true)];
     es_Ports := [http] |}.

(** A slice whose entries are not ready or have no readiness at all. *)
Definition idleSlice : EndpointSlice :=
  {| es_Name := "test-service-idle"; es_Namespace := "default";
     es_Labels := {[ "kubernetes.io/service-name" := "test-service" ]};
     es_OwnerReferences := []; es_AddressType := "IPv4";
     es_Endpoints := [ep "10.0.4.1" (Some false); ep "10.0.4.2" None];
     es_Ports := [http] |}.

Definition remote (serviceName : string) (items : list EndpointSlice) : Client :=
  {| Namespaces_List := Ok ["default"; "kube-system"];
     Services_List := fun ns =>
       if bool_decide (ns = "default")
       then Ok [ {| svc_Name := serviceName; svc_Namespace := "default"; svc_UID := "r-1" |} ]
       else Ok [];
     EndpointSlices_List := fun ns sel =>
       if bool_decide (ns = "default") && bool_decide (sel = service_selector serviceName)
       then Ok items else Ok [];
     ServerVersion := Ok "v1.28.0" |}.

Definition spec0 : v1alpha1.ClusterLinkSpec :=
  {| v1alpha1.Enabled := true; v1alpha1.Kubeconfig := "a3ViZQ==";
     v1alpha1.ExcludedNamespaces := []; v1alpha1.IncludedNamespaces := [];
     v1alpha1.ExcludedServices := []; v1alpha1.ExcludedServiceNames := [] |}.

Definition status0 : v1alpha1.ClusterLinkStatus :=
  {| v1alpha1.Connected := false; v1alpha1.LastConnected := None;
     v1alpha1.Error := ""; v1alpha1.Version := ""; v1alpha1.Conditions := [] |}.

Definition link (name : string) : v1alpha1.ClusterLink :=
  {| v1alpha1.Name := name; v1alpha1.Spec := spec0; v1alpha1.Status := status0 |}.

Definition info (name : string) (client : Client) : clusterlink.ClusterInfo :=
  {| clusterlink.Name := name; clusterlink.Enabled := true;
     clusterlink.Client_ := client; clusterlink.ClusterLink := link name |}.

Definition infos : gmap string clusterlink.ClusterInfo :=
  <[ "east" := info "east" (remote "test-service" [nativeSlice; syncedSlice]) ]>
    (<[ "west" := info "west" (remote "test-service" [idleSlice; syncedSlice]) ]> ∅).

Definition world0 : World :=
  {| w_services := ∅; w_slices := ∅; w_clusterLinks := ∅; w_faults := no_faults;
     w_now := 0%Z; w_calls := []; w_log := [] |}.

(** The local cluster of the end-to-end scenario: service default/web,
    nothing synchronized yet. *)
Definition world_web : World :=
  {| w_services := {[ ("default", "web") :=
                        {| svc_Name := "web"; svc_Namespace := "default"; svc_UID := "uid-web" |} ]};
     w_slices := ∅; w_clusterLinks := ∅; w_faults := no_faults;
     w_now := 0%Z; w_calls := []; w_log := [] |}.

Definition ceE : aggregator.ClusterEndpoints :=
  {| aggregator.ClusterName := "east";
     aggregator.Endpoints := [ep "10.0.1.1" (Some true); ep "10.0.1.2" (Some true)];
     aggregator.Ports := [http] |}.

Definition ceW : aggregator.ClusterEndpoints :=
  {| aggregator.ClusterName := "west";
     aggregator.Endpoints := [ep "10.0.3.1" (Some true)];
     aggregator.Ports := [http] |}.

(** After a first cycle with both clusters contributing. *)
Definition world_xy : World :=
  (updater.UpdateEndpointSlices "default" "web" [ceE; ceW] world_web).2.

(** The same cluster, but the API server refuses to create the slice of
    the eastern cluster. *)
Definition world_create_fails : World :=
  {| w_services := w_services world_web; w_slices := ∅; w_clusterLinks := ∅;
     w_faults := fun c =>
       match c with
       | CreateSlice _ name =>
           if bool_decide (name = "web-svclink-east") then Some "etcdserver: request timed out"
           else None
       | _ => None
       end;
     w_now := 0%Z; w_calls := []; w_log := [] |}.

(** The eastern cluster of the end-to-end scenario and what discovery
    found for default/web. *)
Definition webSlice : EndpointSlice :=
  {| es_Name := "web-x7k2p"; es_Namespace := "default";
     es_Labels := {[ "kubernetes.io/service-name" := "web" ]};
     es_OwnerReferences := []; es_AddressType := "IPv4";
     es_Endpoints := [ep "10.0.1.1" (Some true); ep "10.0.1.2" (Some true)];
     es_Ports := [http] |}.

Definition infos_web : gmap string clusterlink.ClusterInfo :=
  {[ "east" := info "east" (remote "web" [webSlice]) ]}.

Definition svcInfo_web : discoverer.ServiceInfo :=
  {| discoverer.Name := "web"; discoverer.Namespace := "default";
     discoverer.Clusters := ["east"]; discoverer.Service_ := None |}.

(** Two services whose slice names collide. *)
Definition world_collide : World :=
  {| w_services :=
       <[ ("default", "a-svclink-b") :=
            {| svc_Name := "a-svclink-b"; svc_Namespace := "default"; svc_UID := "uid-1" |} ]>
         {[ ("default", "a") :=
              {| svc_Name := "a"; svc_Namespace := "default"; svc_UID := "uid-2" |} ]};
     w_slices := ∅; w_clusterLinks := ∅; w_faults := no_faults;
     w_now := 0%Z; w_calls := []; w_log := [] |}.

(** The library calls: one kubeconfig that decodes, and a client per
    decoded kubeconfig. *)
Definition libs (client : Client) : clusterlink.Libs :=
  {| clusterlink.DecodeString := fun s =>
       if bool_decide (s = "a3ViZQ==") then Ok "kube"
       else Err (server_error "illegal base64 data at input byte 0");
     clusterlink.RESTConfigFromKubeConfig := fun data =>
       Ok {| clusterlink.Host := "https://east.example:6443" |};
     clusterlink.NewForConfig := fun _ => Ok client |}.

(** A cluster that answers no request: the version probe fails. *)
Definition unreachable : Client :=
  {| Namespaces_List := Err (server_error "dial tcp: i/o timeout");
     Services_List := fun _ => Err (server_error "dial tcp: i/o timeout");
     EndpointSlices_List := fun _ _ => Err (server_error "dial tcp: i/o timeout");
     ServerVersion := Err (server_error "dial tcp: i/o timeout") |}.

Definition disabled_link : v1alpha1.ClusterLink :=
  {| v1alpha1.Name := "west";
     v1alpha1.Spec :=
       {| v1alpha1.Enabled := false; v1alpha1.Kubeconfig := "a3ViZQ==";
          v1alpha1.ExcludedNamespaces := []; v1alpha1.IncludedNamespaces := [];
          v1alpha1.ExcludedServices := []; v1alpha1.ExcludedServiceNames := [] |};
     v1alpha1.Status := status0 |}.

Definition world_links (links : list v1alpha1.ClusterLink) : World :=
  {| w_services := ∅; w_slices := ∅;
     w_clusterLinks := list_to_map (map (fun cl => (v1alpha1.Name cl, cl)) links);
     w_faults := no_faults; w_now := 1700000000%Z; w_calls := []; w_log := [] |}.

(** A cluster whose namespace a lists one service and whose namespace b
    cannot be listed. *)
Definition half_listed : Client :=
  {| Namespaces_List := Ok ["a"; "b"];
     Services_List := fun ns =>
       if bool_decide (ns = "a")
       then Ok [ {| svc_Name := "web"; svc_Namespace := "a"; svc_UID := "r-7" |} ]
       else Err (server_error "boom");
     EndpointSlices_List := fun _ _ => Ok [];
     ServerVersion := Ok "v1.28.0" |}.

(** The local cluster with the service default/web and the disabled
    descriptor west. *)
Definition world_disabled : World :=
  {| w_services := w_services world_web; w_slices := ∅;
     w_clusterLinks := {[ "west" := disabled_link ]};
     w_faults := no_faults; w_now := 1700000000%Z; w_calls := []; w_log := [] |}.

End examples.

(** *** What discovery keeps true of its output map *)

(** A record of the output map, found under [key], for the clusters
    [entries] and the global namespace list [incl]. *)
Definition record_ok (incl : gset string) (entries : list (string * clusterlink.ClusterInfo))
    (key : string) (info : discoverer.ServiceInfo) : Prop :=
  key = discoverer.Namespace info +:+ "/" +:+ discoverer.Name info
  ∧ discoverer.Namespace info ≠ "kube-system"
  ∧ discoverer.Name info ≠ "kubernetes"
  ∧ discoverer.Clusters info ≠ []
  ∧ is_Some (discoverer.Service_ info)
  ∧ (0 < size incl → discoverer.Namespace info ∈ incl)
  ∧ ∀ c, c ∈ discoverer.Clusters info →
         ∃ ci nss, (c, ci) ∈ entries
                   ∧ Namespaces_List (clusterlink.Client_ ci) = Ok nss.

Definition records_ok (incl : gset string) (entries : list (string * clusterlink.ClusterInfo))
    (services : gmap string discoverer.ServiceInfo) : Prop :=
  ∀ key info, services !! key = Some info → record_ok incl entries key info.

(** The cluster [c] is a contributor of the record under [key]. *)
Definition contributes (c key : string) (services : gmap string discoverer.ServiceInfo) : Prop :=
  ∃ info, services !! key = Some info ∧ c ∈ discoverer.Clusters info.

(** *** What a computation leaves alone *)

(** [respects R m]: every run of [m] takes a world to one related by [R]. *)
Definition respects {A} (R : World -> World -> Prop) (m : M A) : Prop :=
  ∀ w, R w (m w).2.

(** Nothing the core does changes the local services, the clock it reads
    or the way the API server fails. *)
Definition same_env (w w' : World) : Prop :=
  w_services w' = w_services w ∧ w_now w' = w_now w ∧ w_faults w' = w_faults w.

(** The registry's and the discoverer's side: the slices are left as they
    are, and of a descriptor only the status may change. *)
Definition keeps_slices (w w' : World) : Prop :=
  same_env w w'
  ∧ w_slices w' = w_slices w
  ∧ ∀ name, (v1alpha1.Spec <$> w_clusterLinks w' !! name)
            = (v1alpha1.Spec <$> w_clusterLinks w !! name).

(** The aggregator's side: nothing of the local cluster changes, no call
    is issued on it, and the log gets warnings only. *)
Definition only_warns (w w' : World) : Prop :=
  same_env w w'
  ∧ w_slices w' = w_slices w
  ∧ w_clusterLinks w' = w_clusterLinks w
  ∧ w_calls w' = w_calls w
  ∧ ∃ lines, w_log w' = w_log w ++ lines ∧ Forall (fun line => line.1 = WARNING) lines.

(** A call on the slices or the services of one namespace. *)
Definition in_namespace (namespace : string) (c : ApiCall) : Prop :=
  match c with
  | GetService ns _ | GetSlice ns _ | CreateSlice ns _ | UpdateSlice ns _
  | DeleteSlice ns _ | ListSlices ns => ns = namespace
  | ListClusterLinks | UpdateStatus _ => False
  end.

(** The parent service cannot be read. *)
Definition parent_unavailable (namespace serviceName : string) (w : World) : Prop :=
  w_services w !! (namespace, serviceName) = None
  ∨ is_Some (w_faults w (GetService namespace serviceName)).

(** The three label keys the reconciler sets. *)
Definition stamped_keys : list string :=
  [config.ServiceNameLabel; config.ClusterLabel; config.ManagedByLabel].

(** The entry [ListClusterInfo] makes for a descriptor at time [now], if
    it makes one. *)
Definition connect (libs : clusterlink.Libs) (now : Z) (cl : v1alpha1.ClusterLink)
    : option clusterlink.ClusterInfo :=
  match clusterlink.DecodeString libs (v1alpha1.Kubeconfig (v1alpha1.Spec cl)) with
  | Err _ => None
  | Ok data =>
      match clusterlink.buildClientWithVersion libs data with
      | Err _ => None
      | Ok (client, version) =>
          Some {| clusterlink.Name := v1alpha1.Name cl;
                  clusterlink.Enabled := v1alpha1.Enabled (v1alpha1.Spec cl);
                  clusterlink.Client_ := client;
                  clusterlink.ClusterLink :=
                    {| v1alpha1.Name := v1alpha1.Name cl;
                       v1alpha1.Spec := v1alpha1.Spec cl;
                       v1alpha1.Status :=
                         status_at now (v1alpha1.Status cl) true version "" |} |}
      end
  end.

(** One turn of the registry's loop, on the output map alone. *)
Definition connect_step (libs : clusterlink.Libs) (now : Z) (clusterInfos : gmap string clusterlink.ClusterInfo)
    (clusterLink : v1alpha1.ClusterLink) : gmap string clusterlink.ClusterInfo :=
  match connect libs now clusterLink with
  | Some info => <[ v1alpha1.Name clusterLink := info ]> clusterInfos
  | None => clusterInfos
  end.


(** *** Scenarios *)

Module scenarios.

(** The eastern cluster alone, as the discoverer gets it. *)
Definition east_only : list (string * clusterlink.ClusterInfo) :=
  [("east", examples.info "east" (examples.remote "web" [examples.webSlice]))].

(** What discovery finds there for default/web. *)
Definition found_web : discoverer.ServiceInfo :=
  {| discoverer.Name := "web"; discoverer.Namespace := "default";
     discoverer.Clusters := ["east"];
     discoverer.Service_ :=
       Some {| svc_Name := "web"; svc_Namespace := "default"; svc_UID := "r-1" |} |}.

(** The service default/web as the local API server serves it, and the
    slices a first cycle with both clusters leaves for it. *)
Definition web_service : Service :=
  {| svc_Name := "web"; svc_Namespace := "default"; svc_UID := "uid-web" |}.

Definition slice_east : EndpointSlice :=
  written "default" "web" web_service examples.ceE None.


(** The local cluster with a slice Kubernetes manages for default/web
    and an API server that refuses every write. *)
Definition world_readonly : World :=
  {| w_services := w_services examples.world_web;
     w_slices := {[ ("default", "web-x7k2p") := examples.webSlice ]};
     w_clusterLinks := ∅;
     w_faults := fun c => if is_write c then Some "forbidden" else None;
     w_now := 0%Z; w_calls := []; w_log := [] |}.

(** After a first cycle with both clusters, the service default/web is
    deleted. *)
Definition world_parent_gone : World :=
  {| w_services := ∅; w_slices := w_slices examples.world_xy; w_clusterLinks := ∅;
     w_faults := no_faults; w_now := 0%Z; w_calls := []; w_log := [] |}.


(** A descriptor whose kubeconfig is not base64. *)
Definition garbled_link : v1alpha1.ClusterLink :=
  {| v1alpha1.Name := "north";
     v1alpha1.Spec :=
       {| v1alpha1.Enabled := true; v1alpha1.Kubeconfig := "%%%";
          v1alpha1.ExcludedNamespaces := []; v1alpha1.IncludedNamespaces := [];
          v1alpha1.ExcludedServices := []; v1alpha1.ExcludedServiceNames := [] |};
     v1alpha1.Status :=
       {| v1alpha1.Connected := true; v1alpha1.LastConnected := Some 1600000000%Z;
          v1alpha1.Error := ""; v1alpha1.Version := "v1.27.3";
          v1alpha1.Conditions := [] |} |}.

(** The descriptor of the eastern cluster with a sync error left by an
    earlier cycle, and the cluster info the registry makes of it. *)
Definition stale_link : v1alpha1.ClusterLink :=
  {| v1alpha1.Name := "east"; v1alpha1.Spec := examples.spec0;
     v1alpha1.Status :=
       {| v1alpha1.Connected := true; v1alpha1.LastConnected := Some 1600000000%Z;
          v1alpha1.Error := "Service sync error: dial tcp: i/o timeout";
          v1alpha1.Version := "v1.28.0"; v1alpha1.Conditions := [] |} |}.

Definition stale_info : clusterlink.ClusterInfo :=
  {| clusterlink.Name := "east"; clusterlink.Enabled := true;
     clusterlink.Client_ := examples.remote "web" [examples.webSlice];
     clusterlink.ClusterLink := stale_link |}.

(** The local cluster after a first cycle with both clusters. *)
Definition world_after_first_cycle : World :=
  {| w_services := w_services examples.world_web;
     w_slices := w_slices examples.world_xy; w_clusterLinks := ∅;
     w_faults := no_faults; w_now := 0%Z; w_calls := []; w_log := [] |}.

End scenarios.

(** * Properties *)

(** ** Running a computation *)

Lemma run_bind {A B} (m : M A) (k : A -> M B) (w : World) :
  bind m k w = k (m w).1 (m w).2.
Proof. unfold bind. by destruct (m w). Qed.

Lemma foldM_cons {A B} (body : A -> B -> M A) (acc : A) (x : B) (xs : list B) (w : World) :
  foldM body acc (x :: xs) w = foldM body (body acc x w).1 xs (body acc x w).2.
Proof. cbn [foldM]. unfold bind. by destruct (body acc x w). Qed.

Lemma foldM_app {A B} (body : A -> B -> M A) (acc : A) (xs ys : list B) (w : World) :
  foldM body acc (xs ++ ys) w
  = foldM body (foldM body acc xs w).1 ys (foldM body acc xs w).2.
Proof.
  revert acc w. induction xs as [|x xs IH]; intros acc w; [done|].
  simpl app. rewrite !foldM_cons. apply IH.
Qed.

(** Closed decidable facts are settled by evaluation. *)
Ltac by_compute :=
  first [ vm_compute; reflexivity
        | lazymatch goal with
          | |- ?P => apply (bool_decide_unpack P); vm_compute; exact I
          end ].

(** ** Filter policy *)

(** C4. For every ClusterLinkSpec, with the sets the discoverer computes
    from it, the namespace kube-system is excluded by
    [ShouldExcludeNamespace] and the service name kubernetes is excluded
    by [ShouldExcludeService] in every namespace; both are members of the
    computed exclusion sets whatever the user lists say, also when
    kube-system is listed in IncludedNamespaces. *)
Theorem default_exclusion_invariant (cls : v1alpha1.ClusterLinkSpec) :
  v1alpha1.NamespaceSystem ∈ v1alpha1.ToExcludedNamespaceSet cls
  ∧ "kubernetes" ∈ v1alpha1.ToExcludedServiceNameSet cls
  ∧ v1alpha1.ShouldExcludeNamespace cls v1alpha1.NamespaceSystem
      (v1alpha1.ToExcludedNamespaceSet cls) (v1alpha1.ToIncludedNamespaceSet cls) = true
  ∧ ∀ namespace : string,
      v1alpha1.ShouldExcludeService cls namespace "kubernetes"
        (v1alpha1.ToExcludedServiceSet cls) (v1alpha1.ToExcludedServiceNameSet cls) = true.
Proof.
  assert (Hns : v1alpha1.NamespaceSystem ∈ v1alpha1.ToExcludedNamespaceSet cls).
  { unfold v1alpha1.ToExcludedNamespaceSet. by apply elem_of_union_l, elem_of_singleton_2. }
  assert (Hsvc : "kubernetes" ∈ v1alpha1.ToExcludedServiceNameSet cls).
  { unfold v1alpha1.ToExcludedServiceNameSet. by apply elem_of_union_l, elem_of_singleton_2. }
  split; [exact Hns|]. split; [exact Hsvc|]. split.
  - unfold v1alpha1.ShouldExcludeNamespace.
    rewrite bool_decide_eq_true_2; [reflexivity | exact Hns].
  - intros namespace. unfold v1alpha1.ShouldExcludeService.
    case_bool_decide; [reflexivity|].
    rewrite bool_decide_eq_true_2; [reflexivity | exact Hsvc].
Qed.

(** ** Aggregator *)

Section Aggregator.

Import aggregator.

Lemma isSyncedSlice_spec slice :
  isSyncedSlice slice = false ↔ ¬ carries_marker slice.
Proof.
  unfold isSyncedSlice, carries_marker.
  rewrite bool_decide_eq_false. reflexivity.
Qed.

Lemma collect_endpoints (items : list EndpointSlice) acc :
  (foldl collect acc items).1
  = acc.1 ++ flat_map es_Endpoints (filter (λ s, ¬ carries_marker s) items).
Proof.
  revert acc. induction items as [|s items IH]; intros [eps ports]; simpl.
  - by rewrite app_nil_r.
  - rewrite IH, filter_cons. unfold collect.
    destruct (decide (¬ carries_marker s)) as [Hn|Hn].
    + apply isSyncedSlice_spec in Hn. rewrite Hn. simpl. by rewrite app_assoc.
    + destruct (isSyncedSlice s) eqn:E; [done|].
      by apply isSyncedSlice_spec in E.
Qed.


Lemma getEndpointsFromCluster_ok client namespace serviceName items :
  EndpointSlices_List client namespace (service_selector serviceName) = Ok items →
  ∃ ports,
    getEndpointsFromCluster client namespace serviceName
    = Ok (filter isReady (flat_map es_Endpoints (filter (λ s, ¬ carries_marker s) items)),
          ports).
Proof.
  intros Hlist. unfold getEndpointsFromCluster.
  fold (service_selector serviceName). rewrite Hlist.
  pose proof (collect_endpoints items ([], [])) as Hc.
  destruct (foldl collect ([], []) items) as [all ports]. simpl in Hc. subst all.
  by exists ports.
Qed.

Lemma AggregateEndpoints_foldM namespace serviceName clusterInfos clusters acc w :
  (foldM (AggregateEndpoints_body namespace serviceName clusterInfos) acc clusters w).1
  = acc ++ omap (contribution namespace serviceName clusterInfos) clusters.
Proof.
  revert acc w. induction clusters as [|c clusters IH]; intros acc w; simpl.
  - by rewrite app_nil_r.
  - rewrite run_bind, IH. unfold AggregateEndpoints_body, contribution.
    destruct (clusterInfos !! c) as [info|]; simpl; [|done].
    destruct (getEndpointsFromCluster _ _ _) as [[eps ports]|e]; simpl; [|done].
    destruct (0 <? length eps)%nat; simpl; [|done].
    by rewrite <- app_assoc.
Qed.

Lemma AggregateEndpoints_results namespace serviceName clusters clusterInfos w :
  (AggregateEndpoints namespace serviceName clusters clusterInfos w).1
  = (omap (contribution namespace serviceName clusterInfos) clusters, None).
Proof.
  unfold AggregateEndpoints. rewrite run_bind. simpl.
  by rewrite AggregateEndpoints_foldM.
Qed.

Lemma contribution_Some namespace serviceName clusterInfos clusterName ce :
  contribution namespace serviceName clusterInfos clusterName = Some ce →
  ∃ info items,
    clusterInfos !! clusterName = Some info
    ∧ ClusterName ce = clusterlink.Name info
    ∧ EndpointSlices_List (clusterlink.Client_ info) namespace
        (service_selector serviceName) = Ok items
    ∧ Endpoints ce
      = filter isReady (flat_map es_Endpoints (filter (λ s, ¬ carries_marker s) items))
    ∧ Endpoints ce ≠ [].
Proof.
  unfold contribution. intros H.
  destruct (clusterInfos !! clusterName) as [info|]; [|done].
  destruct (EndpointSlices_List (clusterlink.Client_ info) namespace
              (service_selector serviceName)) as [items|e] eqn:Hlist.
  - destruct (getEndpointsFromCluster_ok _ _ _ _ Hlist) as [ports Hget].
    rewrite Hget in H.
    destruct (0 <? length _)%nat eqn:Hlen; [|done].
    injection H as <-. simpl. exists info, items. repeat split; try done.
    apply Nat.ltb_lt in Hlen. intros Hnil. rewrite Hnil in Hlen. simpl in Hlen. lia.
  - unfold getEndpointsFromCluster in H. fold (service_selector serviceName) in H.
    by rewrite Hlist in H.
Qed.

(** Whatever the reconciler writes carries the marker: the labels of a
    created slice and of an updated one are [stamp]ed. *)
Lemma managed_slices_carry_marker serviceName clusterName labels :
  is_Some (updater.stamp serviceName clusterName labels !! config.ClusterLabel).
Proof.
  unfold updater.stamp. rewrite lookup_insert_ne by done.
  rewrite lookup_insert_eq. by eexists.
Qed.

(** The managed-by value alone is not what the aggregator looks at. *)
Lemma managed_by_value_is_not_the_marker :
  ¬ carries_marker
      {| es_Name := "s"; es_Namespace := "default";
         es_Labels := {[ config.ManagedByLabel := config.ManagedByValue ]};
         es_OwnerReferences := []; es_AddressType := "IPv4";
         es_Endpoints := []; es_Ports := [] |}.
Proof.
  unfold carries_marker. simpl. rewrite lookup_singleton_ne by done.
  by intros [? ?].
Qed.


(** C7. Readiness filtering and absence. In the Aggregator's output every
    endpoint has its readiness flag set to true; a ready entry of an
    unmarked resource listed by a contributing cluster is in the output
    under that cluster's name; no output entry has an empty endpoint list;
    and a cluster whose ready set is empty leaves the result as it was. *)
Theorem readiness_filtering namespace serviceName clusters clusterInfos w :
  let results := (AggregateEndpoints namespace serviceName clusters clusterInfos w).1.1 in
  (∀ ce ep, ce ∈ results → ep ∈ Endpoints ce → Ready ep = Some true)
  ∧ (∀ clusterName info items slice ep,
       clusterName ∈ clusters →
       clusterInfos !! clusterName = Some info →
       EndpointSlices_List (clusterlink.Client_ info) namespace
         (service_selector serviceName) = Ok items →
       slice ∈ items → ¬ carries_marker slice →
       ep ∈ es_Endpoints slice → Ready ep = Some true →
       ∃ ce, ce ∈ results ∧ ClusterName ce = clusterlink.Name info ∧ ep ∈ Endpoints ce)
  ∧ (∀ ce, ce ∈ results → Endpoints ce ≠ [])
  ∧ (∀ clusterName info items acc w',
       clusterInfos !! clusterName = Some info →
       EndpointSlices_List (clusterlink.Client_ info) namespace
         (service_selector serviceName) = Ok items →
       filter isReady (flat_map es_Endpoints (filter (λ s, ¬ carries_marker s) items)) = [] →
       AggregateEndpoints_body namespace serviceName clusterInfos acc clusterName w'
       = (acc, w')).
Proof.
  intros results. subst results. rewrite AggregateEndpoints_results. simpl.
  split; [|split; [|split]].
  - intros ce ep (c & _ & Hc)%list_elem_of_omap Hep.
    destruct (contribution_Some _ _ _ _ _ Hc) as (info & items & _ & _ & _ & Heps & _).
    rewrite Heps in Hep. by apply list_elem_of_filter in Hep as [Hr _].
  - intros clusterName info items slice ep Hin Hinfo Hlist Hslice Hnative Hep Hready.
    assert (Hmem : ep ∈ filter isReady
              (flat_map es_Endpoints (filter (λ s, ¬ carries_marker s) items))).
    { apply list_elem_of_filter. split; [done|].
      apply list_elem_of_In, in_flat_map. exists slice. split.
      - apply list_elem_of_In, list_elem_of_filter. by split.
      - by apply list_elem_of_In. }
    destruct (getEndpointsFromCluster_ok _ _ _ _ Hlist) as [ports Hget].
    destruct (filter isReady _) as [|e0 rest] eqn:E in Hmem, Hget;
      [by apply elem_of_nil in Hmem|].
    exists {| ClusterName := clusterlink.Name info; Endpoints := e0 :: rest; Ports := ports |}.
    split; [|split; [reflexivity | exact Hmem]].
    apply list_elem_of_omap. exists clusterName. split; [done|].
    unfold contribution. by rewrite Hinfo, Hget.
  - intros ce (c & _ & Hc)%list_elem_of_omap.
    by destruct (contribution_Some _ _ _ _ _ Hc) as (? & ? & _ & _ & _ & _ & Hne).
  - intros clusterName info items acc w' Hinfo Hlist Hempty.
    destruct (getEndpointsFromCluster_ok _ _ _ _ Hlist) as [ports Hget].
    unfold AggregateEndpoints_body. rewrite Hinfo, Hget, Hempty. reflexivity.
Qed.


Lemma readiness_filtering_witness :
  ∃ ce,
    ce ∈ (AggregateEndpoints "default" "test-service" ["east"; "west"]
            examples.infos examples.world0).1.1
    ∧ ClusterName ce = "east"
    ∧ examples.ep "10.0.1.2" (Some true) ∈ Endpoints ce.
Proof.
  destruct (readiness_filtering "default" "test-service" ["east"; "west"]
              examples.infos examples.world0) as (_ & Hii & _ & _).
  apply (Hii "east" (examples.info "east" (examples.remote "test-service" [examples.nativeSlice;
                                                            examples.syncedSlice]))
           [examples.nativeSlice; examples.syncedSlice] examples.nativeSlice
           (examples.ep "10.0.1.2" (Some true))).
  - apply list_elem_of_here.
  - by_compute.
  - by_compute.
  - apply list_elem_of_here.
  - by_compute.
  - apply list_elem_of_further, list_elem_of_here.
  - reflexivity.
Defined.

(** The western cluster lists only entries that are not ready and a
    marked resource: it has no entry in the output. *)
Example west_is_absent :
  map ClusterName (AggregateEndpoints "default" "test-service" ["east"; "west"]
                     examples.infos examples.world0).1.1 = ["east"].
Proof. by_compute. Qed.

End Aggregator.

(** ** Strings *)

Lemma append_inj_r (p s1 s2 : string) : p +:+ s1 = p +:+ s2 → s1 = s2.
Proof. induction p as [|a p IH]; simpl; [done|]. intros [= H]. by apply IH. Qed.

Lemma sliceName_inj_cluster serviceName c1 c2 :
  updater.sliceName serviceName c1 = updater.sliceName serviceName c2 → c1 = c2.
Proof. unfold updater.sliceName. intros H. by do 2 apply append_inj_r in H. Qed.

(** ** The world *)

Lemma extend_extend w m1 c1 l1 m2 c2 l2 :
  extend (extend w m1 c1 l1) m2 c2 l2 = extend w m2 (c1 ++ c2) (l1 ++ l2).
Proof. unfold extend. simpl. by rewrite !app_assoc. Qed.

Lemma extend_id w : extend w (w_slices w) [] [] = w.
Proof. unfold extend. rewrite !app_nil_r. by destruct w. Qed.

Lemma calls_since_extend w m calls lines :
  calls_since w (extend w m calls lines) = calls.
Proof. unfold calls_since, extend. simpl. by rewrite drop_app_length. Qed.

(** ** The local client when no call fails *)

Lemma reliable_extend w m calls lines : reliable w → reliable (extend w m calls lines).
Proof. intros H c. apply H. Qed.

Lemma record_call_extend c w : record_call c w = extend w (w_slices w) [c] [].
Proof. unfold record_call, extend. by rewrite app_nil_r. Qed.

Lemma api_ok {A} c (body : M (result A)) w :
  reliable w → api c body w = body (extend w (w_slices w) [c] []).
Proof. intros H. unfold api. by rewrite H, record_call_extend. Qed.

Lemma Get_Service_ok ns name w :
  reliable w →
  kubeClient.Get_Service ns name w
  = (match w_services w !! (ns, name) with
     | Some s => Ok (service_at (ns, name) s)
     | None => Err (not_found ("services " +:+ name))
     end, extend w (w_slices w) [GetService ns name] []).
Proof.
  intros H. unfold kubeClient.Get_Service. rewrite api_ok by done. simpl.
  by destruct (w_services w !! (ns, name)).
Qed.

Lemma Get_EndpointSlice_ok ns name w :
  reliable w →
  kubeClient.Get_EndpointSlice ns name w
  = (match w_slices w !! (ns, name) with
     | Some s => Ok (slice_at (ns, name) s)
     | None => Err (not_found ("endpointslices " +:+ name))
     end, extend w (w_slices w) [GetSlice ns name] []).
Proof.
  intros H. unfold kubeClient.Get_EndpointSlice. rewrite api_ok by done. simpl.
  by destruct (w_slices w !! (ns, name)).
Qed.

Lemma set_slices_extend f w m calls lines :
  set_slices f (extend w m calls lines) = extend w (f m) calls lines.
Proof. reflexivity. Qed.

Lemma Create_EndpointSlice_ok s w :
  reliable w → w_slices w !! slice_key s = None →
  kubeClient.Create_EndpointSlice s w
  = (Ok tt, extend w (<[slice_key s := s]> (w_slices w))
              [CreateSlice (es_Namespace s) (es_Name s)] []).
Proof.
  intros H Hk. unfold kubeClient.Create_EndpointSlice. rewrite api_ok by done. simpl.
  by rewrite Hk, set_slices_extend.
Qed.

Lemma Update_EndpointSlice_ok s w :
  reliable w → is_Some (w_slices w !! slice_key s) →
  kubeClient.Update_EndpointSlice s w
  = (Ok tt, extend w (<[slice_key s := s]> (w_slices w))
              [UpdateSlice (es_Namespace s) (es_Name s)] []).
Proof.
  intros H [old Hk]. unfold kubeClient.Update_EndpointSlice. rewrite api_ok by done. simpl.
  by rewrite Hk, set_slices_extend.
Qed.

(** A delete leaves the store without the key, whether it was there
    (success) or not (not-found). *)
Lemma Delete_EndpointSlice_ok s w :
  reliable w →
  ∃ r, kubeClient.Delete_EndpointSlice s w
       = (r, extend w (delete (slice_key s) (w_slices w))
               [DeleteSlice (es_Namespace s) (es_Name s)] [])
       ∧ match r with Ok _ => True | Err e => err_not_found e = true end.
Proof.
  intros H. unfold kubeClient.Delete_EndpointSlice. rewrite api_ok by done. simpl.
  destruct (w_slices w !! slice_key s) eqn:Hk.
  - exists (Ok tt). split; [|exact I]. by rewrite set_slices_extend.
  - exists (Err (not_found ("endpointslices " +:+ es_Name s))).
    split; [|reflexivity]. by rewrite delete_id.
Qed.

Lemma List_EndpointSlices_ok ns sel w :
  reliable w →
  kubeClient.List_EndpointSlices ns sel w
  = (Ok (omap (fun '(k, s) =>
           if bool_decide (k.1 = ns) && selector_matches sel (es_Labels s)
           then Some (slice_at k s) else None)
         (map_to_list (w_slices w))),
     extend w (w_slices w) [ListSlices ns] []).
Proof.
  intros H. unfold kubeClient.List_EndpointSlices. by rewrite api_ok by done.
Qed.

(** ** Reconciler: what the calls do when none of them fails *)

Section Reconciler.

Import aggregator updater.

Lemma updateSliceForCluster_ok namespace serviceName ce w service :
  reliable w →
  w_services w !! (namespace, serviceName) = Some service →
  updateSliceForCluster namespace serviceName ce w
  = (None,
     extend w
       (upsert namespace serviceName (service_at (namespace, serviceName) service)
          (w_slices w) ce)
       (upsert_calls namespace serviceName (w_slices w) ce) []).
Proof.
  intros Hnf Hsvc. unfold updateSliceForCluster.
  rewrite run_bind, Get_Service_ok by done. simpl. rewrite Hsvc.
  rewrite run_bind, Get_EndpointSlice_ok by by apply reliable_extend. simpl.
  unfold upsert, upsert_calls, target.
  destruct (w_slices w !! (namespace, sliceName serviceName (ClusterName ce)))
    as [existing|] eqn:Hex; simpl.
  - rewrite extend_extend, run_bind.
    rewrite Update_EndpointSlice_ok; [| by apply reliable_extend | by simpl; eexists].
    simpl. by rewrite extend_extend.
  - rewrite extend_extend, run_bind.
    rewrite Create_EndpointSlice_ok; [| by apply reliable_extend | done].
    simpl. by rewrite extend_extend.
Qed.

Lemma updateSliceForCluster_no_service namespace serviceName ce w :
  reliable w →
  w_services w !! (namespace, serviceName) = None →
  updateSliceForCluster namespace serviceName ce w
  = (Some (wrap ("failed to get service " +:+ namespace +:+ "/" +:+ serviceName)
             (not_found ("services " +:+ serviceName))),
     extend w (w_slices w) [GetService namespace serviceName] []).
Proof.
  intros Hnf Hsvc. unfold updateSliceForCluster.
  rewrite run_bind, Get_Service_ok by done. simpl. by rewrite Hsvc.
Qed.

Lemma UpdateEndpointSlices_body_ok namespace serviceName ce w service :
  reliable w →
  w_services w !! (namespace, serviceName) = Some service →
  UpdateEndpointSlices_body namespace serviceName tt ce w
  = (tt,
     extend w
       (upsert namespace serviceName (service_at (namespace, serviceName) service)
          (w_slices w) ce)
       (upsert_calls namespace serviceName (w_slices w) ce) []).
Proof.
  intros Hnf Hsvc. unfold UpdateEndpointSlices_body.
  rewrite run_bind. by rewrite (updateSliceForCluster_ok _ _ _ _ service).
Qed.

Lemma UpdateEndpointSlices_body_no_service namespace serviceName ce w :
  reliable w →
  w_services w !! (namespace, serviceName) = None →
  UpdateEndpointSlices_body namespace serviceName tt ce w
  = (tt,
     extend w (w_slices w) [GetService namespace serviceName]
       [update_failure_line namespace serviceName ce
          (wrap ("failed to get service " +:+ namespace +:+ "/" +:+ serviceName)
             (not_found ("services " +:+ serviceName)))]).
Proof.
  intros Hnf Hsvc. unfold UpdateEndpointSlices_body.
  rewrite run_bind. rewrite updateSliceForCluster_no_service by done.
  cbn [fst snd when_err]. unfold klog_Errorf, klog, extend. cbn.
  by rewrite app_nil_r.
Qed.

Lemma update_loop_ok_gen namespace serviceName service w ces :
  reliable w →
  w_services w !! (namespace, serviceName) = Some service →
  ∀ m calls lines,
    foldM (UpdateEndpointSlices_body namespace serviceName) tt ces (extend w m calls lines)
    = (tt,
       extend w
         (foldl (upsert namespace serviceName (service_at (namespace, serviceName) service))
            m ces)
         (calls ++ reconcile_calls namespace serviceName
                     (service_at (namespace, serviceName) service) m ces)
         lines).
Proof.
  intros Hnf Hsvc.
  induction ces as [|ce ces IH]; intros m calls lines.
  - simpl. unfold ret. by rewrite app_nil_r.
  - rewrite foldM_cons.
    rewrite (UpdateEndpointSlices_body_ok _ _ _ _ service); [| by apply reliable_extend | done].
    cbn [fst snd]. rewrite extend_extend. cbn [w_slices extend].
    rewrite IH. cbn [reconcile_calls]. by rewrite app_nil_r, app_assoc.
Qed.

Lemma update_loop_ok namespace serviceName ces w service :
  reliable w →
  w_services w !! (namespace, serviceName) = Some service →
  foldM (UpdateEndpointSlices_body namespace serviceName) tt ces w
  = (tt,
     extend w
       (foldl (upsert namespace serviceName (service_at (namespace, serviceName) service))
          (w_slices w) ces)
       (reconcile_calls namespace serviceName
          (service_at (namespace, serviceName) service) (w_slices w) ces) []).
Proof.
  intros Hnf Hsvc. rewrite <- (extend_id w) at 1.
  by rewrite (update_loop_ok_gen _ _ service).
Qed.

Lemma update_loop_no_service_gen namespace serviceName w ces :
  reliable w →
  w_services w !! (namespace, serviceName) = None →
  ∀ calls lines,
    foldM (UpdateEndpointSlices_body namespace serviceName) tt ces
      (extend w (w_slices w) calls lines)
    = (tt,
       extend w (w_slices w)
         (calls ++ map (λ _, GetService namespace serviceName) ces)
         (lines ++ map (λ ce, update_failure_line namespace serviceName ce
                                (no_service_error namespace serviceName)) ces)).
Proof.
  intros Hnf Hsvc.
  induction ces as [|ce ces IH]; intros calls lines.
  - simpl. unfold ret. by rewrite !app_nil_r.
  - rewrite foldM_cons.
    rewrite UpdateEndpointSlices_body_no_service; [| by apply reliable_extend | done].
    cbn [fst snd]. rewrite extend_extend. cbn [w_slices extend].
    fold (no_service_error namespace serviceName).
    rewrite IH. cbn [map]. by rewrite <- !app_assoc.
Qed.

Lemma update_loop_no_service namespace serviceName ces w :
  reliable w →
  w_services w !! (namespace, serviceName) = None →
  foldM (UpdateEndpointSlices_body namespace serviceName) tt ces w
  = (tt,
     extend w (w_slices w)
       (map (λ _, GetService namespace serviceName) ces)
       (map (λ ce, update_failure_line namespace serviceName ce
                     (no_service_error namespace serviceName)) ces)).
Proof.
  intros Hnf Hsvc. rewrite <- (extend_id w) at 1.
  by rewrite update_loop_no_service_gen.
Qed.

(** *** Orphan cleanup *)

Lemma cleanup_loop_ok namespace active w items :
  reliable w →
  ∀ m calls lines,
    cleanupOrphanedSlices_loop namespace active items (extend w m calls lines)
    = (None,
       extend w (foldl delete_slice m (filter (doomed active) items))
         (calls ++ map delete_call (filter (doomed active) items)) lines).
Proof.
  intros Hnf. induction items as [|s items IH]; intros m calls lines.
  - cbn. unfold ret. by rewrite app_nil_r.
  - cbn [cleanupOrphanedSlices_loop]. rewrite filter_cons.
    case_bool_decide as Hl.
    { rewrite decide_False; [apply IH|]. intros [Hne _]. by apply Hne. }
    case_bool_decide as Ha.
    { rewrite decide_False; [apply IH|]. intros [_ Hna]. by apply Hna. }
    rewrite decide_True by done.
    rewrite run_bind.
    destruct (Delete_EndpointSlice_ok s (extend w m calls lines)) as (r & Heq & Hr);
      [by apply reliable_extend|].
    rewrite Heq. cbn [fst snd]. rewrite extend_extend. cbn [w_slices extend].
    rewrite app_nil_r.
    assert (Hgoal : cleanupOrphanedSlices_loop namespace active items
                      (extend w (delete (slice_key s) m) (calls ++ [delete_call s]) lines)
                    = (None,
                       extend w (foldl delete_slice m (s :: filter (doomed active) items))
                         (calls ++ map delete_call (s :: filter (doomed active) items))
                         lines)).
    { rewrite IH. cbn [foldl map]. by rewrite <- app_assoc. }
    destruct r as [[]|e]; [exact Hgoal|]. rewrite Hr. exact Hgoal.
Qed.

Lemma cleanupOrphanedSlices_ok namespace serviceName ces w :
  reliable w →
  let doomed_items :=
    filter (doomed (active_clusters ces))
      (listed namespace (cleanup_selector serviceName) (w_slices w)) in
  cleanupOrphanedSlices namespace serviceName ces w
  = (None,
     extend w (foldl delete_slice (w_slices w) doomed_items)
       (ListSlices namespace :: map delete_call doomed_items) []).
Proof.
  intros Hnf doomed_items. unfold cleanupOrphanedSlices.
  rewrite run_bind, List_EndpointSlices_ok by done. cbn [fst snd].
  fold (cleanup_selector serviceName).
  fold (listed namespace (cleanup_selector serviceName) (w_slices w)).
  fold (active_clusters ces).
  by rewrite cleanup_loop_ok.
Qed.

Lemma selector_matches_cleanup serviceName labels :
  selector_matches (cleanup_selector serviceName) labels = true
  ↔ labels !! config.ServiceNameLabel = Some serviceName
    ∧ is_Some (labels !! config.ClusterLabel).
Proof.
  unfold selector_matches, cleanup_selector. cbn [forallb req_matches].
  rewrite andb_true_r, andb_true_iff, !bool_decide_eq_true. reflexivity.
Qed.

Lemma elem_of_listed namespace sel m s :
  s ∈ listed namespace sel m
  ↔ ∃ k s0, m !! k = Some s0 ∧ s = slice_at k s0
            ∧ k.1 = namespace ∧ selector_matches sel (es_Labels s0) = true.
Proof.
  unfold listed. rewrite list_elem_of_omap. split.
  - intros ([k s0] & Hin & Hf). apply elem_of_map_to_list in Hin.
    destruct (bool_decide (k.1 = namespace) && selector_matches sel (es_Labels s0)) eqn:E;
      [|done].
    injection Hf as <-. apply andb_true_iff in E as [E1 E2].
    apply bool_decide_eq_true in E1. by exists k, s0.
  - intros (k & s0 & Hk & -> & Hns & Hsel). exists (k, s0). split.
    + by apply elem_of_map_to_list.
    + by rewrite bool_decide_eq_true_2, Hsel.
Qed.

(** The slices the loop deletes are the orphans of the store. *)
Lemma doomed_listed_orphan namespace serviceName active m s :
  s ∈ filter (doomed active) (listed namespace (cleanup_selector serviceName) m)
  ↔ ∃ k s0, m !! k = Some s0 ∧ s = slice_at k s0
            ∧ is_orphan namespace serviceName active k s0.
Proof.
  rewrite list_elem_of_filter, elem_of_listed. split.
  - intros ([Hne Hna] & k & s0 & Hk & -> & Hns & Hsel).
    exists k, s0. repeat split; try done.
    + by apply selector_matches_cleanup in Hsel as [? _].
    + apply selector_matches_cleanup in Hsel as [_ [c Hc]].
      exists c. split; [done|]. cbn in Hna. by rewrite Hc in Hna.
  - intros (k & s0 & Hk & -> & Hns & Hsvc & c & Hc & Hna). split.
    + split; cbn.
      * intros He. by rewrite He, lookup_empty in Hc.
      * by rewrite Hc.
    + exists k, s0. repeat split; try done.
      apply selector_matches_cleanup. split; [done|by eexists].
Qed.

Lemma lookup_foldl_delete_slice m (l : list EndpointSlice) k :
  foldl delete_slice m l !! k
  = if decide (k ∈ map slice_key l) then None else m !! k.
Proof.
  revert m. induction l as [|s l IH]; intros m; cbn [foldl map].
  - rewrite decide_False; [done|]. apply not_elem_of_nil.
  - rewrite IH. unfold delete_slice.
    destruct (decide (k ∈ map slice_key l)) as [Hin|Hnin].
    + rewrite decide_True; [done|]. by apply list_elem_of_further.
    + destruct (decide (k = slice_key s)) as [->|Hne].
      * rewrite decide_True by apply list_elem_of_here. apply lookup_delete_eq.
      * rewrite decide_False.
        -- by apply lookup_delete_ne.
        -- intros [?|?]%elem_of_cons; done.
Qed.

Lemma slice_key_slice_at k s : slice_key (slice_at k s) = k.
Proof. by destruct k. Qed.

Lemma cleanup_store namespace serviceName active m :
  foldl delete_slice m
    (filter (doomed active) (listed namespace (cleanup_selector serviceName) m))
  = filter (λ ks, ¬ is_orphan namespace serviceName active ks.1 ks.2) m.
Proof.
  apply map_eq. intros k. rewrite lookup_foldl_delete_slice, map_lookup_filter.
  destruct (decide (k ∈ _)) as [Hin|Hnin].
  - apply list_elem_of_fmap in Hin as (s & -> & Hs).
    apply doomed_listed_orphan in Hs as (k & s0 & Hk & -> & Ho).
    rewrite slice_key_slice_at, Hk. cbn. by rewrite option_guard_False by tauto.
  - destruct (m !! k) as [s0|] eqn:Hk; [|done]. cbn.
    rewrite option_guard_True; [done|]. cbn. intros Ho. apply Hnin.
    apply list_elem_of_fmap. exists (slice_at k s0). split.
    + by rewrite slice_key_slice_at.
    + apply doomed_listed_orphan. by exists k, s0.
Qed.





(** *** The update loop on the store *)

Section Upsert.

Variables (namespace serviceName : string) (service : Service).

Abbreviation U := (upsert namespace serviceName service).
Abbreviation tgt := (target namespace serviceName).

Lemma lookup_upsert m ce k :
  U m ce !! k
  = if decide (k = tgt ce)
    then Some (written namespace serviceName service ce (m !! k))
    else m !! k.
Proof.
  unfold upsert. destruct (decide (k = tgt ce)) as [->|Hne].
  - by rewrite lookup_insert_eq.
  - by rewrite lookup_insert_ne.
Qed.

Lemma target_inj ce1 ce2 : tgt ce1 = tgt ce2 → ClusterName ce1 = ClusterName ce2.
Proof. unfold target. intros [= H]. by apply sliceName_inj_cluster in H. Qed.

Lemma stamp_stamp c (labels : gmap string string) :
  stamp serviceName c (stamp serviceName c labels) = stamp serviceName c labels.
Proof.
  apply map_eq. intros k. unfold stamp.
  destruct (decide (k = config.ManagedByLabel)) as [->|H1];
    [by rewrite !lookup_insert_eq|].
  rewrite !(lookup_insert_ne _ config.ManagedByLabel) by done.
  destruct (decide (k = config.ClusterLabel)) as [->|H2];
    [by rewrite !lookup_insert_eq|].
  rewrite !(lookup_insert_ne _ config.ClusterLabel) by done.
  destruct (decide (k = config.ServiceNameLabel)) as [->|H3];
    [by rewrite !lookup_insert_eq|].
  rewrite !(lookup_insert_ne _ config.ServiceNameLabel) by done.
  rewrite (lookup_insert_ne _ config.ManagedByLabel) by done.
  rewrite (lookup_insert_ne _ config.ClusterLabel) by done.
  by rewrite (lookup_insert_ne _ config.ServiceNameLabel) by done.
Qed.

Lemma written_absorb ce1 ce2 old :
  ClusterName ce1 = ClusterName ce2 →
  written namespace serviceName service ce2
    (Some (written namespace serviceName service ce1 old))
  = written namespace serviceName service ce2 old.
Proof.
  intros Hc. destruct old as [o|]; unfold written;
    cbn [es_Labels es_OwnerReferences es_AddressType];
    rewrite Hc, stamp_stamp; reflexivity.
Qed.

Lemma upsert_absorb m ce1 ce2 :
  tgt ce1 = tgt ce2 → U (U m ce1) ce2 = U m ce2.
Proof.
  intros Ht. apply map_eq. intros k. rewrite !lookup_upsert.
  destruct (decide (k = tgt ce2)) as [->|Hne]; [|by rewrite decide_False by congruence].
  rewrite decide_True by done. f_equal. rewrite <- Ht at 1.
  rewrite written_absorb; [by rewrite Ht | by apply target_inj].
Qed.

Lemma upsert_comm m ce1 ce2 :
  tgt ce1 ≠ tgt ce2 → U (U m ce1) ce2 = U (U m ce2) ce1.
Proof.
  intros Ht. apply map_eq. intros k. rewrite !lookup_upsert.
  destruct (decide (k = tgt ce2)) as [H2|H2], (decide (k = tgt ce1)) as [H1|H1];
    try done.
  congruence.
Qed.

Lemma fold_upsert_absorb ces m x :
  U (foldl U (U m x) ces) x = U (foldl U m ces) x.
Proof.
  revert m. induction ces as [|y ces IH]; intros m; cbn [foldl].
  - by apply upsert_absorb.
  - destruct (decide (tgt x = tgt y)) as [Heq|Hne].
    + by rewrite upsert_absorb.
    + rewrite upsert_comm by done. apply IH.
Qed.

Lemma fold_upsert_idemp ces m : foldl U (foldl U m ces) ces = foldl U m ces.
Proof.
  induction ces as [|x ces IH] using rev_ind; [done|].
  rewrite !foldl_app. cbn [foldl].
  rewrite fold_upsert_absorb. by rewrite IH.
Qed.

Lemma upsert_delete m ce k :
  k ≠ tgt ce → U (delete k m) ce = delete k (U m ce).
Proof.
  intros Hne. apply map_eq. intros j. rewrite lookup_upsert.
  destruct (decide (j = k)) as [->|Hjk].
  - rewrite decide_False by done. by rewrite !lookup_delete_eq.
  - rewrite !lookup_delete_ne by done. by rewrite lookup_upsert.
Qed.

Lemma fold_upsert_delete ces m k :
  (∀ ce, ce ∈ ces → k ≠ tgt ce) →
  foldl U (delete k m) ces = delete k (foldl U m ces).
Proof.
  revert m. induction ces as [|x ces IH]; intros m Hk; cbn [foldl]; [done|].
  rewrite upsert_delete by (apply Hk, list_elem_of_here).
  apply IH. intros ce Hce. by apply Hk, list_elem_of_further.
Qed.

Lemma fold_upsert_delete_slices ces m (l : list EndpointSlice) :
  (∀ s ce, s ∈ l → ce ∈ ces → slice_key s ≠ tgt ce) →
  foldl U (foldl delete_slice m l) ces = foldl delete_slice (foldl U m ces) l.
Proof.
  revert m. induction l as [|s l IH]; intros m Hk; cbn [foldl]; [done|].
  rewrite IH by (intros s' ce Hs' Hce; by apply Hk; [apply list_elem_of_further|]).
  unfold delete_slice at 2 4. rewrite fold_upsert_delete; [done|].
  intros ce Hce. by apply Hk; [apply list_elem_of_here|].
Qed.

(** After the loop every target holds a slice labelled with its
    cluster. *)
Lemma fold_upsert_stamped ces m ce :
  ce ∈ ces →
  ∃ o, foldl U m ces !! tgt ce = Some o
       ∧ es_Labels o !! config.ClusterLabel = Some (ClusterName ce).
Proof.
  induction ces as [|x ces IH] using rev_ind; [by intros ?%elem_of_nil|].
  intros Hin. rewrite foldl_app. cbn [foldl]. rewrite lookup_upsert.
  destruct (decide (tgt ce = tgt x)) as [Heq|Hne].
  - eexists. split; [done|]. apply target_inj in Heq. rewrite Heq.
    destruct (foldl U m ces !! tgt ce); cbn; unfold stamp;
      by rewrite lookup_insert_ne, lookup_insert_eq.
  - apply elem_of_app in Hin as [Hin|Hin%list_elem_of_singleton]; [by apply IH|].
    by subst.
Qed.

Lemma upsert_preserves_is_Some m ce k : is_Some (m !! k) → is_Some (U m ce !! k).
Proof. intros H. rewrite lookup_upsert. by case_decide. Qed.

Lemma reconcile_calls_present ces m :
  (∀ ce, ce ∈ ces → is_Some (m !! tgt ce)) →
  reconcile_calls namespace serviceName service m ces
  = flat_map (λ ce, [ GetService namespace serviceName;
                      GetSlice namespace (sliceName serviceName (ClusterName ce));
                      UpdateSlice namespace (sliceName serviceName (ClusterName ce)) ])
      ces.
Proof.
  revert m. induction ces as [|x ces IH]; intros m Hp; [done|].
  cbn [reconcile_calls flat_map]. f_equal.
  - unfold upsert_calls. by destruct (Hp x (list_elem_of_here _ _)) as [o ->].
  - apply IH. intros ce Hce. by apply upsert_preserves_is_Some, Hp, list_elem_of_further.
Qed.

End Upsert.

(** *** One reconcile, and a second one *)

Lemma UpdateEndpointSlices_ok namespace serviceName ces w service :
  reliable w →
  w_services w !! (namespace, serviceName) = Some service →
  let served := service_at (namespace, serviceName) service in
  let m1 := foldl (upsert namespace serviceName served) (w_slices w) ces in
  let doomed_items :=
    filter (doomed (active_clusters ces))
      (listed namespace (cleanup_selector serviceName) m1) in
  UpdateEndpointSlices namespace serviceName ces w
  = (None,
     extend w (foldl delete_slice m1 doomed_items)
       (reconcile_calls namespace serviceName served (w_slices w) ces
        ++ ListSlices namespace :: map delete_call doomed_items) []).
Proof.
  intros Hnf Hsvc served m1 doomed_items. unfold UpdateEndpointSlices.
  rewrite run_bind, (update_loop_ok _ _ _ _ service) by done. cbn [fst snd].
  rewrite run_bind, cleanupOrphanedSlices_ok by by apply reliable_extend.
  cbn [fst snd when_err]. rewrite run_bind. cbn [fst snd ret].
  by rewrite extend_extend.
Qed.

Lemma UpdateEndpointSlices_no_service namespace serviceName ces w :
  reliable w →
  w_services w !! (namespace, serviceName) = None →
  let doomed_items :=
    filter (doomed (active_clusters ces))
      (listed namespace (cleanup_selector serviceName) (w_slices w)) in
  UpdateEndpointSlices namespace serviceName ces w
  = (None,
     extend w (foldl delete_slice (w_slices w) doomed_items)
       (map (λ _, GetService namespace serviceName) ces
        ++ ListSlices namespace :: map delete_call doomed_items)
       (map (λ ce, update_failure_line namespace serviceName ce
                     (no_service_error namespace serviceName)) ces)).
Proof.
  intros Hnf Hsvc doomed_items. unfold UpdateEndpointSlices.
  rewrite run_bind, update_loop_no_service by done. cbn [fst snd].
  rewrite run_bind, cleanupOrphanedSlices_ok by by apply reliable_extend.
  cbn [fst snd when_err]. rewrite run_bind. cbn [fst snd ret].
  rewrite extend_extend. by rewrite app_nil_r.
Qed.

Lemma no_orphans_after_cleanup namespace serviceName active m :
  filter (doomed active)
    (listed namespace (cleanup_selector serviceName)
       (foldl delete_slice m
          (filter (doomed active) (listed namespace (cleanup_selector serviceName) m))))
  = [].
Proof.
  rewrite cleanup_store. apply elem_of_nil_inv. intros s Hs.
  apply doomed_listed_orphan in Hs as (k & s0 & Hk & _ & Ho).
  apply map_lookup_filter_Some in Hk as [_ Hno]. by apply Hno.
Qed.

Lemma elem_of_active_clusters ces ce : ce ∈ ces → ClusterName ce ∈ active_clusters ces.
Proof.
  intros H. unfold active_clusters. apply elem_of_list_to_set, list_elem_of_fmap. eauto.
Qed.

(** The orphans found after the update loop are never at a target. *)
Lemma doomed_not_target namespace serviceName service ces m s ce :
  s ∈ filter (doomed (active_clusters ces))
        (listed namespace (cleanup_selector serviceName)
           (foldl (upsert namespace serviceName service) m ces)) →
  ce ∈ ces →
  slice_key s ≠ target namespace serviceName ce.
Proof.
  intros Hs Hce Heq.
  apply doomed_listed_orphan in Hs as (k & s0 & Hk & -> & _ & _ & c & Hc & Hna).
  rewrite slice_key_slice_at in Heq. subst k.
  destruct (fold_upsert_stamped namespace serviceName service ces m ce Hce)
    as (o & Ho & Hlab).
  rewrite Hk in Ho. injection Ho as <-. rewrite Hc in Hlab. injection Hlab as ->.
  by apply Hna, elem_of_active_clusters.
Qed.

Lemma targets_survive_cleanup namespace serviceName service ces m ce :
  ce ∈ ces →
  let m1 := foldl (upsert namespace serviceName service) m ces in
  is_Some (foldl delete_slice m1
             (filter (doomed (active_clusters ces))
                (listed namespace (cleanup_selector serviceName) m1))
           !! target namespace serviceName ce).
Proof.
  intros Hce m1. rewrite cleanup_store.
  destruct (fold_upsert_stamped namespace serviceName service ces m ce Hce)
    as (o & Ho & Hlab).
  exists o. apply map_lookup_filter_Some. split; [done|].
  cbn. intros (_ & _ & c & Hc & Hna). rewrite Hc in Hlab. injection Hlab as ->.
  by apply Hna, elem_of_active_clusters.
Qed.

Lemma writes_of_updates namespace serviceName (ces : list ClusterEndpoints) :
  let calls :=
    flat_map (λ ce, [ GetService namespace serviceName;
                      GetSlice namespace (sliceName serviceName (ClusterName ce));
                      UpdateSlice namespace (sliceName serviceName (ClusterName ce)) ])
      ces ++ [ListSlices namespace] in
  List.filter is_create calls = []
  ∧ List.filter is_delete calls = []
  ∧ List.filter is_update calls
    = map (λ ce, UpdateSlice namespace (sliceName serviceName (ClusterName ce))) ces.
Proof.
  induction ces as [|ce ces (IH1 & IH2 & IH3)]; cbn; [done|].
  cbn in IH1, IH2, IH3. by rewrite IH1, IH2, IH3.
Qed.

Lemma writes_of_reads namespace serviceName (ces : list ClusterEndpoints) :
  let calls := map (λ _ : ClusterEndpoints, GetService namespace serviceName) ces
               ++ [ListSlices namespace] in
  List.filter is_create calls = []
  ∧ List.filter is_delete calls = []
  ∧ List.filter is_update calls = [].
Proof.
  induction ces as [|ce ces (IH1 & IH2 & IH3)]; cbn; [done|].
  cbn in IH1, IH2, IH3. by rewrite IH1, IH2, IH3.
Qed.

(** C2, as the code has it. When no call fails, a second reconcile with
    the same endpoint groups leaves the stored slices as the first one
    left them and issues no create and no delete call; it does issue
    update calls: one per input group when the parent service exists
    (each overwrites the slice with what it already holds), none when it
    does not. *)
Theorem reconcile_twice namespace serviceName ces w :
  reliable w →
  let w1 := (UpdateEndpointSlices namespace serviceName ces w).2 in
  let w2 := (UpdateEndpointSlices namespace serviceName ces w1).2 in
  w_slices w2 = w_slices w1
  ∧ List.filter is_create (calls_since w1 w2) = []
  ∧ List.filter is_delete (calls_since w1 w2) = []
  ∧ List.filter is_update (calls_since w1 w2)
    = if decide (is_Some (w_services w !! (namespace, serviceName)))
      then map (λ ce, UpdateSlice namespace (sliceName serviceName (ClusterName ce))) ces
      else [].
Proof.
  intros Hnf w1 w2. subst w2 w1.
  destruct (w_services w !! (namespace, serviceName)) as [service|] eqn:Hsvc.
  - rewrite decide_True by by eexists.
    rewrite (UpdateEndpointSlices_ok _ _ _ w service) by done. cbn [snd].
    set (served := service_at (namespace, serviceName) service).
    set (m1 := foldl (upsert namespace serviceName served) (w_slices w) ces).
    set (D1 := filter (doomed (active_clusters ces))
                 (listed namespace (cleanup_selector serviceName) m1)).
    rewrite (UpdateEndpointSlices_ok _ _ _ _ service); [| by apply reliable_extend | done].
    cbn [snd w_slices extend]. fold served.
    assert (Hm2 : foldl (upsert namespace serviceName served) (foldl delete_slice m1 D1) ces
                  = foldl delete_slice m1 D1).
    { rewrite fold_upsert_delete_slices.
      - unfold m1. by rewrite fold_upsert_idemp.
      - intros s ce Hs Hce. by eapply doomed_not_target. }
    rewrite Hm2. unfold D1 at 1 3. rewrite no_orphans_after_cleanup. cbn [foldl map].
    rewrite calls_since_extend.
    rewrite reconcile_calls_present
      by (intros ce Hce; by apply targets_survive_cleanup).
    split; [done|]. apply writes_of_updates.
  - rewrite decide_False by by intros [? ?].
    rewrite (UpdateEndpointSlices_no_service _ _ _ w) by done. cbn [snd].
    rewrite UpdateEndpointSlices_no_service; [| by apply reliable_extend | done].
    cbn [snd w_slices extend]. rewrite no_orphans_after_cleanup. cbn [foldl map].
    rewrite calls_since_extend.
    split; [done|]. apply writes_of_reads.
Qed.

(** Through the whole reconcile, a stored slice that is not at the
    target name of an input group is deleted when it is an orphan and is
    left as it was otherwise. *)
Lemma reconcile_leaves_others namespace serviceName ces w k :
  reliable w →
  (∀ ce, ce ∈ ces → k ≠ target namespace serviceName ce) →
  w_slices (UpdateEndpointSlices namespace serviceName ces w).2 !! k
  = s ← w_slices w !! k;
    if decide (is_orphan namespace serviceName (active_clusters ces) k s)
    then None else Some s.
Proof.
  intros Hnf Hk.
  assert (Hfilter : ∀ m : gmap (string * string) EndpointSlice,
            filter (λ ks, ¬ is_orphan namespace serviceName (active_clusters ces) ks.1 ks.2)
              m !! k
            = s ← m !! k;
              if decide (is_orphan namespace serviceName (active_clusters ces) k s)
              then None else Some s).
  { intros m. rewrite map_lookup_filter. destruct (m !! k) as [s|]; [|done]. cbn.
    destruct (decide (is_orphan _ _ _ k s)).
    - by rewrite option_guard_False by tauto.
    - by rewrite option_guard_True. }
  destruct (w_services w !! (namespace, serviceName)) as [service|] eqn:Hsvc.
  - rewrite (UpdateEndpointSlices_ok _ _ _ w service) by done.
    cbn [snd w_slices extend]. rewrite cleanup_store, Hfilter. f_equal.
    clear Hfilter. generalize (w_slices w) as m.
    induction ces as [|x ces IH]; intros m; cbn [foldl]; [done|].
    rewrite IH by (intros ce Hce; by apply Hk, list_elem_of_further).
    rewrite lookup_upsert. rewrite decide_False; [done|].
    apply Hk, list_elem_of_here.
  - rewrite (UpdateEndpointSlices_no_service _ _ _ w) by done.
    cbn [snd w_slices extend]. by rewrite cleanup_store, Hfilter.
Qed.

Lemma reconcile_twice_witness :
  reliable examples.world_web
  ∧ let w1 := (UpdateEndpointSlices "default" "web" [examples.ceE] examples.world_web).2 in
    let w2 := (UpdateEndpointSlices "default" "web" [examples.ceE] w1).2 in
    w_slices w2 = w_slices w1
    ∧ List.filter is_create (calls_since w1 w2) = []
    ∧ List.filter is_delete (calls_since w1 w2) = []
    ∧ List.filter is_update (calls_since w1 w2)
      = if decide (is_Some (w_services examples.world_web !! ("default", "web")))
        then map (λ ce, UpdateSlice "default" (sliceName "web" (ClusterName ce)))
               [examples.ceE]
        else [].
Proof.
  assert (H : reliable examples.world_web) by (intros c; reflexivity).
  split; [exact H|].
  exact (reconcile_twice "default" "web" [examples.ceE] examples.world_web H).
Defined.

(** C2 as specified fails: in the end-to-end scenario the second
    reconcile with the same endpoint group issues an update call. *)
Lemma reconcile_twice_not_silent :
  let w1 := (UpdateEndpointSlices "default" "web" [examples.ceE] examples.world_web).2 in
  let w2 := (UpdateEndpointSlices "default" "web" [examples.ceE] w1).2 in
  reliable examples.world_web
  ∧ List.filter is_write (calls_since w1 w2) = [UpdateSlice "default" "web-svclink-east"]
  ∧ List.filter is_write (calls_since w1 w2) ≠ [].
Proof.
  intros w1 w2.
  assert (Hc : List.filter is_write (calls_since w1 w2)
               = [UpdateSlice "default" "web-svclink-east"]) by by_compute.
  split; [intros c; reflexivity|]. split; [exact Hc|]. by rewrite Hc.
Qed.


(** The scenario of C3 through the whole reconcile: after a cycle
    with the clusters east and west, a cycle with east alone deletes the
    slice of west, and only that one, and keeps the slice of east. *)
Example orphan_convergence_scenario :
  let w2 := (UpdateEndpointSlices "default" "web" [examples.ceE] examples.world_xy).2 in
  map fst (map_to_list (w_slices examples.world_xy))
    ≡ₚ [("default", "web-svclink-east"); ("default", "web-svclink-west")]
  ∧ map fst (map_to_list (w_slices w2)) = [("default", "web-svclink-east")]
  ∧ List.filter is_delete (calls_since examples.world_xy w2)
    = [DeleteSlice "default" "web-svclink-west"]
  ∧ w_slices w2 !! ("default", "web-svclink-east")
    = w_slices examples.world_xy !! ("default", "web-svclink-east").
Proof.
  intros w2. split; [|split; [|split]]; by_compute.
Qed.

End Reconciler.

(** ** Naming of the managed slices *)

(** C10. The name of a managed slice does not determine the (service,
    cluster) pair: service a-svclink-b with cluster c and service a with
    cluster b-svclink-c are different pairs with the same slice name, so
    in one namespace both address the same stored slice. *)
Theorem sliceName_not_injective :
  ("a-svclink-b", "c") ≠ ("a", "b-svclink-c")
  ∧ updater.sliceName "a-svclink-b" "c" = updater.sliceName "a" "b-svclink-c"
  ∧ ∃ s1 c1 s2 c2 : string,
      (s1, c1) ≠ (s2, c2) ∧ updater.sliceName s1 c1 = updater.sliceName s2 c2.
Proof.
  split; [done|]. split; [reflexivity|].
  by exists "a-svclink-b", "c", "a", "b-svclink-c".
Qed.

(** Reconciling the two pairs one after the other: the second one finds
    the slice of the first, updates it, and relabels it as its own. *)
Example sliceName_collision_overwrites :
  let ce1 := {| aggregator.ClusterName := "c";
                aggregator.Endpoints := [examples.ep "10.0.1.1" (Some true)];
                aggregator.Ports := [] |} in
  let ce2 := {| aggregator.ClusterName := "b-svclink-c";
                aggregator.Endpoints := [examples.ep "10.0.9.9" (Some true)];
                aggregator.Ports := [] |} in
  let w1 := (updater.updateSliceForCluster "default" "a-svclink-b" ce1
               examples.world_collide).2 in
  let w2 := (updater.updateSliceForCluster "default" "a" ce2 w1).2 in
  List.filter is_write (w_calls w2)
  = [ CreateSlice "default" "a-svclink-b-svclink-c";
      UpdateSlice "default" "a-svclink-b-svclink-c" ]
  ∧ (es_Endpoints <$> w_slices w2 !! ("default", "a-svclink-b-svclink-c"))
    = Some [examples.ep "10.0.9.9" (Some true)]
  ∧ (s ← w_slices w2 !! ("default", "a-svclink-b-svclink-c");
     es_Labels s !! config.ServiceNameLabel) = Some "a".
Proof. repeat split; by_compute. Qed.

(** ** Reconciler: failures *)

Section Failures.

Import aggregator updater.

Lemma log_grows_ret {A} (a : A) : log_grows (ret a).
Proof. intros w. reflexivity. Qed.

Lemma log_grows_bind {A B} (m : M A) (k : A → M B) :
  log_grows m → (∀ a, log_grows (k a)) → log_grows (bind m k).
Proof.
  intros Hm Hk w. rewrite run_bind.
  etrans; [apply Hm | apply Hk].
Qed.

Lemma log_grows_klog lvl line : log_grows (klog lvl line).
Proof. intros w. cbn. by apply prefix_app_r. Qed.

Lemma log_grows_api {A} c (body : M (result A)) : log_grows body → log_grows (api c body).
Proof.
  intros Hb w. unfold api. destruct (w_faults w c); [reflexivity|].
  exact (Hb (record_call c w)).
Qed.

Lemma log_grows_when_err r k : (∀ e, log_grows (k e)) → log_grows (when_err r k).
Proof. intros Hk. destruct r; cbn; [apply Hk | apply log_grows_ret]. Qed.

Lemma log_grows_foldM {A B} (body : A → B → M A) acc xs :
  (∀ a x, log_grows (body a x)) → log_grows (foldM body acc xs).
Proof.
  intros Hb. revert acc. induction xs as [|x xs IH]; intros acc; cbn [foldM].
  - apply log_grows_ret.
  - apply log_grows_bind; [apply Hb | intros a; apply IH].
Qed.

Ltac log_grows :=
  repeat first
    [ apply log_grows_ret
    | apply log_grows_klog
    | apply log_grows_bind; [|intros ?]
    | apply log_grows_api; intros ?; cbn
    | apply log_grows_when_err; intros ?
    | match goal with
      | |- log_grows (match ?x with _ => _ end) => destruct x
      | |- log_grows (if ?b then _ else _) => destruct b
      | |- _ `prefix_of` _ => reflexivity
      | |- context [match ?x with _ => _ end] => destruct x; cbn
      end ].

Lemma log_grows_updateSliceForCluster namespace serviceName ce :
  log_grows (updateSliceForCluster namespace serviceName ce).
Proof.
  unfold updateSliceForCluster, kubeClient.Get_Service, kubeClient.Get_EndpointSlice,
    kubeClient.Create_EndpointSlice, kubeClient.Update_EndpointSlice.
  log_grows.
Qed.

Lemma log_grows_body namespace serviceName u ce :
  log_grows (UpdateEndpointSlices_body namespace serviceName u ce).
Proof.
  unfold UpdateEndpointSlices_body.
  apply log_grows_bind; [apply log_grows_updateSliceForCluster|].
  intros r. unfold klog_Errorf. log_grows.
Qed.

Lemma log_grows_cleanup_loop namespace active items :
  log_grows (cleanupOrphanedSlices_loop namespace active items).
Proof.
  induction items as [|s items IH]; cbn [cleanupOrphanedSlices_loop];
    [apply log_grows_ret|].
  repeat case_bool_decide; try apply IH.
  apply log_grows_bind.
  - unfold kubeClient.Delete_EndpointSlice. log_grows.
  - intros [[]|e]; [apply IH|]. destruct (negb _); [apply log_grows_ret | apply IH].
Qed.

Lemma log_grows_cleanup namespace serviceName ces :
  log_grows (cleanupOrphanedSlices namespace serviceName ces).
Proof.
  unfold cleanupOrphanedSlices. apply log_grows_bind.
  - unfold kubeClient.List_EndpointSlices. log_grows.
  - intros [items|e]; [apply log_grows_cleanup_loop | apply log_grows_ret].
Qed.

Lemma UpdateEndpointSlices_nil namespace serviceName ces w :
  (UpdateEndpointSlices namespace serviceName ces w).1 = None.
Proof. unfold UpdateEndpointSlices. by rewrite !run_bind. Qed.

Lemma UpdateEndpointSlices_run namespace serviceName ces w :
  let w1 := (foldM (UpdateEndpointSlices_body namespace serviceName) tt ces w).2 in
  let out := cleanupOrphanedSlices namespace serviceName ces w1 in
  (UpdateEndpointSlices namespace serviceName ces w).2
  = (when_err out.1 (λ e,
       klog_Errorf ("Failed to cleanup orphaned slices for service "
                    +:+ namespace +:+ "/" +:+ serviceName +:+ ": " +:+ err_msg e))
       out.2).2.
Proof. unfold UpdateEndpointSlices. by rewrite !run_bind. Qed.

Lemma syncService_nil svcInfo clusterInfos w :
  (controller.syncService svcInfo clusterInfos w).1 = None.
Proof.
  unfold controller.syncService. rewrite run_bind.
  pose proof (AggregateEndpoints_results (discoverer.Namespace svcInfo)
                (discoverer.Name svcInfo) (discoverer.Clusters svcInfo) clusterInfos w) as H.
  destruct (AggregateEndpoints _ _ _ _ w) as [[ces err] w1]. cbn in H.
  injection H as _ ->. cbn [fst snd]. rewrite run_bind.
  by rewrite UpdateEndpointSlices_nil.
Qed.

Lemma sync_services_errs services clusterInfos w :
  (controller.sync_services services clusterInfos w).1 = [].
Proof.
  unfold controller.sync_services. rewrite run_bind.
  assert (H : ∀ w0,
    (foldM (λ errs '(key, svcInfo),
              bind (controller.syncService svcInfo clusterInfos) (λ r,
                match r with
                | Some e => ret (errs ++ ["failed to sync service " +:+ key +:+ ": " +:+ err_msg e])
                | None => ret errs
                end)) [] services w0).1 = []).
  { induction services as [|[key svcInfo] services IH]; intros w0; [done|].
    rewrite foldM_cons. cbn beta iota. rewrite !run_bind, syncService_nil.
    cbn [fst snd ret]. apply IH. }
  rewrite H. reflexivity.
Qed.

Lemma elem_of_prefix {A} (l1 l2 : list A) x : l1 `prefix_of` l2 → x ∈ l1 → x ∈ l2.
Proof. intros [k ->] H. apply elem_of_app. by left. Qed.

Lemma log_grows_after_loop namespace serviceName ces w :
  w_log (foldM (UpdateEndpointSlices_body namespace serviceName) tt ces w).2
  `prefix_of` w_log (UpdateEndpointSlices namespace serviceName ces w).2.
Proof.
  rewrite UpdateEndpointSlices_run. cbn zeta.
  etrans; [apply log_grows_cleanup|].
  apply log_grows_when_err. intros e. apply log_grows_klog.
Qed.

(** C6, as the code has it. [UpdateEndpointSlices] returns nil whatever
    happens. A failed update of one cluster does not stop the loop: its
    line is written to the error log and the later clusters and the
    cleanup are still run; a failed cleanup is written to the error log
    as well. So [syncService] returns nil, and the list of errors the
    caller collects over the services is empty. *)
Theorem reconcile_failures_logged namespace serviceName ces w :
  let loop := foldM (UpdateEndpointSlices_body namespace serviceName) tt in
  let final := (UpdateEndpointSlices namespace serviceName ces w).2 in
  (UpdateEndpointSlices namespace serviceName ces w).1 = None
  ∧ (∀ pre ce post e,
       ces = pre ++ ce :: post →
       (updateSliceForCluster namespace serviceName ce (loop pre w).2).1 = Some e →
       update_failure_line namespace serviceName ce e ∈ w_log final)
  ∧ (∀ e,
       (cleanupOrphanedSlices namespace serviceName ces (loop ces w).2).1 = Some e →
       cleanup_failure_line namespace serviceName e ∈ w_log final)
  ∧ (∀ svcInfo clusterInfos w', (controller.syncService svcInfo clusterInfos w').1 = None)
  ∧ (∀ services clusterInfos w',
       (controller.sync_services services clusterInfos w').1 = []).
Proof.
  intros loop final. subst loop final.
  split; [apply UpdateEndpointSlices_nil|]. split; [|split; [|split]].
  - intros pre ce post e -> He.
    eapply elem_of_prefix; [apply log_grows_after_loop|].
    rewrite foldM_app, foldM_cons.
    eapply elem_of_prefix;
      [apply (log_grows_foldM _ _ _ (log_grows_body namespace serviceName))|].
    unfold UpdateEndpointSlices_body at 1. rewrite run_bind, He.
    cbn [when_err klog_Errorf klog snd w_log].
    apply elem_of_app. right. apply list_elem_of_singleton. reflexivity.
  - intros e He. rewrite UpdateEndpointSlices_run. cbn zeta. rewrite He.
    cbn [when_err klog_Errorf klog snd w_log].
    apply elem_of_app. right. apply list_elem_of_singleton. reflexivity.
  - apply syncService_nil.
  - apply sync_services_errs.
Qed.

Lemma reconcile_failures_logged_witness :
  let e := wrap "failed to create EndpointSlice"
             (server_error "etcdserver: request timed out") in
  (updateSliceForCluster "default" "web" examples.ceE examples.world_create_fails).1 = Some e
  ∧ update_failure_line "default" "web" examples.ceE e
    ∈ w_log (UpdateEndpointSlices "default" "web" [examples.ceE; examples.ceW]
               examples.world_create_fails).2.
Proof.
  intros e.
  assert (He : (updateSliceForCluster "default" "web" examples.ceE
                  examples.world_create_fails).1 = Some e) by by_compute.
  split; [exact He|].
  destruct (reconcile_failures_logged "default" "web" [examples.ceE; examples.ceW]
              examples.world_create_fails) as (_ & Hlog & _).
  exact (Hlog [] examples.ceE [examples.ceW] e eq_refl He).
Defined.

(** C6 as specified fails: the create call for the eastern
    cluster fails, yet the reconcile returns nil, [syncService] returns
    nil, and the caller collects no error; the western cluster is still
    reconciled. *)
Lemma reconcile_failure_not_returned :
  let e := wrap "failed to create EndpointSlice"
             (server_error "etcdserver: request timed out") in
  let out := UpdateEndpointSlices "default" "web" [examples.ceE; examples.ceW]
               examples.world_create_fails in
  (updateSliceForCluster "default" "web" examples.ceE examples.world_create_fails).1 = Some e
  ∧ out.1 = None
  ∧ List.filter is_create (w_calls out.2)
    = [CreateSlice "default" "web-svclink-east"; CreateSlice "default" "web-svclink-west"]
  ∧ map fst (map_to_list (w_slices out.2)) = [("default", "web-svclink-west")]
  ∧ (controller.syncService examples.svcInfo_web examples.infos_web
       examples.world_create_fails).1 = None
  ∧ (controller.sync_services [("default/web", examples.svcInfo_web)] examples.infos_web
       examples.world_create_fails).1 = [].
Proof. repeat split; by_compute. Qed.

End Failures.

(** ** Cluster registry *)

Section Registry.

Import clusterlink.

Lemma buildConditions_run connected errorMsg w :
  buildConditions connected errorMsg w = (conditions_at (w_now w) connected errorMsg, w).
Proof.
  unfold buildConditions, conditions_at, time_Now, bind, ret.
  destruct connected; [done|]. by case_bool_decide.
Qed.

Lemma Status_Update_ok cl w :
  reliable w →
  ∃ r, kubeClient.Status_Update cl w
       = (r, extend_links w
               (put_status (v1alpha1.Name cl) (v1alpha1.Status cl) (w_clusterLinks w))
               [UpdateStatus (v1alpha1.Name cl)] [])
       ∧ match r with Ok _ => True | Err e => err_not_found e = true end.
Proof.
  intros Hnf. unfold kubeClient.Status_Update, api. rewrite Hnf.
  unfold put_status. cbn.
  destruct (w_clusterLinks w !! v1alpha1.Name cl) as [old|].
  - exists (Ok tt). split; [|exact I].
    unfold set_clusterLinks, extend_links, record_call. cbn. by rewrite app_nil_r.
  - exists (Err (not_found ("clusterlinks " +:+ v1alpha1.Name cl))). split; [|reflexivity].
    unfold extend_links, record_call. cbn. by rewrite app_nil_r.
Qed.

Lemma updateClusterStatus_ok cluster connected version errorMsg w :
  reliable w →
  let status := status_at (w_now w) (v1alpha1.Status cluster) connected version errorMsg in
  updateClusterStatus cluster connected version errorMsg w
  = ({| v1alpha1.Name := v1alpha1.Name cluster; v1alpha1.Spec := v1alpha1.Spec cluster;
        v1alpha1.Status := status |},
     extend_links w (put_status (v1alpha1.Name cluster) status (w_clusterLinks w))
       [UpdateStatus (v1alpha1.Name cluster)] []).
Proof.
  intros Hnf status. unfold updateClusterStatus.
  rewrite run_bind.
  assert (Hlc : (if connected then bind time_Now (λ now, ret (Some now))
                 else ret (v1alpha1.LastConnected (v1alpha1.Status cluster))) w
                = (if connected then Some (w_now w)
                   else v1alpha1.LastConnected (v1alpha1.Status cluster), w)).
  { by destruct connected. }
  rewrite Hlc. cbn [fst snd]. rewrite run_bind, buildConditions_run. cbn [fst snd].
  rewrite run_bind.
  match goal with
  | |- context [kubeClient.Status_Update ?c w] =>
      destruct (Status_Update_ok c w Hnf) as (r & Heq & Hr); rewrite Heq
  end.
  cbn [fst snd v1alpha1.Name v1alpha1.Status].
  destruct r as [[]|e]; [done|]. rewrite Hr. cbn [negb]. by rewrite run_bind.
Qed.

Lemma reliable_extend_links w links calls lines :
  reliable w → reliable (extend_links w links calls lines).
Proof. intros H c. apply H. Qed.

Lemma klog_extend_links lvl line w links calls lines :
  klog lvl line (extend_links w links calls lines)
  = (tt, extend_links w links calls (lines ++ [(lvl, line)])).
Proof. unfold klog, extend_links. cbn. by rewrite app_assoc. Qed.

Lemma extend_links_id w : extend_links w (w_clusterLinks w) [] [] = w.
Proof. unfold extend_links. rewrite !app_nil_r. by destruct w. Qed.

Lemma extend_links_extend_links w l1 c1 n1 l2 c2 n2 :
  extend_links (extend_links w l1 c1 n1) l2 c2 n2
  = extend_links w l2 (c1 ++ c2) (n1 ++ n2).
Proof. unfold extend_links. cbn. by rewrite !app_assoc. Qed.

Lemma lookup_put_status_ne name status links n :
  n ≠ name → put_status name status links !! n = links !! n.
Proof.
  intros Hne. unfold put_status. destruct (links !! name); [|done].
  by rewrite lookup_insert_ne.
Qed.

Lemma lookup_put_status_eq name status links old :
  links !! name = Some old →
  put_status name status links !! name
  = Some {| v1alpha1.Name := name; v1alpha1.Spec := v1alpha1.Spec old;
            v1alpha1.Status := status |}.
Proof. intros H. unfold put_status. rewrite H. by rewrite lookup_insert_eq. Qed.

(** A descriptor that decodes and whose client can be built. *)
Lemma ListClusterInfo_body_success libs clusterInfos clusterLink w data client version :
  reliable w →
  DecodeString libs (v1alpha1.Kubeconfig (v1alpha1.Spec clusterLink)) = Ok data →
  buildClientWithVersion libs data = Ok (client, version) →
  let name := v1alpha1.Name clusterLink in
  let status := status_at (w_now w) (v1alpha1.Status clusterLink) true version "" in
  ListClusterInfo_body libs clusterInfos clusterLink w
  = (<[ name := {| Name := name;
                   Enabled := v1alpha1.Enabled (v1alpha1.Spec clusterLink);
                   Client_ := client;
                   ClusterLink := {| v1alpha1.Name := name;
                                     v1alpha1.Spec := v1alpha1.Spec clusterLink;
                                     v1alpha1.Status := status |} |} ]> clusterInfos,
     extend_links w (put_status name status (w_clusterLinks w)) [UpdateStatus name] []).
Proof.
  intros Hnf Hdec Hbuild name status. unfold ListClusterInfo_body.
  rewrite Hdec, Hbuild. rewrite run_bind, updateClusterStatus_ok by done.
  reflexivity.
Qed.

(** A descriptor that does not reach that point. *)
Lemma ListClusterInfo_body_failure libs clusterInfos clusterLink w :
  reliable w →
  (∀ data, DecodeString libs (v1alpha1.Kubeconfig (v1alpha1.Spec clusterLink)) = Ok data →
           ∃ e, buildClientWithVersion libs data = Err e) →
  let name := v1alpha1.Name clusterLink in
  ∃ errorMsg line,
    ListClusterInfo_body libs clusterInfos clusterLink w
    = (clusterInfos,
       extend_links w
         (put_status name
            (status_at (w_now w) (v1alpha1.Status clusterLink) false "" errorMsg)
            (w_clusterLinks w))
         [UpdateStatus name] [(ERROR, line)])
    ∧ errorMsg ≠ "".
Proof.
  intros Hnf Hfail name. unfold ListClusterInfo_body.
  destruct (DecodeString libs _) as [data|e] eqn:Hdec.
  - destruct (Hfail data eq_refl) as [e He]. rewrite He.
    eexists _, _. split.
    + rewrite run_bind. unfold klog_Errorf.
      rewrite <- (extend_links_id w) at 1. rewrite klog_extend_links. cbn [fst snd].
      rewrite run_bind, updateClusterStatus_ok by by apply reliable_extend_links.
      cbn [fst snd ret]. rewrite extend_links_extend_links. reflexivity.
    + done.
  - eexists _, _. split.
    + rewrite run_bind. unfold klog_Errorf.
      rewrite <- (extend_links_id w) at 1. rewrite klog_extend_links. cbn [fst snd].
      rewrite run_bind, updateClusterStatus_ok by by apply reliable_extend_links.
      cbn [fst snd ret]. rewrite extend_links_extend_links. reflexivity.
    + done.
Qed.

(** Either way the step touches one descriptor and one entry only. *)
Lemma ListClusterInfo_body_frame libs clusterInfos clusterLink w n :
  reliable w →
  n ≠ v1alpha1.Name clusterLink →
  let out := ListClusterInfo_body libs clusterInfos clusterLink w in
  out.1 !! n = clusterInfos !! n
  ∧ w_clusterLinks out.2 !! n = w_clusterLinks w !! n
  ∧ reliable out.2
  ∧ w_now out.2 = w_now w.
Proof.
  intros Hnf Hne out. subst out.
  destruct (DecodeString libs (v1alpha1.Kubeconfig (v1alpha1.Spec clusterLink)))
    as [data|e] eqn:Hdec.
  - destruct (buildClientWithVersion libs data) as [[client version]|e] eqn:Hbuild.
    + rewrite (ListClusterInfo_body_success _ _ _ _ data client version) by done.
      cbn [fst snd extend_links w_clusterLinks w_now].
      rewrite lookup_insert_ne by done. rewrite lookup_put_status_ne by done.
      repeat split. by apply reliable_extend_links.
    + destruct (ListClusterInfo_body_failure libs clusterInfos clusterLink w Hnf)
        as (msg & line & -> & _).
      { intros data' Hd. rewrite Hdec in Hd. injection Hd as <-. by exists e. }
      cbn [fst snd extend_links w_clusterLinks w_now].
      rewrite lookup_put_status_ne by done.
      repeat split. by apply reliable_extend_links.
  - destruct (ListClusterInfo_body_failure libs clusterInfos clusterLink w Hnf)
      as (msg & line & -> & _).
    { intros data' Hd. by rewrite Hdec in Hd. }
    cbn [fst snd extend_links w_clusterLinks w_now].
    rewrite lookup_put_status_ne by done.
    repeat split. by apply reliable_extend_links.
Qed.

Lemma ListClusterInfo_loop_frame libs items clusterInfos w n :
  reliable w →
  n ∉ map v1alpha1.Name items →
  let out := foldM (ListClusterInfo_body libs) clusterInfos items w in
  out.1 !! n = clusterInfos !! n
  ∧ w_clusterLinks out.2 !! n = w_clusterLinks w !! n
  ∧ reliable out.2
  ∧ w_now out.2 = w_now w.
Proof.
  revert clusterInfos w. induction items as [|cl items IH]; intros infos w Hnf Hn out.
  - done.
  - subst out. rewrite foldM_cons.
    apply not_elem_of_cons in Hn as [Hne Hn].
    destruct (ListClusterInfo_body_frame libs infos cl w n Hnf Hne) as (H1 & H2 & H3 & H4).
    destruct (IH (ListClusterInfo_body libs infos cl w).1
                 (ListClusterInfo_body libs infos cl w).2 H3 Hn) as (H1' & H2' & H3' & H4').
    cbn zeta in H1', H2', H3', H4'.
    repeat split; [congruence | congruence | done | congruence].
Qed.

Lemma List_ClusterLinks_ok w :
  reliable w →
  kubeClient.List_ClusterLinks w
  = (Ok (map (fun '(k, cl) => link_at k cl) (map_to_list (w_clusterLinks w))),
     extend_links w (w_clusterLinks w) [ListClusterLinks] []).
Proof.
  intros Hnf. unfold kubeClient.List_ClusterLinks, api. rewrite Hnf.
  unfold record_call, extend_links. cbn. by rewrite app_nil_r.
Qed.

(** The listing holds each stored descriptor once. *)
Lemma listing_split (links : gmap string v1alpha1.ClusterLink) name stored :
  links !! name = Some stored →
  ∃ pre post,
    map (fun '(k, cl) => link_at k cl) (map_to_list links)
    = pre ++ link_at name stored :: post
    ∧ (name ∉ map v1alpha1.Name pre)
    ∧ (name ∉ map v1alpha1.Name post).
Proof.
  intros Hk. apply elem_of_map_to_list in Hk.
  apply list_elem_of_split in Hk as (l1 & l2 & Hl).
  pose proof (NoDup_fst_map_to_list links) as Hnd. rewrite Hl in Hnd |- *.
  rewrite fmap_app, fmap_cons in Hnd. cbn in Hnd.
  apply NoDup_app in Hnd as (_ & Hdisj & Hnd2).
  apply NoDup_cons in Hnd2 as [Hn2 _].
  assert (Hnames : ∀ l : list (string * v1alpha1.ClusterLink),
            map v1alpha1.Name (map (fun '(k, cl) => link_at k cl) l) = l.*1).
  { intros l. induction l as [|[k cl] l IH]; cbn; [done|]. by rewrite IH. }
  exists (map (fun '(k, cl) => link_at k cl) l1), (map (fun '(k, cl) => link_at k cl) l2).
  split; [by rewrite map_app|]. rewrite !Hnames. split; [|done].
  intros Hin. apply (Hdisj name Hin). apply list_elem_of_here.
Qed.

(** What [ListClusterInfo] makes of one stored descriptor, from what its
    step makes of it. *)
Lemma ListClusterInfo_at libs w name stored entry status lines :
  reliable w →
  w_clusterLinks w !! name = Some stored →
  (∀ clusterInfos w0,
     reliable w0 → w_now w0 = w_now w →
     ListClusterInfo_body libs clusterInfos (link_at name stored) w0
     = (match entry with
        | Some info => <[ name := info ]> clusterInfos
        | None => clusterInfos
        end,
        extend_links w0 (put_status name status (w_clusterLinks w0))
          [UpdateStatus name] lines)) →
  let out := ListClusterInfo libs w in
  ∃ clusterInfos,
    out.1 = Ok clusterInfos
    ∧ clusterInfos !! name = entry
    ∧ (v1alpha1.Status <$> w_clusterLinks out.2 !! name) = Some status.
Proof.
  intros Hnf Hk Hbody out. subst out. unfold ListClusterInfo.
  rewrite run_bind, List_ClusterLinks_ok by done. cbn [fst snd].
  destruct (listing_split _ _ _ Hk) as (pre & post & -> & Hpre & Hpost).
  rewrite run_bind. cbn [fst snd ret]. eexists. split; [reflexivity|].
  rewrite foldM_app, foldM_cons.
  set (w0 := extend_links w (w_clusterLinks w) [ListClusterLinks] []).
  assert (Hnf0 : reliable w0) by by apply reliable_extend_links.
  destruct (ListClusterInfo_loop_frame libs pre ∅ w0 name Hnf0 Hpre)
    as (Hi1 & Hl1 & Hnf1 & Hnow1).
  set (infos1 := (foldM (ListClusterInfo_body libs) ∅ pre w0).1) in *.
  set (w1 := (foldM (ListClusterInfo_body libs) ∅ pre w0).2) in *.
  rewrite (Hbody infos1 w1 Hnf1 Hnow1). cbn [fst snd].
  set (infos2 := match entry with Some info => <[name:=info]> infos1 | None => infos1 end).
  set (w2 := extend_links w1 (put_status name status (w_clusterLinks w1))
               [UpdateStatus name] lines).
  assert (Hnf2 : reliable w2) by by apply reliable_extend_links.
  destruct (ListClusterInfo_loop_frame libs post infos2 w2 name Hnf2 Hpost)
    as (Hi3 & Hl3 & _ & _).
  cbn zeta in Hi3, Hl3. rewrite Hi3, Hl3. split.
  - subst infos2. destruct entry; [by rewrite lookup_insert_eq|].
    rewrite Hi1. apply lookup_empty.
  - subst w2. cbn [w_clusterLinks extend_links].
    rewrite (lookup_put_status_eq _ _ _ stored); [done|].
    rewrite Hl1. exact Hk.
Qed.

Lemma ListClusterInfo_body_build_failure libs clusterInfos clusterLink w data e :
  reliable w →
  DecodeString libs (v1alpha1.Kubeconfig (v1alpha1.Spec clusterLink)) = Ok data →
  buildClientWithVersion libs data = Err e →
  let name := v1alpha1.Name clusterLink in
  ListClusterInfo_body libs clusterInfos clusterLink w
  = (clusterInfos,
     extend_links w
       (put_status name
          (status_at (w_now w) (v1alpha1.Status clusterLink) false ""
             ("Failed to build client: " +:+ err_msg e))
          (w_clusterLinks w))
       [UpdateStatus name]
       [(ERROR, "Failed to build client for cluster " +:+ name +:+ ": " +:+ err_msg e)]).
Proof.
  intros Hnf Hdec Hbuild name. unfold ListClusterInfo_body. rewrite Hdec, Hbuild.
  rewrite run_bind. unfold klog_Errorf.
  rewrite <- (extend_links_id w) at 1. rewrite klog_extend_links. cbn [fst snd].
  rewrite run_bind, updateClusterStatus_ok by by apply reliable_extend_links.
  cbn [fst snd ret]. by rewrite extend_links_extend_links.
Qed.

(** The version probe is never the reason why no client is returned. *)
Lemma buildClientWithVersion_Err libs data e :
  buildClientWithVersion libs data = Err e →
  (∃ e0, RESTConfigFromKubeConfig libs data = Err e0
         ∧ e = wrap "failed to parse kubeconfig" e0)
  ∨ (∃ restConfig e0, RESTConfigFromKubeConfig libs data = Ok restConfig
                      ∧ NewForConfig libs restConfig = Err e0
                      ∧ e = wrap "failed to create client" e0).
Proof.
  unfold buildClientWithVersion.
  destruct (RESTConfigFromKubeConfig libs data) as [cfg|e0] eqn:Hcfg.
  - destruct (NewForConfig libs cfg) as [client|e0] eqn:Hnew; [done|].
    intros [= <-]. right. by exists cfg, e0.
  - intros [= <-]. left. by exists e0.
Qed.

(** C9, as the code has it. A descriptor whose kubeconfig decodes and
    parses and whose client can be constructed is connected whether or
    not the version probe succeeds: when the probe fails the descriptor
    is in the output map with that client, and its stored status is
    connected, with an empty version, an empty error, the time of the
    cycle as lastConnected, and the ready condition. The degraded
    handling (no entry in the output map, status disconnected with the
    message) is what a kubeconfig that does not parse or a client that
    cannot be constructed gets, and nothing else makes
    [buildClientWithVersion] fail. *)
Theorem version_probe_failure_tolerated libs w name stored data :
  reliable w →
  w_clusterLinks w !! name = Some stored →
  DecodeString libs (v1alpha1.Kubeconfig (v1alpha1.Spec stored)) = Ok data →
  let out := ListClusterInfo libs w in
  (∀ restConfig client e,
     RESTConfigFromKubeConfig libs data = Ok restConfig →
     NewForConfig libs restConfig = Ok client →
     ServerVersion client = Err e →
     ∃ clusterInfos info,
       out.1 = Ok clusterInfos
       ∧ clusterInfos !! name = Some info
       ∧ Name info = name
       ∧ Client_ info = client
       ∧ (v1alpha1.Status <$> w_clusterLinks out.2 !! name)
         = Some {| v1alpha1.Connected := true;
                   v1alpha1.LastConnected := Some (w_now w);
                   v1alpha1.Error := "";
                   v1alpha1.Version := "";
                   v1alpha1.Conditions :=
                     [ {| v1alpha1.Type_ := v1alpha1.ClusterLinkReady;
                          v1alpha1.Status_ := v1alpha1.ConditionTrue;
                          v1alpha1.LastTransitionTime := w_now w;
                          v1alpha1.Reason := "Connected";
                          v1alpha1.Message :=
                            "Successfully connected to remote cluster" |} ] |})
  ∧ (∀ e,
       buildClientWithVersion libs data = Err e →
       ((∃ e0, RESTConfigFromKubeConfig libs data = Err e0)
        ∨ (∃ restConfig e0, RESTConfigFromKubeConfig libs data = Ok restConfig
                            ∧ NewForConfig libs restConfig = Err e0))
       ∧ ∃ clusterInfos status,
           out.1 = Ok clusterInfos
           ∧ clusterInfos !! name = None
           ∧ (v1alpha1.Status <$> w_clusterLinks out.2 !! name) = Some status
           ∧ v1alpha1.Connected status = false
           ∧ v1alpha1.Error status = "Failed to build client: " +:+ err_msg e
           ∧ v1alpha1.LastConnected status
             = v1alpha1.LastConnected (v1alpha1.Status stored)).
Proof.
  intros Hnf Hk Hdec out. split.
  - intros restConfig client e Hcfg Hnew Hver.
    assert (Hbuild : buildClientWithVersion libs data = Ok (client, "")).
    { unfold buildClientWithVersion. by rewrite Hcfg, Hnew, Hver. }
    destruct (ListClusterInfo_at libs w name stored
                (Some {| Name := name;
                         Enabled := v1alpha1.Enabled (v1alpha1.Spec stored);
                         Client_ := client;
                         ClusterLink :=
                           {| v1alpha1.Name := name; v1alpha1.Spec := v1alpha1.Spec stored;
                              v1alpha1.Status :=
                                status_at (w_now w) (v1alpha1.Status stored) true "" "" |} |})
                (status_at (w_now w) (v1alpha1.Status stored) true "" "") [] Hnf Hk)
      as (infos & Hout & Hin & Hst).
    { intros infos w0 Hnf0 Hnow.
      rewrite (ListClusterInfo_body_success libs infos (link_at name stored) w0 data client "")
        by done.
      cbn [link_at v1alpha1.Name v1alpha1.Spec v1alpha1.Status]. by rewrite Hnow. }
    eexists infos, _. split; [exact Hout|]. split; [exact Hin|].
    split; [reflexivity|]. split; [reflexivity|]. exact Hst.
  - intros e Hbuild. split.
    { destruct (buildClientWithVersion_Err _ _ _ Hbuild)
        as [(e0 & H0 & _)|(cfg & e0 & H0 & H1 & _)]; [left|right]; eauto. }
    destruct (ListClusterInfo_at libs w name stored None
                (status_at (w_now w) (v1alpha1.Status stored) false ""
                   ("Failed to build client: " +:+ err_msg e))
                [(ERROR, "Failed to build client for cluster " +:+ name +:+ ": "
                         +:+ err_msg e)] Hnf Hk)
      as (infos & Hout & Hin & Hst).
    { intros infos w0 Hnf0 Hnow.
      rewrite (ListClusterInfo_body_build_failure libs infos (link_at name stored) w0 data e)
        by done.
      cbn [link_at v1alpha1.Name v1alpha1.Spec v1alpha1.Status]. by rewrite Hnow. }
    eexists infos, _. split; [exact Hout|]. split; [exact Hin|].
    split; [exact Hst|]. repeat split.
Qed.

Lemma version_probe_failure_tolerated_witness :
  let w := examples.world_links [examples.link "east"] in
  let out := ListClusterInfo (examples.libs examples.unreachable) w in
  reliable w
  ∧ ∃ clusterInfos info,
      out.1 = Ok clusterInfos
      ∧ clusterInfos !! "east" = Some info
      ∧ Name info = "east"
      ∧ Client_ info = examples.unreachable
      ∧ (v1alpha1.Status <$> w_clusterLinks out.2 !! "east")
        = Some {| v1alpha1.Connected := true;
                  v1alpha1.LastConnected := Some (w_now w);
                  v1alpha1.Error := "";
                  v1alpha1.Version := "";
                  v1alpha1.Conditions :=
                    [ {| v1alpha1.Type_ := v1alpha1.ClusterLinkReady;
                         v1alpha1.Status_ := v1alpha1.ConditionTrue;
                         v1alpha1.LastTransitionTime := w_now w;
                         v1alpha1.Reason := "Connected";
                         v1alpha1.Message := "Successfully connected to remote cluster" |} ] |}.
Proof.
  intros w out.
  assert (Hnf : reliable w) by (intros c; reflexivity).
  split; [exact Hnf|].
  destruct (version_probe_failure_tolerated (examples.libs examples.unreachable) w "east"
              (examples.link "east") "kube" Hnf) as [Hprobe _].
  - by_compute.
  - reflexivity.
  - apply (Hprobe {| Host := "https://east.example:6443" |} examples.unreachable
             (server_error "dial tcp: i/o timeout")); reflexivity.
Defined.

(** C9 as specified fails: the version probe of the eastern
    cluster fails, and the descriptor is in the output map with a status
    that says connected. *)
Lemma version_probe_failure_not_degraded :
  let w := examples.world_links [examples.link "east"] in
  let out := ListClusterInfo (examples.libs examples.unreachable) w in
  ServerVersion examples.unreachable = Err (server_error "dial tcp: i/o timeout")
  ∧ (∃ clusterInfos, out.1 = Ok clusterInfos ∧ is_Some (clusterInfos !! "east"))
  ∧ (v1alpha1.Connected <$> (v1alpha1.Status <$> w_clusterLinks out.2 !! "east")) = Some true
  ∧ (v1alpha1.Error <$> (v1alpha1.Status <$> w_clusterLinks out.2 !! "east")) = Some "".
Proof.
  intros w out. split; [reflexivity|]. split; [|split; by_compute].
  eexists. split; [reflexivity|]. by_compute.
Qed.

(** C5 on the code: a descriptor with enabled = false whose kubeconfig
    is valid is handled like an enabled one. It is in the output map, a
    status update is sent for it, and its stored status becomes
    connected. *)
Lemma disabled_descriptor_is_connected :
  let w := examples.world_links [examples.disabled_link] in
  let out := ListClusterInfo (examples.libs (examples.remote "web" [examples.webSlice])) w in
  v1alpha1.Enabled (v1alpha1.Spec examples.disabled_link) = false
  ∧ (∃ clusterInfos info,
       out.1 = Ok clusterInfos ∧ clusterInfos !! "west" = Some info ∧ Enabled info = false)
  ∧ w_calls out.2 = [ListClusterLinks; UpdateStatus "west"]
  ∧ (v1alpha1.Status <$> w_clusterLinks w !! "west") = Some examples.status0
  ∧ (v1alpha1.Status <$> w_clusterLinks out.2 !! "west")
    = Some (status_at (w_now w) examples.status0 true "v1.28.0" "").
Proof.
  intros w out. split; [reflexivity|]. split; [|split; [|split]]; try by_compute.
  eexists _, _. split; [reflexivity|]. split; [by_compute | reflexivity].
Qed.

End Registry.

(** ** Service discoverer *)

Section Discoverer.

Import discoverer.

Lemma klog_run lvl line w :
  klog lvl line w = (tt, extend_links w (w_clusterLinks w) [] [(lvl, line)]).
Proof. unfold klog, extend_links. by rewrite app_nil_r. Qed.

(** Discovery in one cluster reads the remote cluster only: its result
    does not depend on the local world, to which it adds log lines. *)
Lemma discoverInCluster_loop_pure clusterName clusterInfo cfgIncluded namespaces :
  ∀ services, ∃ v lines, ∀ w,
    discoverInCluster_loop clusterName clusterInfo cfgIncluded namespaces services w
    = (v, extend_links w (w_clusterLinks w) [] lines).
Proof.
  induction namespaces as [|ns namespaces IH]; intros services;
    cbn [discoverInCluster_loop].
  - exists (services, None), []. intros w. unfold ret. by rewrite extend_links_id.
  - destruct (_ && _); [apply IH|].
    destruct (v1alpha1.ShouldExcludeNamespace _ _ _ _); [apply IH|].
    destruct (Services_List _ _) as [svcList|e]; [apply IH|].
    eexists (services, Some e), [_]. intros w.
    rewrite run_bind. unfold klog_Errorf. by rewrite klog_run.
Qed.

Lemma discoverInCluster_pure clusterName clusterInfo cfgIncluded services :
  ∃ v lines, ∀ w,
    discoverInCluster clusterName clusterInfo cfgIncluded services w
    = (v, extend_links w (w_clusterLinks w) [] lines).
Proof.
  unfold discoverInCluster.
  destruct (Namespaces_List _) as [nsList|e]; [apply discoverInCluster_loop_pure|].
  eexists (services, Some e), [_]. intros w.
  rewrite run_bind. unfold klog_Errorf. by rewrite klog_run.
Qed.

Lemma discoverInCluster_namespaces_fail clusterName clusterInfo cfgIncluded services w e :
  Namespaces_List (clusterlink.Client_ clusterInfo) = Err e →
  (discoverInCluster clusterName clusterInfo cfgIncluded services w).1 = (services, Some e).
Proof. intros H. unfold discoverInCluster. rewrite H. by rewrite run_bind. Qed.

Lemma DiscoverServices_body_value includedNS services entry w :
  (DiscoverServices_body includedNS services entry w).1
  = (discoverInCluster entry.1 entry.2 includedNS services w).1.1.
Proof.
  destruct entry as [c info]. unfold DiscoverServices_body. rewrite run_bind.
  cbn [fst snd].
  destruct (discoverInCluster c info includedNS services w) as [[services' err] w1].
  cbn [fst snd]. by rewrite !run_bind.
Qed.

Lemma DiscoverServices_body_pure includedNS services entry :
  ∃ v, ∀ w, (DiscoverServices_body includedNS services entry w).1 = v.
Proof.
  destruct (discoverInCluster_pure entry.1 entry.2 includedNS services) as (v & lines & Hv).
  exists v.1. intros w. by rewrite DiscoverServices_body_value, Hv.
Qed.

Lemma DiscoverServices_loop_pure includedNS entries :
  ∀ services, ∃ v, ∀ w,
    (foldM (DiscoverServices_body includedNS) services entries w).1 = v.
Proof.
  induction entries as [|entry entries IH]; intros services.
  - by exists services.
  - destruct (DiscoverServices_body_pure includedNS services entry) as [v1 Hv1].
    destruct (IH v1) as [v Hv]. exists v. intros w.
    by rewrite foldM_cons, Hv1, Hv.
Qed.

(** The step of [DiscoverServices] on the local world. *)
Lemma DiscoverServices_body_run includedNS services clusterName clusterInfo w :
  reliable w →
  let out := discoverInCluster clusterName clusterInfo includedNS services w in
  let cl := clusterlink.ClusterLink clusterInfo in
  ∃ lines,
    (DiscoverServices_body includedNS services (clusterName, clusterInfo) w).2
    = extend_links w
        (put_status (v1alpha1.Name cl)
           (status_at (w_now w) (v1alpha1.Status cl) true
              (v1alpha1.Version (v1alpha1.Status cl)) (sync_error_msg out.1.2))
           (w_clusterLinks w))
        [UpdateStatus (v1alpha1.Name cl)] lines.
Proof.
  intros Hnf out cl. subst out.
  destruct (discoverInCluster_pure clusterName clusterInfo includedNS services)
    as ([services' err] & lines & Hv).
  unfold DiscoverServices_body. rewrite run_bind, Hv. cbn [fst snd].
  rewrite !run_bind. unfold clusterlink.UpdateClusterSyncError.
  rewrite !run_bind.
  rewrite updateClusterStatus_ok by by apply reliable_extend_links.
  cbn [fst snd ret]. rewrite extend_links_extend_links.
  cbn [w_now w_clusterLinks extend_links]. fold cl. fold (sync_error_msg err).
  destruct err as [e|]; cbn [when_err].
  - eexists. unfold klog_Errorf.
    rewrite klog_extend_links. cbn [fst snd ret]. reflexivity.
  - eexists. cbn [fst snd ret]. reflexivity.
Qed.

Lemma DiscoverServices_body_frame includedNS services entry w n :
  reliable w →
  n ≠ descriptor_name entry →
  let out := DiscoverServices_body includedNS services entry w in
  w_clusterLinks out.2 !! n = w_clusterLinks w !! n
  ∧ reliable out.2
  ∧ w_now out.2 = w_now w.
Proof.
  intros Hnf Hne out. subst out. destruct entry as [c info].
  destruct (DiscoverServices_body_run includedNS services c info w Hnf) as [lines ->].
  cbn [w_clusterLinks w_now extend_links].
  split; [by apply lookup_put_status_ne|]. split; [by apply reliable_extend_links|done].
Qed.

Lemma DiscoverServices_loop_frame includedNS entries services w n :
  reliable w →
  n ∉ map descriptor_name entries →
  let out := foldM (DiscoverServices_body includedNS) services entries w in
  w_clusterLinks out.2 !! n = w_clusterLinks w !! n
  ∧ reliable out.2
  ∧ w_now out.2 = w_now w.
Proof.
  revert services w. induction entries as [|entry entries IH]; intros services w Hnf Hn out.
  - done.
  - subst out. rewrite foldM_cons.
    apply not_elem_of_cons in Hn as [Hne Hn].
    destruct (DiscoverServices_body_frame includedNS services entry w n Hnf Hne)
      as (H1 & H2 & H3).
    destruct (IH (DiscoverServices_body includedNS services entry w).1
                 (DiscoverServices_body includedNS services entry w).2 H2 Hn)
      as (H1' & H2' & H3').
    cbn zeta in H1', H2', H3'.
    repeat split; [congruence | done | congruence].
Qed.

(** C8, as the code has it. When discovery in one cluster fails with an
    error e (the namespace list call or a service list call), the
    descriptor's stored status gets the error text "Service sync error: "
    followed by e, and stays connected; [DiscoverServices] itself returns
    nil and goes on with the other clusters. When it is the namespace
    list call that fails, the cluster contributes nothing: the output map
    is the one obtained without that cluster. *)
Theorem discovery_failure_scoping includedNamespaces pre clusterName clusterInfo post w e
    stored :
  let dname := v1alpha1.Name (clusterlink.ClusterLink clusterInfo) in
  let old := v1alpha1.Status (clusterlink.ClusterLink clusterInfo) in
  reliable w →
  w_clusterLinks w !! dname = Some stored →
  dname ∉ map descriptor_name (pre ++ post) →
  (∀ services w0,
     (discoverInCluster clusterName clusterInfo (v1alpha1.sets_New includedNamespaces)
        services w0).1.2 = Some e) →
  let out := DiscoverServices (pre ++ (clusterName, clusterInfo) :: post)
               includedNamespaces w in
  out.1.2 = None
  ∧ (v1alpha1.Status <$> w_clusterLinks out.2 !! dname)
    = Some {| v1alpha1.Connected := true;
              v1alpha1.LastConnected := Some (w_now w);
              v1alpha1.Error := "Service sync error: " +:+ err_msg e;
              v1alpha1.Version := v1alpha1.Version old;
              v1alpha1.Conditions :=
                [ {| v1alpha1.Type_ := v1alpha1.ClusterLinkReady;
                     v1alpha1.Status_ := v1alpha1.ConditionTrue;
                     v1alpha1.LastTransitionTime := w_now w;
                     v1alpha1.Reason := "Connected";
                     v1alpha1.Message := "Successfully connected to remote cluster" |} ] |}
  ∧ (Namespaces_List (clusterlink.Client_ clusterInfo) = Err e →
     out.1.1 = (DiscoverServices (pre ++ post) includedNamespaces w).1.1).
Proof.
  intros dname old Hnf Hk Hn Hfail out. subst out.
  unfold DiscoverServices. rewrite !run_bind. cbn [fst snd ret].
  split; [reflexivity|].
  set (incl := v1alpha1.sets_New includedNamespaces) in *.
  rewrite foldM_app, foldM_cons.
  rewrite map_app in Hn. apply not_elem_of_app in Hn as [Hpre Hpost].
  destruct (DiscoverServices_loop_frame incl pre ∅ w dname Hnf Hpre) as (Hl1 & Hnf1 & Hnow1).
  set (s1 := (foldM (DiscoverServices_body incl) ∅ pre w).1) in *.
  set (w1 := (foldM (DiscoverServices_body incl) ∅ pre w).2) in *.
  split.
  - destruct (DiscoverServices_body_run incl s1 clusterName clusterInfo w1 Hnf1)
      as [lines Hrun].
    destruct (DiscoverServices_loop_frame incl post
                (DiscoverServices_body incl s1 (clusterName, clusterInfo) w1).1
                (DiscoverServices_body incl s1 (clusterName, clusterInfo) w1).2 dname)
      as (Hl2 & _ & _).
    { rewrite Hrun. by apply reliable_extend_links. }
    { exact Hpost. }
    cbn zeta in Hl2. rewrite Hl2, Hrun. cbn [w_clusterLinks extend_links].
    fold dname. rewrite (lookup_put_status_eq _ _ _ stored) by by rewrite Hl1.
    cbn [fmap option_fmap option_map v1alpha1.Status].
    rewrite Hfail, Hnow1. reflexivity.
  - intros Hns.
    rewrite DiscoverServices_body_value. cbn [fst snd].
    rewrite (discoverInCluster_namespaces_fail _ _ _ _ _ e Hns). cbn [fst].
    rewrite foldM_app. fold s1 w1.
    destruct (DiscoverServices_loop_pure incl post s1) as [v Hv].
    by rewrite !Hv.
Qed.

Lemma discovery_failure_scoping_witness :
  let east := examples.info "east" examples.unreachable in
  let west := examples.info "west" (examples.remote "web" [examples.webSlice]) in
  let w := examples.world_links [examples.link "east"; examples.link "west"] in
  let out := DiscoverServices [("east", east); ("west", west)] [] w in
  reliable w
  ∧ (v1alpha1.Error <$> (v1alpha1.Status <$> w_clusterLinks out.2 !! "east"))
    = Some "Service sync error: dial tcp: i/o timeout"
  ∧ out.1.1 = (DiscoverServices [("west", west)] [] w).1.1.
Proof.
  intros east west w out.
  assert (Hnf : reliable w) by (intros c; reflexivity).
  split; [exact Hnf|].
  destruct (discovery_failure_scoping [] [] "east" east [("west", west)] w
              (server_error "dial tcp: i/o timeout") (examples.link "east"))
    as (_ & Hst & Hmap).
  - exact Hnf.
  - by_compute.
  - by_compute.
  - intros services w0. reflexivity.
  - split.
    + exact (f_equal (fmap v1alpha1.Error) Hst).
    + apply Hmap. reflexivity.
Defined.

(** C8 as specified fails. The cluster lists namespace a with
    the service web, and its service list call for namespace b fails:
    the stored error text is "Service sync error: boom", and the output
    map has a/web with this cluster as its contributor. *)
Lemma discovery_failure_partial_result :
  let east := examples.info "east" examples.half_listed in
  let w := examples.world_links [examples.link "east"] in
  let out := DiscoverServices [("east", east)] [] w in
  Services_List examples.half_listed "b" = Err (server_error "boom")
  ∧ (v1alpha1.Error <$> (v1alpha1.Status <$> w_clusterLinks out.2 !! "east"))
    = Some "Service sync error: boom"
  ∧ (Clusters <$> out.1.1 !! "a/web") = Some ["east"]
  ∧ ¬ (∃ text, (v1alpha1.Error <$> (v1alpha1.Status <$> w_clusterLinks out.2 !! "east"))
               = Some ("discovery error: " +:+ text)).
Proof.
  intros east w out.
  assert (Herr : (v1alpha1.Error <$> (v1alpha1.Status <$> w_clusterLinks out.2 !! "east"))
                 = Some "Service sync error: boom") by by_compute.
  split; [reflexivity|]. split; [exact Herr|]. split; [by_compute|].
  intros [text Ht]. rewrite Herr in Ht. discriminate Ht.
Qed.

End Discoverer.

(** ** One cycle with a disabled descriptor *)

(** The registry, the discoverer and the per-service part of the cycle,
    one after the other, on a local cluster whose only descriptor is
    disabled: the service of the remote cluster is discovered with the
    disabled cluster as contributor, and its slice is created. *)
Example disabled_cluster_is_synced :
  let libs := examples.libs (examples.remote "web" [examples.webSlice]) in
  let listed := clusterlink.ListClusterInfo libs examples.world_disabled in
  let clusterInfos := match listed.1 with Ok m => m | Err _ => ∅ end in
  let discovered := discoverer.DiscoverServices (map_to_list clusterInfos) [] listed.2 in
  let synced := controller.sync_services (map_to_list discovered.1.1) clusterInfos
                  discovered.2 in
  (discoverer.Clusters <$> discovered.1.1 !! "default/web") = Some ["west"]
  ∧ List.filter is_write (w_calls synced.2) = [CreateSlice "default" "web-svclink-west"]
  ∧ is_Some (w_slices synced.2 !! ("default", "web-svclink-west")).
Proof. repeat split; by_compute. Qed.

(** * Further properties of the code *)

(** ** Filter policy, in terms of the lists of the descriptor *)

Lemma sets_New_elem (xs : list string) x : x ∈ v1alpha1.sets_New xs ↔ x ∈ xs.
Proof. unfold v1alpha1.sets_New. apply elem_of_list_to_set. Qed.

Lemma sets_New_size_pos (xs : list string) : 0 < size (v1alpha1.sets_New xs) ↔ xs ≠ [].
Proof.
  split.
  - intros Hs ->. unfold v1alpha1.sets_New in Hs. cbn in Hs.
    rewrite size_empty in Hs. lia.
  - intros Hne. destruct xs as [|x xs]; [done|].
    assert (Hx : x ∈ v1alpha1.sets_New (x :: xs)) by (apply sets_New_elem, list_elem_of_here).
    destruct (size (v1alpha1.sets_New (x :: xs))) eqn:Hsz; [|lia].
    apply size_empty_inv in Hsz. apply Hsz in Hx. by apply not_elem_of_empty in Hx.
Qed.

(** X1. With the sets computed from the descriptor, a namespace is
    excluded exactly when it is kube-system, or is listed in
    ExcludedNamespaces, or IncludedNamespaces is not empty and does not
    list it: exclusion wins over inclusion, and an empty inclusion list
    restricts nothing. *)
Theorem namespace_filter_characterised (cls : v1alpha1.ClusterLinkSpec) (namespace : string) :
  v1alpha1.ShouldExcludeNamespace cls namespace
    (v1alpha1.ToExcludedNamespaceSet cls) (v1alpha1.ToIncludedNamespaceSet cls) = true
  ↔ namespace = "kube-system"
    ∨ namespace ∈ v1alpha1.ExcludedNamespaces cls
    ∨ (v1alpha1.IncludedNamespaces cls ≠ [] ∧ namespace ∉ v1alpha1.IncludedNamespaces cls).
Proof.
  unfold v1alpha1.ShouldExcludeNamespace, v1alpha1.ToExcludedNamespaceSet,
    v1alpha1.ToIncludedNamespaceSet.
  case_bool_decide as Hex.
  - split; [intros _|done].
    apply elem_of_union in Hex as [Hex%elem_of_singleton | Hex%sets_New_elem]; auto.
  - assert (Hn1 : namespace ≠ "kube-system").
    { intros ->. apply Hex, elem_of_union_l, elem_of_singleton_2. reflexivity. }
    assert (Hn2 : namespace ∉ v1alpha1.ExcludedNamespaces cls).
    { intros H. by apply Hex, elem_of_union_r, sets_New_elem. }
    destruct (bool_decide (0 < size _) && negb (bool_decide (namespace ∈ _))) eqn:Hin.
    + split; [intros _|done]. right. right.
      apply andb_true_iff in Hin as [H1%bool_decide_eq_true H2%negb_true_iff].
      apply bool_decide_eq_false in H2.
      split; [by apply sets_New_size_pos|]. intros H. by apply H2, sets_New_elem.
    + split; [done|]. intros [H|[H|[H1 H2]]]; [done|done|].
      apply andb_false_iff in Hin as [Hin%bool_decide_eq_false | Hin%negb_false_iff].
      * exfalso. by apply Hin, sets_New_size_pos.
      * exfalso. apply bool_decide_eq_true in Hin. by apply H2, sets_New_elem.
Qed.

(** X2. With the sets computed from the descriptor, a service is
    excluded exactly when namespace/name is listed in ExcludedServices,
    or its name is kubernetes, or its name is listed in
    ExcludedServiceNames; the namespace plays no part in the last two. *)
Theorem service_filter_characterised (cls : v1alpha1.ClusterLinkSpec)
    (namespace serviceName : string) :
  v1alpha1.ShouldExcludeService cls namespace serviceName
    (v1alpha1.ToExcludedServiceSet cls) (v1alpha1.ToExcludedServiceNameSet cls) = true
  ↔ namespace +:+ "/" +:+ serviceName ∈ v1alpha1.ExcludedServices cls
    ∨ serviceName = "kubernetes"
    ∨ serviceName ∈ v1alpha1.ExcludedServiceNames cls.
Proof.
  unfold v1alpha1.ShouldExcludeService, v1alpha1.ToExcludedServiceSet,
    v1alpha1.ToExcludedServiceNameSet.
  case_bool_decide as Hfull.
  - split; [intros _|done]. left. by apply sets_New_elem.
  - assert (Hn : namespace +:+ "/" +:+ serviceName ∉ v1alpha1.ExcludedServices cls).
    { intros H. by apply Hfull, sets_New_elem. }
    case_bool_decide as Hname.
    + split; [intros _|done].
      apply elem_of_union in Hname as [H%elem_of_singleton | H%sets_New_elem]; auto.
    + split; [done|]. intros [H|[->|H]]; [done| |]; exfalso.
      * apply Hname, elem_of_union_l, elem_of_singleton_2. reflexivity.
      * by apply Hname, elem_of_union_r, sets_New_elem.
Qed.

(** ** Discovery: what every record of the output map satisfies *)

Section DiscoveryInvariant.

Import discoverer.

Lemma kube_system_always_excluded cls :
  v1alpha1.ShouldExcludeNamespace cls "kube-system"
    (v1alpha1.ToExcludedNamespaceSet cls) (v1alpha1.ToIncludedNamespaceSet cls) = true.
Proof.
  unfold v1alpha1.ShouldExcludeNamespace, v1alpha1.ToExcludedNamespaceSet.
  rewrite bool_decide_eq_true_2; [reflexivity|].
  apply elem_of_union_l, elem_of_singleton_2. reflexivity.
Qed.

Lemma kubernetes_always_excluded cls namespace :
  v1alpha1.ShouldExcludeService cls namespace "kubernetes"
    (v1alpha1.ToExcludedServiceSet cls) (v1alpha1.ToExcludedServiceNameSet cls) = true.
Proof.
  unfold v1alpha1.ShouldExcludeService, v1alpha1.ToExcludedServiceNameSet.
  case_bool_decide; [reflexivity|].
  rewrite bool_decide_eq_true_2; [reflexivity|].
  apply elem_of_union_l, elem_of_singleton_2. reflexivity.
Qed.

Variables (incl : gset string) (entries : list (string * clusterlink.ClusterInfo)).
Variables (clusterName : string) (clusterInfo : clusterlink.ClusterInfo).
Hypothesis Hentry : (clusterName, clusterInfo) ∈ entries.

Lemma addService_records_ok namespace services svc nss :
  Namespaces_List (clusterlink.Client_ clusterInfo) = Ok nss →
  v1alpha1.ShouldExcludeNamespace
    (v1alpha1.Spec (clusterlink.ClusterLink clusterInfo)) namespace
    (v1alpha1.ToExcludedNamespaceSet (v1alpha1.Spec (clusterlink.ClusterLink clusterInfo)))
    (v1alpha1.ToIncludedNamespaceSet (v1alpha1.Spec (clusterlink.ClusterLink clusterInfo)))
  = false →
  (0 < size incl → namespace ∈ incl) →
  records_ok incl entries services →
  records_ok incl entries (addService clusterName clusterInfo namespace services svc).
Proof.
  intros Hns Hnsx Hincl Hok. unfold addService.
  destruct (v1alpha1.ShouldExcludeService _ _ _ _ _) eqn:Hsx; [exact Hok|].
  assert (Hn1 : namespace ≠ "kube-system").
  { intros ->. by rewrite kube_system_always_excluded in Hnsx. }
  assert (Hn2 : svc_Name svc ≠ "kubernetes").
  { intros Heq. rewrite Heq in Hsx. by rewrite kubernetes_always_excluded in Hsx. }
  intros key info. destruct (decide (key = namespace +:+ "/" +:+ svc_Name svc)) as [->|Hne].
  - rewrite lookup_insert_eq. intros [= <-].
    destruct (services !! (namespace +:+ "/" +:+ svc_Name svc)) as [old|] eqn:Hold; cbn.
    + destruct (Hok _ _ Hold) as (H1 & H2 & H3 & H4 & H5 & H6 & H7).
      repeat split; try done.
      * by intros [? ?]%app_eq_nil.
      * intros c [Hc|Hc%list_elem_of_singleton]%elem_of_app; [by apply H7|].
        subst c. by exists clusterInfo, nss.
    + repeat split; try done.
      intros c Hc%list_elem_of_singleton. subst c. by exists clusterInfo, nss.
  - rewrite lookup_insert_ne by done. apply Hok.
Qed.

Lemma discoverInCluster_loop_records_ok nss0 namespaces :
  Namespaces_List (clusterlink.Client_ clusterInfo) = Ok nss0 →
  ∀ services w,
    records_ok incl entries services →
    records_ok incl entries
      (discoverInCluster_loop clusterName clusterInfo incl namespaces services w).1.1.
Proof.
  intros Hns. induction namespaces as [|ns namespaces IH]; intros services w Hok;
    cbn [discoverInCluster_loop]; [exact Hok|].
  destruct (bool_decide (0 < size incl) && negb (bool_decide (ns ∈ incl))) eqn:Hg;
    [by apply IH|].
  destruct (v1alpha1.ShouldExcludeNamespace _ _ _ _) eqn:Hx; [by apply IH|].
  destruct (Services_List _ _) as [svcList|e].
  - apply IH. clear IH.
    assert (Hincl : 0 < size incl → ns ∈ incl).
    { intros Hpos. apply andb_false_iff in Hg as [Hg%bool_decide_eq_false|Hg%negb_false_iff];
        [done|]. by apply bool_decide_eq_true in Hg. }
    revert services Hok. induction svcList as [|svc svcList IHs]; intros services Hok;
      [exact Hok|].
    cbn [foldl]. apply IHs. by eapply addService_records_ok.
  - rewrite run_bind. exact Hok.
Qed.

Lemma discoverInCluster_records_ok services w :
  records_ok incl entries services →
  records_ok incl entries
    (discoverInCluster clusterName clusterInfo incl services w).1.1.
Proof.
  intros Hok. unfold discoverInCluster.
  destruct (Namespaces_List _) as [nss|e] eqn:Hns.
  - by eapply discoverInCluster_loop_records_ok.
  - rewrite run_bind. exact Hok.
Qed.

End DiscoveryInvariant.

Lemma DiscoverServices_loop_records_ok incl entries part services w :
  part ⊆ entries →
  records_ok incl entries services →
  records_ok incl entries
    (foldM (discoverer.DiscoverServices_body incl) services part w).1.
Proof.
  revert services w. induction part as [|[c ci] part IH]; intros services w Hsub Hok;
    [exact Hok|].
  rewrite foldM_cons. apply IH.
  - intros x Hx. by apply Hsub, list_elem_of_further.
  - rewrite DiscoverServices_body_value. cbn [fst snd].
    apply discoverInCluster_records_ok; [|exact Hok].
    apply Hsub, list_elem_of_here.
Qed.

Lemma DiscoverServices_records_ok clusterInfos includedNamespaces w :
  records_ok (v1alpha1.sets_New includedNamespaces) clusterInfos
    (discoverer.DiscoverServices clusterInfos includedNamespaces w).1.1.
Proof.
  unfold discoverer.DiscoverServices. rewrite run_bind. cbn [fst snd ret].
  apply DiscoverServices_loop_records_ok; [done|].
  intros key info Hk. by rewrite lookup_empty in Hk.
Qed.

(** X3. Every record of the map [DiscoverServices] returns is stored
    under namespace/name, is not in the namespace kube-system, is not
    named kubernetes, has at least one contributing cluster and a service
    snapshot, whatever the descriptors' filter lists and the global
    namespace list say and whichever remote calls fail. *)
Theorem discovered_records_wellformed clusterInfos includedNamespaces w key info :
  (discoverer.DiscoverServices clusterInfos includedNamespaces w).1.1 !! key = Some info →
  key = discoverer.Namespace info +:+ "/" +:+ discoverer.Name info
  ∧ discoverer.Namespace info ≠ "kube-system"
  ∧ discoverer.Name info ≠ "kubernetes"
  ∧ discoverer.Clusters info ≠ []
  ∧ is_Some (discoverer.Service_ info).
Proof.
  intros Hk.
  destruct (DiscoverServices_records_ok clusterInfos includedNamespaces w key info Hk)
    as (H1 & H2 & H3 & H4 & H5 & _).
  done.
Qed.

Lemma discovered_records_wellformed_witness :
  (discoverer.DiscoverServices scenarios.east_only [] examples.world0).1.1 !! "default/web"
  = Some scenarios.found_web
  ∧ discoverer.Clusters scenarios.found_web ≠ [].
Proof.
  assert (Hk : (discoverer.DiscoverServices scenarios.east_only [] examples.world0).1.1
               !! "default/web" = Some scenarios.found_web) by by_compute.
  split; [exact Hk|].
  exact (proj1 (proj2 (proj2 (proj2
           (discovered_records_wellformed _ _ _ _ _ Hk))))).
Defined.


(** X4. Every contributor named in a record of the output map is one of
    the clusters given to [DiscoverServices], and one whose namespace
    list call succeeded. *)
Theorem discovered_contributors_are_listed_clusters clusterInfos includedNamespaces w
    key info c :
  (discoverer.DiscoverServices clusterInfos includedNamespaces w).1.1 !! key = Some info →
  c ∈ discoverer.Clusters info →
  ∃ clusterInfo namespaces,
    (c, clusterInfo) ∈ clusterInfos
    ∧ Namespaces_List (clusterlink.Client_ clusterInfo) = Ok namespaces.
Proof.
  intros Hk Hc.
  destruct (DiscoverServices_records_ok clusterInfos includedNamespaces w key info Hk)
    as (_ & _ & _ & _ & _ & _ & H7).
  by apply H7.
Qed.

Lemma discovered_contributors_are_listed_clusters_witness :
  ∃ clusterInfo namespaces,
    ("east", clusterInfo) ∈ scenarios.east_only
    ∧ Namespaces_List (clusterlink.Client_ clusterInfo) = Ok namespaces.
Proof.
  apply (discovered_contributors_are_listed_clusters scenarios.east_only [] examples.world0
           "default/web" scenarios.found_web "east").
  - by_compute.
  - apply list_elem_of_here.
Defined.


(** X5. When the global namespace list is not empty, every record of the
    output map is in one of its namespaces, whatever the descriptors'
    own inclusion lists say. *)
Theorem discovered_within_global_namespaces clusterInfos includedNamespaces w key info :
  includedNamespaces ≠ [] →
  (discoverer.DiscoverServices clusterInfos includedNamespaces w).1.1 !! key = Some info →
  discoverer.Namespace info ∈ includedNamespaces.
Proof.
  intros Hne Hk.
  destruct (DiscoverServices_records_ok clusterInfos includedNamespaces w key info Hk)
    as (_ & _ & _ & _ & _ & H6 & _).
  apply sets_New_elem, H6. by apply sets_New_size_pos.
Qed.

Lemma discovered_within_global_namespaces_witness :
  discoverer.Namespace scenarios.found_web ∈ ["default"; "prod"].
Proof.
  apply (discovered_within_global_namespaces scenarios.east_only ["default"; "prod"]
           examples.world0 "default/web" scenarios.found_web).
  - discriminate.
  - by_compute.
Defined.


(** ** What the components leave alone, whatever fails *)

#[global] Instance same_env_preorder : PreOrder same_env.
Proof.
  split.
  - by intros w.
  - intros w1 w2 w3 (H1 & H2 & H3) (H1' & H2' & H3'). repeat split; congruence.
Qed.

#[global] Instance keeps_slices_preorder : PreOrder keeps_slices.
Proof.
  split.
  - intros w. split; [reflexivity|]. by split.
  - intros w1 w2 w3 (H1 & H2 & H3) (H1' & H2' & H3').
    split; [by etrans|]. split; [congruence|]. intros n. by rewrite H3', H3.
Qed.

Section Frames.

Context (R : World → World → Prop) `{!PreOrder R}.

Lemma respects_ret {A} (a : A) : respects R (ret a).
Proof. intros w. reflexivity. Qed.

Lemma respects_bind {A B} (m : M A) (k : A → M B) :
  respects R m → (∀ a, respects R (k a)) → respects R (bind m k).
Proof. intros Hm Hk w. rewrite run_bind. etrans; [apply Hm | apply Hk]. Qed.

Lemma respects_when_err r k : (∀ e, respects R (k e)) → respects R (when_err r k).
Proof. intros Hk. destruct r; cbn; [apply Hk | apply respects_ret]. Qed.

Lemma respects_foldM {A B} (body : A → B → M A) acc xs :
  (∀ a x, respects R (body a x)) → respects R (foldM body acc xs).
Proof.
  intros Hb. revert acc. induction xs as [|x xs IH]; intros acc; cbn [foldM].
  - apply respects_ret.
  - apply respects_bind; [apply Hb | intros a; apply IH].
Qed.

Lemma respects_api {A} c (body : M (result A)) :
  (∀ w, R w (record_call c w)) → respects R body → respects R (api c body).
Proof.
  intros Hc Hb w. unfold api. destruct (w_faults w c); [apply Hc|].
  etrans; [apply Hc | apply Hb].
Qed.

End Frames.

Lemma keeps_slices_klog lvl line : respects keeps_slices (klog lvl line).
Proof. intros w. split; [done|]. by split. Qed.

Lemma keeps_slices_call c w : keeps_slices w (record_call c w).
Proof. split; [done|]. by split. Qed.


Section RegistryFrame.

Import clusterlink.

Lemma keeps_slices_Status_Update cl : respects keeps_slices (kubeClient.Status_Update cl).
Proof.
  unfold kubeClient.Status_Update. apply respects_api; [apply _ | apply keeps_slices_call |].
  intros w. destruct (w_clusterLinks w !! v1alpha1.Name cl) as [old|] eqn:Hold; cbn;
    [|reflexivity].
  split; [done|]. split; [done|]. intros name. cbn.
  destruct (decide (name = v1alpha1.Name cl)) as [->|Hne].
  - by rewrite lookup_insert_eq, Hold.
  - by rewrite lookup_insert_ne.
Qed.

Lemma keeps_slices_updateClusterStatus cluster connected version errorMsg :
  respects keeps_slices (updateClusterStatus cluster connected version errorMsg).
Proof.
  unfold updateClusterStatus, buildConditions, time_Now.
  apply respects_bind; [apply _ | |].
  { destruct connected; intros w; reflexivity. }
  intros lastConnected. apply respects_bind; [apply _ | |].
  { intros w. cbn. destruct connected; [reflexivity|]. case_bool_decide; reflexivity. }
  intros conditions. apply respects_bind; [apply _ | apply keeps_slices_Status_Update |].
  intros [[]|e]; [apply respects_ret; apply _|].
  apply respects_bind; [apply _ | | intros; apply respects_ret; apply _].
  destruct (negb _); [apply keeps_slices_klog | apply respects_ret; apply _].
Qed.

Lemma keeps_slices_ListClusterInfo_body libs clusterInfos clusterLink :
  respects keeps_slices (ListClusterInfo_body libs clusterInfos clusterLink).
Proof.
  unfold ListClusterInfo_body.
  destruct (DecodeString libs _) as [data|e].
  - destruct (buildClientWithVersion libs data) as [[client version]|e].
    + apply respects_bind; [apply _ | apply keeps_slices_updateClusterStatus |].
      intros; apply respects_ret; apply _.
    + apply respects_bind; [apply _ | apply keeps_slices_klog |]. intros _.
      apply respects_bind; [apply _ | apply keeps_slices_updateClusterStatus |].
      intros; apply respects_ret; apply _.
  - apply respects_bind; [apply _ | apply keeps_slices_klog |]. intros _.
    apply respects_bind; [apply _ | apply keeps_slices_updateClusterStatus |].
    intros; apply respects_ret; apply _.
Qed.

Lemma keeps_slices_ListClusterInfo libs : respects keeps_slices (ListClusterInfo libs).
Proof.
  unfold ListClusterInfo. apply respects_bind; [apply _ | |].
  - unfold kubeClient.List_ClusterLinks.
    apply respects_api; [apply _ | apply keeps_slices_call |]. intros w. reflexivity.
  - intros [items|e]; [|apply respects_ret; apply _].
    apply respects_bind; [apply _ | | intros; apply respects_ret; apply _].
    apply respects_foldM; [apply _|]. intros. apply keeps_slices_ListClusterInfo_body.
Qed.

Lemma keeps_slices_discoverInCluster clusterName clusterInfo incl services :
  respects keeps_slices (discoverer.discoverInCluster clusterName clusterInfo incl services).
Proof.
  intros w.
  destruct (discoverInCluster_pure clusterName clusterInfo incl services)
    as (v & lines & ->).
  split; [done|]. by split.
Qed.

Lemma keeps_slices_DiscoverServices clusterInfos includedNamespaces :
  respects keeps_slices (discoverer.DiscoverServices clusterInfos includedNamespaces).
Proof.
  unfold discoverer.DiscoverServices.
  apply respects_bind; [apply _ | | intros; apply respects_ret; apply _].
  apply respects_foldM; [apply _|]. intros services [c ci].
  unfold discoverer.DiscoverServices_body.
  apply respects_bind; [apply _ | apply keeps_slices_discoverInCluster |].
  intros [services' err].
  apply respects_bind; [apply _ | |].
  { unfold UpdateClusterSyncError.
    apply respects_bind; [apply _ | apply keeps_slices_updateClusterStatus |].
    intros; apply respects_ret; apply _. }
  intros _. apply respects_bind; [apply _ | | intros; apply respects_ret; apply _].
  apply respects_when_err; [apply _|]. intros e. apply keeps_slices_klog.
Qed.

(** X6. The registry and the discoverer never change a local service or
    a managed slice, never add or remove a descriptor and never change a
    descriptor's spec, whichever of their calls fail and whatever
    cluster infos the discoverer is given: of the local cluster only the
    status of descriptors is written. *)
Theorem registry_and_discovery_write_status_only libs clusterInfos includedNamespaces w :
  let w1 := (ListClusterInfo libs w).2 in
  let w' := (discoverer.DiscoverServices clusterInfos includedNamespaces w1).2 in
  w_services w' = w_services w
  ∧ w_slices w' = w_slices w
  ∧ ∀ name, (v1alpha1.Spec <$> w_clusterLinks w' !! name)
            = (v1alpha1.Spec <$> w_clusterLinks w !! name).
Proof.
  intros w1 w'.
  assert (H : keeps_slices w w').
  { etrans; [apply (keeps_slices_ListClusterInfo libs w)|].
    apply keeps_slices_DiscoverServices. }
  destruct H as ((H1 & _ & _) & H2 & H3). by repeat split.
Qed.

End RegistryFrame.

(** ** Cluster registry: the output map *)

Section RegistryOutput.

Import clusterlink.

Lemma updateClusterStatus_value cluster connected version errorMsg w :
  (updateClusterStatus cluster connected version errorMsg w).1
  = {| v1alpha1.Name := v1alpha1.Name cluster; v1alpha1.Spec := v1alpha1.Spec cluster;
       v1alpha1.Status :=
         status_at (w_now w) (v1alpha1.Status cluster) connected version errorMsg |}.
Proof.
  unfold updateClusterStatus. rewrite run_bind.
  assert (Hlc : (if connected then bind time_Now (λ now, ret (Some now))
                 else ret (v1alpha1.LastConnected (v1alpha1.Status cluster))) w
                = (if connected then Some (w_now w)
                   else v1alpha1.LastConnected (v1alpha1.Status cluster), w)).
  { by destruct connected. }
  rewrite Hlc. cbn [fst snd]. rewrite run_bind, buildConditions_run. cbn [fst snd].
  rewrite run_bind.
  destruct (kubeClient.Status_Update _ w) as [[[]|e] w1]; cbn [fst snd]; [done|].
  by rewrite run_bind.
Qed.

Lemma ListClusterInfo_body_value libs clusterInfos clusterLink w :
  (ListClusterInfo_body libs clusterInfos clusterLink w).1
  = match connect libs (w_now w) clusterLink with
    | Some info => <[ v1alpha1.Name clusterLink := info ]> clusterInfos
    | None => clusterInfos
    end.
Proof.
  unfold ListClusterInfo_body, connect.
  destruct (DecodeString libs _) as [data|e].
  - destruct (buildClientWithVersion libs data) as [[client version]|e].
    + rewrite run_bind. cbn [fst snd ret]. by rewrite updateClusterStatus_value.
    + by rewrite !run_bind.
  - by rewrite !run_bind.
Qed.

Lemma ListClusterInfo_loop_value libs items clusterInfos w :
  (foldM (ListClusterInfo_body libs) clusterInfos items w).1
  = foldl (connect_step libs (w_now w)) clusterInfos items.
Proof.
  revert clusterInfos w. induction items as [|cl items IH]; intros infos w; [done|].
  rewrite foldM_cons, IH, ListClusterInfo_body_value. cbn [foldl]. unfold connect_step at 3.
  destruct (keeps_slices_ListClusterInfo_body libs infos cl w) as ((_ & -> & _) & _).
  reflexivity.
Qed.

Lemma lookup_connect_fold_ne libs now items clusterInfos name :
  name ∉ map v1alpha1.Name items →
  foldl (connect_step libs now) clusterInfos items !! name = clusterInfos !! name.
Proof.
  revert clusterInfos. induction items as [|cl items IH]; intros infos Hn; [done|].
  apply not_elem_of_cons in Hn as [Hne Hn]. cbn [foldl]. rewrite IH by done.
  unfold connect_step. destruct (connect libs now cl); [|done].
  by rewrite lookup_insert_ne.
Qed.

Lemma listing_names (links : gmap string v1alpha1.ClusterLink) :
  map v1alpha1.Name (map (fun '(k, cl) => link_at k cl) (map_to_list links))
  = (map_to_list links).*1.
Proof.
  induction (map_to_list links) as [|[k cl] l IH]; cbn; [done|]. by rewrite IH.
Qed.

(** X7. When the list call for the descriptors succeeds,
    [ListClusterInfo] returns a map that has, for each stored descriptor,
    an entry exactly when its kubeconfig decodes and a client can be
    built from it, and no other entry; the entry has the descriptor's
    name and enabled flag, that client, and the connected status of this
    cycle. This holds whether or not the status updates succeed, and one
    descriptor's failure does not affect another's entry. *)
Theorem registry_output_characterised libs w :
  w_faults w ListClusterLinks = None →
  ∃ clusterInfos,
    (ListClusterInfo libs w).1 = Ok clusterInfos
    ∧ ∀ name,
        clusterInfos !! name
        = stored ← w_clusterLinks w !! name; connect libs (w_now w) (link_at name stored).
Proof.
  intros Hlist. unfold ListClusterInfo, kubeClient.List_ClusterLinks, api.
  rewrite run_bind, Hlist. cbn [fst snd]. rewrite run_bind. cbn [fst snd ret].
  eexists. split; [reflexivity|]. intros name.
  rewrite ListClusterInfo_loop_value. cbn [w_now record_call].
  destruct (w_clusterLinks w !! name) as [stored|] eqn:Hk; cbn.
  - destruct (listing_split _ _ _ Hk) as (pre & post & -> & Hpre & Hpost).
    rewrite foldl_app. cbn [foldl]. rewrite lookup_connect_fold_ne by done.
    unfold connect_step at 1. cbn [link_at v1alpha1.Name].
    destruct (connect libs (w_now w) (link_at name stored)) as [info|].
    + by rewrite lookup_insert_eq.
    + rewrite lookup_connect_fold_ne by done. apply lookup_empty.
  - rewrite lookup_connect_fold_ne; [apply lookup_empty|].
    rewrite listing_names. intros Hin.
    apply list_elem_of_fmap in Hin as ([k cl] & -> & Hin).
    apply elem_of_map_to_list in Hin. cbn in Hk. by rewrite Hin in Hk.
Qed.

Lemma registry_output_characterised_witness :
  let libs := examples.libs (examples.remote "web" [examples.webSlice]) in
  let w := examples.world_links [examples.link "east"; examples.disabled_link] in
  ∃ clusterInfos,
    (ListClusterInfo libs w).1 = Ok clusterInfos
    ∧ ∀ name,
        clusterInfos !! name
        = stored ← w_clusterLinks w !! name; connect libs (w_now w) (link_at name stored).
Proof.
  intros libs w. apply (registry_output_characterised libs w). reflexivity.
Defined.


End RegistryOutput.

(** ** The filter on the local services and the grouping by namespace *)

Section LocalFilter.

Import controller.

Lemma localServices_elem (includedNSSet : gset string) (items : list Service)
    (acc : gset string) key :
  key ∈ foldl (fun localServices svc =>
                 if bool_decide (0 < size includedNSSet)
                    && negb (bool_decide (svc_Namespace svc ∈ includedNSSet))
                 then localServices
                 else {[ svc_Namespace svc +:+ "/" +:+ svc_Name svc ]} ∪ localServices)
              acc items
  ↔ key ∈ acc
    ∨ ∃ svc, svc ∈ items
             ∧ key = svc_Namespace svc +:+ "/" +:+ svc_Name svc
             ∧ (¬ 0 < size includedNSSet ∨ svc_Namespace svc ∈ includedNSSet).
Proof.
  revert acc. induction items as [|svc items IH]; intros acc; cbn [foldl].
  - split; [by left|]. intros [H|(svc & H & _)]; [done|]. by apply elem_of_nil in H.
  - rewrite IH. split.
    + intros [H|(svc' & Hin & Hk & Hns)].
      * destruct (bool_decide (0 < size includedNSSet)) eqn:Hsz;
          destruct (bool_decide (svc_Namespace svc ∈ includedNSSet)) eqn:Hm;
          cbn [andb negb] in H.
        -- apply elem_of_union in H as [H|H]; [|by left].
           apply elem_of_singleton in H. right. exists svc.
           split; [apply list_elem_of_here|]. split; [done|].
           right. by apply bool_decide_eq_true in Hm.
        -- by left.
        -- apply elem_of_union in H as [H|H]; [|by left].
           apply elem_of_singleton in H. right. exists svc.
           split; [apply list_elem_of_here|]. split; [done|].
           left. by apply bool_decide_eq_false in Hsz.
        -- apply elem_of_union in H as [H|H]; [|by left].
           apply elem_of_singleton in H. right. exists svc.
           split; [apply list_elem_of_here|]. split; [done|].
           left. by apply bool_decide_eq_false in Hsz.
      * right. exists svc'. split; [by apply list_elem_of_further|done].
    + intros [H|(svc' & Hin & Hk & Hns)].
      * left. destruct (_ && _); [done|]. by apply elem_of_union_r.
      * apply elem_of_cons in Hin as [->|Hin].
        -- left.
           assert (Hb : bool_decide (0 < size includedNSSet)
                        && negb (bool_decide (svc_Namespace svc ∈ includedNSSet)) = false).
           { destruct Hns as [Hns|Hns].
             - by rewrite (bool_decide_eq_false_2 _ Hns).
             - rewrite (bool_decide_eq_true_2 _ Hns). apply andb_false_r. }
           rewrite Hb. apply elem_of_union_l, elem_of_singleton_2. exact Hk.
        -- right. exists svc'. done.
Qed.

(** X8. When the list call succeeds, the filter keeps a discovered
    service exactly when a service of the local cluster has its key
    namespace/name and, if the global namespace list is not empty, is in
    one of its namespaces; a kept record is the discovered one,
    unchanged. When the list call fails, its error is returned and no
    map. *)
Theorem local_filter_characterised items includedNamespaces services :
  (∃ filtered,
     filterServicesExistingInLocalCluster (Ok items) includedNamespaces services = Ok filtered
     ∧ ∀ key info,
         filtered !! key = Some info
         ↔ services !! key = Some info
           ∧ ∃ svc, svc ∈ items
                    ∧ key = svc_Namespace svc +:+ "/" +:+ svc_Name svc
                    ∧ (includedNamespaces = [] ∨ svc_Namespace svc ∈ includedNamespaces))
  ∧ ∀ e, filterServicesExistingInLocalCluster (Err e) includedNamespaces services = Err e.
Proof.
  split; [|reflexivity].
  eexists. split; [reflexivity|]. intros key info.
  rewrite map_lookup_filter_Some. cbn [fst]. rewrite localServices_elem.
  split.
  - intros (Hs & [H|(svc & Hin & Hk & Hns)]); [by apply elem_of_empty in H|].
    split; [done|]. exists svc. split; [done|]. split; [done|].
    destruct Hns as [Hns|Hns].
    + left. destruct includedNamespaces as [|n l]; [done|].
      exfalso. apply Hns. apply sets_New_size_pos. discriminate.
    + right. by apply sets_New_elem.
  - intros (Hs & svc & Hin & Hk & Hns). split; [done|]. right.
    exists svc. split; [done|]. split; [done|].
    destruct Hns as [->|Hns].
    + left. intros H. by apply sets_New_size_pos in H.
    + right. by apply sets_New_elem.
Qed.

End LocalFilter.

Section Grouping.

Import service_updater.

Lemma groupServicesByNamespace_fold (services : list (string * discoverer.ServiceInfo))
    (acc : gmap string (list string)) ns :
  foldl (fun namespaceServiceMap '(_, serviceInfo) =>
           let ns := discoverer.Namespace serviceInfo in
           let names := default [] (namespaceServiceMap !! ns) in
           <[ ns := names ++ [discoverer.Name serviceInfo] ]> namespaceServiceMap)
        acc services !! ns
  = match discoverer.Name <$> filter (fun i => discoverer.Namespace i = ns) services.*2 with
    | [] => acc !! ns
    | names => Some (default [] (acc !! ns) ++ names)
    end.
Proof.
  revert acc. induction services as [|[k i] services IH]; intros acc; [done|].
  cbn [foldl fmap list_fmap snd]. rewrite IH. cbn zeta.
  destruct (decide (discoverer.Namespace i = ns)) as [Hns|Hns].
  - rewrite filter_cons_True by done. rewrite Hns, lookup_insert_eq. cbn [fmap list_fmap default].
    destruct (discoverer.Name <$> filter _ _) as [|n names]; cbn [default].
    + done.
    + unfold id. by rewrite <- app_assoc.
  - rewrite filter_cons_False by done. by rewrite lookup_insert_ne.
Qed.

(** X9. [groupServicesByNamespace] maps a namespace to the names of the
    discovered services of that namespace, in the order the services
    are visited and once per record; a namespace with no service has no
    entry (no empty list is stored). *)
Theorem services_grouped_by_namespace (services : list (string * discoverer.ServiceInfo)) ns :
  groupServicesByNamespace services !! ns
  = match discoverer.Name <$> filter (fun i => discoverer.Namespace i = ns) services.*2 with
    | [] => None
    | names => Some names
    end.
Proof.
  unfold groupServicesByNamespace. rewrite groupServicesByNamespace_fold.
  rewrite lookup_empty. reflexivity.
Qed.

End Grouping.

(** ** Slice names *)

Lemma append_length (s t : string) :
  String.length (s +:+ t) = String.length s + String.length t.
Proof.
  induction s as [|a s IH]; [done|].
  change (S (String.length (s +:+ t)) = S (String.length s + String.length t)).
  by rewrite IH.
Qed.

Lemma append_inj_l (s1 s2 t : string) : s1 +:+ t = s2 +:+ t → s1 = s2.
Proof.
  revert s2. induction s1 as [|a s1 IH]; intros [|b s2] H.
  - done.
  - apply (f_equal String.length) in H. rewrite !append_length in H. cbn in H. lia.
  - apply (f_equal String.length) in H. rewrite !append_length in H. cbn in H. lia.
  - cbn in H. injection H as -> H. f_equal. by apply IH.
Qed.

(** X10. A slice name determines the cluster once the service is known,
    and the service once the cluster is known: the slices one reconcile
    writes for different clusters have different names, and so have the
    slices of different services for one cluster. *)
Theorem sliceName_injective_in_each_argument serviceName serviceName' clusterName clusterName' :
  (updater.sliceName serviceName clusterName = updater.sliceName serviceName clusterName'
   ↔ clusterName = clusterName')
  ∧ (updater.sliceName serviceName clusterName = updater.sliceName serviceName' clusterName
     ↔ serviceName = serviceName').
Proof.
  unfold updater.sliceName. split; split.
  - intros H. by apply append_inj_r, append_inj_r in H.
  - by intros ->.
  - intros H. by apply append_inj_l in H.
  - by intros ->.
Qed.

(** ** The aggregator: ports, skipped clusters, and what it leaves alone *)

Section AggregatorMore.

Import aggregator.

Lemma collect_ports (items : list EndpointSlice) acc :
  (foldl collect acc items).2
  = match acc.2 with
    | [] => default [] (head (filter (fun p => 0 < length p)
                                (es_Ports <$> filter (fun s => ¬ carries_marker s) items)))
    | _ => acc.2
    end.
Proof.
  revert acc. induction items as [|s items IH]; intros [eps ports]; cbn [foldl snd].
  - by destruct ports.
  - rewrite IH. unfold collect. destruct (isSyncedSlice s) eqn:Hs.
    + cbn [snd]. rewrite filter_cons_False; [done|].
      intros Hn. apply isSyncedSlice_spec in Hn. congruence.
    + apply isSyncedSlice_spec in Hs. rewrite filter_cons_True by exact Hs.
      cbn [snd fmap list_fmap]. destruct ports as [|p ports]; cbn [length Nat.eqb andb].
      * destruct (es_Ports s) as [|q qs] eqn:Hp; cbn [length Nat.ltb Nat.leb].
        -- rewrite filter_cons_False; [done|]. cbn. lia.
        -- rewrite filter_cons_True by (cbn; lia). done.
      * done.
Qed.

(** X11. When the listing succeeds, [getEndpointsFromCluster] returns the
    ready entries of the unmarked slices together with the ports of the
    first unmarked slice that has any port, or no port when none has:
    the ports are taken from one slice, not merged, and the slice they
    come from need not have a ready entry. *)
Theorem aggregated_ports_of_first_slice_with_ports client namespace serviceName items :
  EndpointSlices_List client namespace (service_selector serviceName) = Ok items →
  let unmarked := filter (fun s => ¬ carries_marker s) items in
  getEndpointsFromCluster client namespace serviceName
  = Ok (filter isReady (flat_map es_Endpoints unmarked),
        default [] (head (filter (fun p => 0 < length p) (es_Ports <$> unmarked)))).
Proof.
  intros Hlist unmarked. unfold getEndpointsFromCluster.
  fold (service_selector serviceName). rewrite Hlist.
  pose proof (collect_endpoints items ([], [])) as He.
  pose proof (collect_ports items ([], [])) as Hp.
  destruct (foldl collect ([], []) items) as [all ports].
  cbn [fst snd app] in He, Hp. by subst all ports.
Qed.

Lemma aggregated_ports_of_first_slice_with_ports_witness :
  getEndpointsFromCluster
    (examples.remote "test-service"
       [examples.syncedSlice; examples.idleSlice; examples.nativeSlice])
    "default" "test-service"
  = Ok ([examples.ep "10.0.1.1" (Some true); examples.ep "10.0.1.2" (Some true)],
        [examples.http]).
Proof.
  rewrite (aggregated_ports_of_first_slice_with_ports _ _ _
             [examples.syncedSlice; examples.idleSlice; examples.nativeSlice])
    by by_compute.
  by_compute.
Defined.

(** X12. A cluster that is named as a contributor but has no entry in the
    cluster map, or whose slice listing fails, is skipped: the result is
    the one obtained without it, so the other clusters' endpoint groups
    are unaffected. *)
Theorem aggregation_skips_unavailable_cluster namespace serviceName pre clusterName post
    clusterInfos w :
  (clusterInfos !! clusterName = None
   ∨ ∃ clusterInfo e,
       clusterInfos !! clusterName = Some clusterInfo
       ∧ EndpointSlices_List (clusterlink.Client_ clusterInfo) namespace
           (service_selector serviceName) = Err e) →
  (AggregateEndpoints namespace serviceName (pre ++ clusterName :: post) clusterInfos w).1
  = (AggregateEndpoints namespace serviceName (pre ++ post) clusterInfos w).1.
Proof.
  intros H. rewrite !AggregateEndpoints_results. f_equal.
  rewrite !omap_app. f_equal.
  assert (Hc : contribution namespace serviceName clusterInfos clusterName = None).
  { unfold contribution. destruct H as [->|(info & e & -> & Hl)]; [done|].
    unfold getEndpointsFromCluster. fold (service_selector serviceName). by rewrite Hl. }
  cbn [omap list_omap]. by rewrite Hc.
Qed.

Lemma aggregation_skips_unavailable_cluster_witness :
  let clusterInfos :=
    <[ "north" := examples.info "north" examples.unreachable ]> examples.infos in
  (AggregateEndpoints "default" "test-service" ["east"; "north"; "south"; "west"]
     clusterInfos examples.world0).1
  = (AggregateEndpoints "default" "test-service" ["east"; "west"]
       clusterInfos examples.world0).1.
Proof.
  intros clusterInfos.
  transitivity (AggregateEndpoints "default" "test-service" ["east"; "south"; "west"]
                  clusterInfos examples.world0).1.
  - apply (aggregation_skips_unavailable_cluster "default" "test-service" ["east"] "north"
             ["south"; "west"] clusterInfos examples.world0).
    right. exists (examples.info "north" examples.unreachable),
             (server_error "dial tcp: i/o timeout").
    split; by_compute.
  - apply (aggregation_skips_unavailable_cluster "default" "test-service" ["east"] "south"
             ["west"] clusterInfos examples.world0).
    left. by_compute.
Defined.

#[global] Instance only_warns_preorder : PreOrder only_warns.
Proof.
  split.
  - intros w. repeat split. exists []. split; [by rewrite app_nil_r|constructor].
  - intros w1 w2 w3 ((?&?&?) & ? & ? & ? & l1 & Hl1 & F1) ((?&?&?) & ? & ? & ? & l2 & Hl2 & F2).
    repeat split; try congruence.
    exists (l1 ++ l2). split; [by rewrite Hl2, Hl1, app_assoc|by apply Forall_app].
Qed.

Lemma only_warns_body namespace serviceName clusterInfos results clusterName :
  respects only_warns (AggregateEndpoints_body namespace serviceName clusterInfos
                         results clusterName).
Proof.
  intros w. unfold AggregateEndpoints_body.
  destruct (clusterInfos !! clusterName) as [info|]; [|reflexivity].
  destruct (getEndpointsFromCluster _ _ _) as [[eps ports]|e].
  - destruct (0 <? length eps)%nat; reflexivity.
  - rewrite run_bind. cbn [fst snd ret klog_Warningf klog].
    repeat split. eexists. split; [reflexivity|]. by repeat constructor.
Qed.

(** X13. [AggregateEndpoints] works on the remote clusters only: it
    issues no call on the local API server, changes no stored slice,
    service or descriptor (a failing cluster gets no status update from
    it), logs nothing but warnings, and never returns an error. *)
Theorem aggregation_leaves_local_cluster_alone namespace serviceName clusters clusterInfos w :
  let out := AggregateEndpoints namespace serviceName clusters clusterInfos w in
  out.1.2 = None
  ∧ w_calls out.2 = w_calls w
  ∧ w_slices out.2 = w_slices w
  ∧ w_services out.2 = w_services w
  ∧ w_clusterLinks out.2 = w_clusterLinks w
  ∧ ∃ lines, w_log out.2 = w_log w ++ lines
             ∧ Forall (fun line => line.1 = WARNING) lines.
Proof.
  intros out. split; [subst out; by rewrite AggregateEndpoints_results|].
  assert (H : only_warns w out.2).
  { subst out. unfold AggregateEndpoints.
    apply respects_bind; [apply _ | | intros ?].
    - apply respects_foldM; [apply _|]. intros acc c. apply only_warns_body.
    - apply respects_ret; apply _. }
  destruct H as ((? & _) & ? & ? & ? & ?). done.
Qed.

End AggregatorMore.

(** ** The reconciler when calls fail *)

Section ReconcilerFaults.

Import aggregator updater.

Lemma api_run {A} c (body : M (result A)) w :
  api c body w
  = match w_faults w c with
    | Some msg => (Err (server_error msg), extend w (w_slices w) [c] [])
    | None => body (extend w (w_slices w) [c] [])
    end.
Proof. unfold api. by rewrite record_call_extend. Qed.

(** One call of [updateSliceForCluster], whichever calls fail: either it
    returns an error and the store is as before, or the parent service
    exists, it returns nil and the store is upserted. *)
Lemma updateSliceForCluster_cases namespace serviceName ce w :
  let out := updateSliceForCluster namespace serviceName ce w in
  ∃ calls,
    calls `prefix_of` upsert_calls namespace serviceName (w_slices w) ce
    ∧ ((is_Some out.1 ∧ out.2 = extend w (w_slices w) calls [])
       ∨ (∃ service,
            w_services w !! (namespace, serviceName) = Some service
            ∧ out.1 = None
            ∧ calls = upsert_calls namespace serviceName (w_slices w) ce
            ∧ out.2 = extend w
                        (upsert namespace serviceName
                           (service_at (namespace, serviceName) service) (w_slices w) ce)
                        calls []))
    ∧ (parent_unavailable namespace serviceName w →
       is_Some out.1 ∧ calls = [GetService namespace serviceName]).
Proof.
  intros out. subst out.
  unfold updateSliceForCluster, upsert_calls, upsert, target, parent_unavailable.
  unfold kubeClient.Get_Service. rewrite run_bind, api_run.
  destruct (w_faults w (GetService namespace serviceName)) as [msg|] eqn:F1.
  { cbn [fst snd ret]. exists [GetService namespace serviceName].
    split; [by eexists|].
    split; [left; split; [by eexists|reflexivity]|].
    intros _. split; [by eexists|reflexivity]. }
  cbn [w_services extend].
  destruct (w_services w !! (namespace, serviceName)) as [service|] eqn:Hsvc.
  2:{ cbn [fst snd ret]. exists [GetService namespace serviceName].
      split; [by eexists|].
      split; [left; split; [by eexists|reflexivity]|].
      intros _. split; [by eexists|reflexivity]. }
  assert (Hav : ∀ (P : Prop), (Some service = None ∨ is_Some (@None string)) → P).
  { intros P [?|[? ?]]; discriminate. }
  cbn [fst snd]. unfold kubeClient.Get_EndpointSlice. rewrite run_bind, api_run.
  cbn [w_faults w_slices extend].
  set (name := sliceName serviceName (ClusterName ce)).
  destruct (w_faults w (GetSlice namespace name)) as [msg|] eqn:F2.
  { cbn [fst snd ret negb err_not_found server_error]. rewrite extend_extend.
    exists [GetService namespace serviceName; GetSlice namespace name].
    split; [by eexists [_]|].
    split; [left; split; [by eexists|reflexivity]|apply Hav]. }
  destruct (w_slices w !! (namespace, name)) as [existing|] eqn:Hex.
  - cbn [fst snd]. unfold kubeClient.Update_EndpointSlice. rewrite run_bind, api_run.
    unfold slice_key.
    cbn [w_faults w_slices extend slice_at es_Namespace es_Name es_Labels
         es_OwnerReferences es_AddressType fst snd].
    rewrite !extend_extend.
    exists [GetService namespace serviceName; GetSlice namespace name;
            UpdateSlice namespace name].
    split; [reflexivity|]. split; [|apply Hav].
    destruct (w_faults w (UpdateSlice namespace name)) as [msg|] eqn:F3.
    { cbn [fst snd ret]. left; split; [by eexists|reflexivity]. }
    rewrite Hex. cbn [fst snd ret].
    right. exists service. split; [done|]. split; [done|]. split; [reflexivity|].
    rewrite set_slices_extend. reflexivity.
  - cbn [fst snd negb err_not_found not_found].
    unfold kubeClient.Create_EndpointSlice. rewrite run_bind, api_run.
    unfold slice_key.
    cbn [w_faults w_slices extend es_Namespace es_Name fst snd].
    rewrite !extend_extend.
    exists [GetService namespace serviceName; GetSlice namespace name;
            CreateSlice namespace name].
    split; [reflexivity|]. split; [|apply Hav].
    destruct (w_faults w (CreateSlice namespace name)) as [msg|] eqn:F3.
    { cbn [fst snd ret]. left; split; [by eexists|reflexivity]. }
    rewrite Hex. cbn [fst snd ret].
    right. exists service. split; [done|]. split; [done|]. split; [reflexivity|].
    rewrite set_slices_extend. reflexivity.
Qed.


Lemma upsert_calls_in_namespace namespace serviceName m ce :
  Forall (in_namespace namespace) (upsert_calls namespace serviceName m ce).
Proof.
  unfold upsert_calls. repeat constructor. by destruct (m !! _).
Qed.

(** One turn of the loop of [UpdateEndpointSlices], whichever calls fail. *)
Lemma update_body_shape namespace serviceName ce w :
  ∃ m calls lines,
    (UpdateEndpointSlices_body namespace serviceName tt ce w).2 = extend w m calls lines
    ∧ (∀ k, k ≠ target namespace serviceName ce → m !! k = w_slices w !! k)
    ∧ Forall (in_namespace namespace) calls
    ∧ (parent_unavailable namespace serviceName w →
       m = w_slices w ∧ Forall (fun c => is_write c = false) calls).
Proof.
  unfold UpdateEndpointSlices_body. rewrite run_bind.
  destruct (updateSliceForCluster_cases namespace serviceName ce w)
    as (calls & Hpre & Hcase & Hun).
  assert (Hns : Forall (in_namespace namespace) calls).
  { destruct Hpre as [rest Hp].
    pose proof (upsert_calls_in_namespace namespace serviceName (w_slices w) ce) as F.
    rewrite Hp in F. by apply Forall_app in F as [F _]. }
  assert (Hwr : parent_unavailable namespace serviceName w →
                Forall (fun c => is_write c = false) calls).
  { intros Hp. destruct (Hun Hp) as [_ ->]. by repeat constructor. }
  destruct Hcase as [[[e He] Hw]|(service & Hsvc & Hr & Hc & Hw)].
  - rewrite He, Hw. cbn [when_err klog_Errorf klog snd].
    eexists (w_slices w), calls, [_]. split; [|split; [done|split; [done|]]].
    + unfold extend. cbn. by rewrite app_nil_r.
    + intros Hp. split; [done|by apply Hwr].
  - rewrite Hr, Hw. cbn [when_err ret snd].
    eexists _, calls, []. split; [reflexivity|]. split; [|split; [done|]].
    + intros k Hk. unfold upsert. by rewrite lookup_insert_ne.
    + intros Hp. destruct (Hun Hp) as [[e He] _]. congruence.
Qed.

Lemma update_loop_shape namespace serviceName ces w :
  ∃ m calls lines,
    (foldM (UpdateEndpointSlices_body namespace serviceName) tt ces w).2
    = extend w m calls lines
    ∧ (∀ k, (∀ ce, ce ∈ ces → k ≠ target namespace serviceName ce) →
            m !! k = w_slices w !! k)
    ∧ Forall (in_namespace namespace) calls
    ∧ (parent_unavailable namespace serviceName w →
       m = w_slices w ∧ Forall (fun c => is_write c = false) calls).
Proof.
  revert w. induction ces as [|ce ces IH]; intros w.
  - exists (w_slices w), [], []. cbn [foldM ret snd]. rewrite extend_id.
    repeat split; constructor.
  - rewrite foldM_cons.
    destruct (update_body_shape namespace serviceName ce w)
      as (m1 & calls1 & lines1 & Hw1 & Hm1 & Hns1 & Hp1).
    destruct (UpdateEndpointSlices_body namespace serviceName tt ce w) as [[] w1].
    cbn [fst snd] in *. subst w1.
    destruct (IH (extend w m1 calls1 lines1))
      as (m2 & calls2 & lines2 & Hw2 & Hm2 & Hns2 & Hp2).
    rewrite Hw2, extend_extend. eexists _, _, _. split; [reflexivity|].
    cbn [w_slices extend] in Hm2. split; [|split].
    + intros k Hk. rewrite Hm2.
      * apply Hm1, Hk, list_elem_of_here.
      * intros ce' Hce'. by apply Hk, list_elem_of_further.
    + by apply Forall_app.
    + intros Hp. destruct (Hp1 Hp) as [-> Hwr1].
      destruct (Hp2 Hp) as [-> Hwr2]. split; [done|by apply Forall_app].
Qed.


(** The delete loop, whichever calls fail: it attempts deletes of doomed
    slices of the listing only, and removes only what it attempted. *)
Lemma cleanup_loop_shape namespace active items :
  ∀ w m calls lines,
  ∃ r attempted deleted,
    cleanupOrphanedSlices_loop namespace active items (extend w m calls lines)
    = (r, extend w (foldl delete_slice m deleted)
            (calls ++ map delete_call attempted) lines)
    ∧ attempted ⊆ filter (doomed active) items
    ∧ deleted ⊆ attempted.
Proof.
  induction items as [|s items IH]; intros w m calls lines.
  - exists None, [], []. cbn. unfold ret. by rewrite app_nil_r.
  - cbn [cleanupOrphanedSlices_loop]. rewrite filter_cons.
    case_bool_decide as Hl.
    { rewrite decide_False; [apply IH|]. intros [Hne _]. by apply Hne. }
    case_bool_decide as Ha.
    { rewrite decide_False; [apply IH|]. intros [_ Hna]. by apply Hna. }
    rewrite decide_True by done.
    rewrite run_bind. unfold kubeClient.Delete_EndpointSlice. rewrite api_run.
    cbn [w_faults w_slices extend]. rewrite !extend_extend, app_nil_r.
    fold (delete_call s).
    destruct (w_faults w (delete_call s)) as [msg|] eqn:F.
    { cbn [fst snd negb err_not_found server_error ret].
      eexists _, [s], []. split; [reflexivity|]. split.
      - intros x Hx. apply list_elem_of_singleton in Hx as ->. apply list_elem_of_here.
      - apply list_subseteq_nil. }
    destruct (m !! slice_key s) as [old|] eqn:Hk; cbn [fst snd].
    + rewrite set_slices_extend.
      destruct (IH w (delete (slice_key s) m) (calls ++ [delete_call s]) lines)
        as (r & att & del & -> & Hatt & Hdel).
      exists r, (s :: att), (s :: del). cbn [foldl map]. rewrite <- app_assoc.
      split; [reflexivity|]. split.
      * intros x [->|Hx]%elem_of_cons; [apply list_elem_of_here|].
        by apply list_elem_of_further, Hatt.
      * intros x [->|Hx]%elem_of_cons; [apply list_elem_of_here|].
        by apply list_elem_of_further, Hdel.
    + cbn [negb err_not_found not_found].
      destruct (IH w m (calls ++ [delete_call s]) lines)
        as (r & att & del & -> & Hatt & Hdel).
      exists r, (s :: att), del. cbn [map]. rewrite <- app_assoc.
      split; [reflexivity|]. split.
      * intros x [->|Hx]%elem_of_cons; [apply list_elem_of_here|].
        by apply list_elem_of_further, Hatt.
      * intros x Hx. by apply list_elem_of_further, Hdel.
Qed.

Lemma cleanup_shape namespace serviceName ces w :
  ∃ r attempted deleted,
    cleanupOrphanedSlices namespace serviceName ces w
    = (r, extend w (foldl delete_slice (w_slices w) deleted)
            (ListSlices namespace :: map delete_call attempted) [])
    ∧ attempted ⊆ filter (doomed (active_clusters ces))
                    (listed namespace (cleanup_selector serviceName) (w_slices w))
    ∧ deleted ⊆ attempted.
Proof.
  unfold cleanupOrphanedSlices. rewrite run_bind.
  unfold kubeClient.List_EndpointSlices. rewrite api_run.
  destruct (w_faults w (ListSlices namespace)) as [msg|].
  - cbn [fst snd ret]. exists (Some (server_error msg)), [], [].
    split; [reflexivity|]. split; apply list_subseteq_nil.
  - cbn [fst snd w_slices extend].
    fold (cleanup_selector serviceName).
    fold (listed namespace (cleanup_selector serviceName) (w_slices w)).
    fold (active_clusters ces).
    destruct (cleanup_loop_shape namespace (active_clusters ces)
                (listed namespace (cleanup_selector serviceName) (w_slices w))
                w (w_slices w) [ListSlices namespace] [])
      as (r & att & del & -> & Hatt & Hdel).
    by exists r, att, del.
Qed.

Lemma UpdateEndpointSlices_shape namespace serviceName ces w :
  ∃ m calls attempted deleted lines,
    (UpdateEndpointSlices namespace serviceName ces w).2
    = extend w (foldl delete_slice m deleted)
        (calls ++ ListSlices namespace :: map delete_call attempted) lines
    ∧ (∀ k, (∀ ce, ce ∈ ces → k ≠ target namespace serviceName ce) →
            m !! k = w_slices w !! k)
    ∧ Forall (in_namespace namespace) calls
    ∧ (parent_unavailable namespace serviceName w →
       m = w_slices w ∧ Forall (fun c => is_write c = false) calls)
    ∧ attempted ⊆ filter (doomed (active_clusters ces))
                    (listed namespace (cleanup_selector serviceName) m)
    ∧ deleted ⊆ attempted.
Proof.
  unfold UpdateEndpointSlices. rewrite !run_bind.
  destruct (update_loop_shape namespace serviceName ces w)
    as (m & calls & lines & -> & Hm & Hns & Hp).
  destruct (cleanup_shape namespace serviceName ces (extend w m calls lines))
    as (r & att & del & -> & Hatt & Hdel).
  cbn [fst snd w_slices extend] in *. rewrite extend_extend.
  exists m, calls, att, del.
  destruct r as [e|]; cbn [when_err klog_Errorf klog ret snd].
  - eexists. split; [|done]. unfold extend. cbn. by rewrite <- !app_assoc.
  - eexists. split; [|done]. reflexivity.
Qed.

Lemma deleted_are_orphans namespace serviceName active m (deleted attempted : list EndpointSlice) s :
  attempted ⊆ filter (doomed active) (listed namespace (cleanup_selector serviceName) m) →
  s ∈ attempted →
  es_Namespace s = namespace
  ∧ ∃ s0, m !! slice_key s = Some s0
          ∧ is_orphan namespace serviceName active (slice_key s) s0.
Proof.
  intros Hatt Hs. apply Hatt, doomed_listed_orphan in Hs as (k & s0 & Hk & -> & Ho).
  rewrite slice_key_slice_at. split; [by destruct Ho|]. by exists s0.
Qed.

(** X15. Whichever calls fail, a reconcile changes a stored slice only if
    it is the slice of one of the clusters it was given or an orphan of
    the service: every other key of the store (the slices of other
    services and namespaces, the slices Kubernetes manages) holds after
    [UpdateEndpointSlices] what it held before. *)
Theorem reconcile_confined_under_failures namespace serviceName ces w k :
  (∀ ce, ce ∈ ces → k ≠ target namespace serviceName ce) →
  (∀ s, w_slices w !! k = Some s →
        ¬ is_orphan namespace serviceName (active_clusters ces) k s) →
  w_slices (UpdateEndpointSlices namespace serviceName ces w).2 !! k = w_slices w !! k.
Proof.
  intros Hk Hno.
  destruct (UpdateEndpointSlices_shape namespace serviceName ces w)
    as (m & calls & att & del & lines & -> & Hm & _ & _ & Hatt & Hdel).
  cbn [w_slices extend]. rewrite lookup_foldl_delete_slice.
  rewrite decide_False; [by apply Hm|].
  intros Hin. apply list_elem_of_fmap in Hin as (s & -> & Hs).
  destruct (deleted_are_orphans _ _ _ _ del att s Hatt (Hdel _ Hs)) as (_ & s0 & Hs0 & Ho).
  rewrite (Hm _ Hk) in Hs0. exact (Hno s0 Hs0 Ho).
Qed.

Lemma reconcile_confined_under_failures_witness :
  w_slices (UpdateEndpointSlices "default" "web" [examples.ceE; examples.ceW]
              scenarios.world_readonly).2 !! ("default", "web-x7k2p")
  = Some examples.webSlice.
Proof.
  rewrite (reconcile_confined_under_failures "default" "web" [examples.ceE; examples.ceW]
             scenarios.world_readonly ("default", "web-x7k2p")).
  - by_compute.
  - intros ce [->|[->|Hce%elem_of_nil]%elem_of_cons]%elem_of_cons; [by_compute|by_compute|done].
  - intros s Hs (_ & _ & c & Hc & _).
    vm_compute in Hs. injection Hs as <-. vm_compute in Hc. discriminate.
Defined.


(** X16. When the parent service is absent, or its read fails, a
    reconcile writes no slice, whichever other calls fail: it issues no
    create and no update call, and every slice stored afterwards was
    stored before, unchanged (the cleanup may still delete orphans). *)
Theorem reconcile_without_parent_writes_nothing namespace serviceName ces w :
  (w_services w !! (namespace, serviceName) = None
   ∨ is_Some (w_faults w (GetService namespace serviceName))) →
  let out := UpdateEndpointSlices namespace serviceName ces w in
  w_slices out.2 ⊆ w_slices w
  ∧ Forall (fun c => is_create c = false ∧ is_update c = false) (calls_since w out.2).
Proof.
  intros Hp out. subst out.
  destruct (UpdateEndpointSlices_shape namespace serviceName ces w)
    as (m & calls & att & del & lines & -> & _ & _ & Hun & _ & _).
  destruct (Hun Hp) as [-> Hwr]. rewrite calls_since_extend. cbn [w_slices extend snd].
  split.
  - apply map_subseteq_spec. intros k s. rewrite lookup_foldl_delete_slice.
    by destruct (decide _).
  - apply Forall_app. split.
    + eapply Forall_impl; [exact Hwr|]. intros [] Hc; cbn in *; done.
    + constructor; [done|]. apply Forall_forall. intros c Hc.
      apply list_elem_of_fmap in Hc as (s & -> & _). done.
Qed.

Lemma reconcile_without_parent_writes_nothing_witness :
  let out := UpdateEndpointSlices "default" "web" [examples.ceE] scenarios.world_parent_gone in
  w_slices out.2 ⊆ w_slices scenarios.world_parent_gone
  ∧ Forall (fun c => is_create c = false ∧ is_update c = false)
      (calls_since scenarios.world_parent_gone out.2).
Proof.
  apply (reconcile_without_parent_writes_nothing "default" "web" [examples.ceE]
           scenarios.world_parent_gone).
  left. by_compute.
Defined.


(** X17. Whichever calls fail, every call a reconcile issues is a call
    on the slices or on the parent service of its own namespace: it
    never lists or updates a cluster descriptor, and the services and
    descriptors of the local cluster are left as they are. *)
Theorem reconcile_stays_in_namespace namespace serviceName ces w :
  let out := UpdateEndpointSlices namespace serviceName ces w in
  Forall (in_namespace namespace) (calls_since w out.2)
  ∧ w_services out.2 = w_services w
  ∧ w_clusterLinks out.2 = w_clusterLinks w.
Proof.
  intros out. subst out.
  destruct (UpdateEndpointSlices_shape namespace serviceName ces w)
    as (m & calls & att & del & lines & -> & _ & Hns & _ & Hatt & _).
  rewrite calls_since_extend. cbn [w_services w_clusterLinks extend snd].
  split; [|done]. apply Forall_app. split; [done|].
  constructor; [done|]. apply Forall_forall. intros c Hc.
  apply list_elem_of_fmap in Hc as (s & -> & Hs).
  destruct (deleted_are_orphans _ _ _ _ del att s Hatt Hs) as (Hn & _). exact Hn.
Qed.





(** X19. What a successful [updateSliceForCluster] leaves under the
    cluster's key, whichever store it started from: the cluster's
    endpoints and ports and the three svclink labels; a slice it creates
    has no other label, the address type IPv4 and the parent service as
    its only owner; a slice it overwrites keeps its other labels, its
    address type and whatever owner references it had (the owner is not
    set again on update). *)
Theorem written_slice_fields namespace serviceName ce w :
  (updateSliceForCluster namespace serviceName ce w).1 = None →
  ∃ service s',
    w_services w !! (namespace, serviceName) = Some service
    ∧ w_slices (updateSliceForCluster namespace serviceName ce w).2
        !! target namespace serviceName ce = Some s'
    ∧ es_Endpoints s' = Endpoints ce
    ∧ es_Ports s' = Ports ce
    ∧ es_Labels s' !! config.ServiceNameLabel = Some serviceName
    ∧ es_Labels s' !! config.ClusterLabel = Some (ClusterName ce)
    ∧ es_Labels s' !! config.ManagedByLabel = Some config.ManagedByValue
    ∧ match w_slices w !! target namespace serviceName ce with
      | Some existing =>
          es_OwnerReferences s' = es_OwnerReferences existing
          ∧ es_AddressType s' = es_AddressType existing
          ∧ ∀ l, l ∉ stamped_keys → es_Labels s' !! l = es_Labels existing !! l
      | None =>
          es_OwnerReferences s'
          = [ {| or_APIVersion := "v1"; or_Kind := "Service";
                 or_Name := serviceName; or_UID := svc_UID service |} ]
          ∧ es_AddressType s' = "IPv4"
          ∧ ∀ l, l ∉ stamped_keys → es_Labels s' !! l = None
      end.
Proof.
  intros Hok.
  destruct (updateSliceForCluster_cases namespace serviceName ce w)
    as (calls & _ & [[[e He] _]|(service & Hsvc & _ & _ & Hw)] & _); [congruence|].
  rewrite Hw. cbn [w_slices extend]. unfold upsert. rewrite lookup_insert_eq.
  assert (Hl : ∀ labels l, l ∉ stamped_keys →
                 stamp serviceName (ClusterName ce) labels !! l = labels !! l).
  { intros labels l Hl. unfold stamp, stamped_keys in *.
    rewrite !lookup_insert_ne; [done|..]; intros <-; apply Hl.
    - apply list_elem_of_here.
    - apply list_elem_of_further, list_elem_of_here.
    - do 2 apply list_elem_of_further. apply list_elem_of_here. }
  assert (H1 : ∀ labels, stamp serviceName (ClusterName ce) labels
                         !! config.ServiceNameLabel = Some serviceName).
  { intros labels. unfold stamp.
    rewrite lookup_insert_ne by by_compute. rewrite lookup_insert_ne by by_compute.
    apply lookup_insert_eq. }
  assert (H2 : ∀ labels, stamp serviceName (ClusterName ce) labels
                         !! config.ClusterLabel = Some (ClusterName ce)).
  { intros labels. unfold stamp.
    rewrite lookup_insert_ne by by_compute. apply lookup_insert_eq. }
  assert (H3 : ∀ labels, stamp serviceName (ClusterName ce) labels
                         !! config.ManagedByLabel = Some config.ManagedByValue).
  { intros labels. unfold stamp. apply lookup_insert_eq. }
  exists service. eexists. split; [done|]. split; [reflexivity|].
  destruct (w_slices w !! target namespace serviceName ce) as [existing|];
    cbn [written es_Endpoints es_Ports es_Labels es_OwnerReferences es_AddressType
         service_at svc_Name svc_UID snd];
    (split; [reflexivity|]); (split; [reflexivity|]); (split; [apply H1|]);
    (split; [apply H2|]); (split; [apply H3|]); (split; [reflexivity|]);
    (split; [reflexivity|]); intros l Hnl.
  - by apply Hl.
  - rewrite Hl by done. apply lookup_empty.
Qed.

Lemma written_slice_fields_witness :
  ∃ service s',
    w_services examples.world_web !! ("default", "web") = Some service
    ∧ w_slices (updateSliceForCluster "default" "web" examples.ceE examples.world_web).2
        !! ("default", "web-svclink-east") = Some s'
    ∧ es_Endpoints s' = Endpoints examples.ceE.
Proof.
  destruct (written_slice_fields "default" "web" examples.ceE examples.world_web)
    as (service & s' & H1 & H2 & H3 & _).
  - by_compute.
  - by exists service, s'.
Defined.

End ReconcilerFaults.

(** ** Discovery: what it finds *)

Section DiscoveryComplete.

Import discoverer.

Lemma addService_keeps c key clusterName clusterInfo namespace services svc :
  contributes c key services →
  contributes c key (addService clusterName clusterInfo namespace services svc).
Proof.
  intros (info & Hk & Hc). unfold addService.
  destruct (v1alpha1.ShouldExcludeService _ _ _ _ _); [by exists info|].
  destruct (decide (key = namespace +:+ "/" +:+ svc_Name svc)) as [->|Hne].
  - rewrite Hk. eexists. rewrite lookup_insert_eq. split; [reflexivity|].
    cbn. apply elem_of_app. by left.
  - exists info. by rewrite lookup_insert_ne.
Qed.

Lemma addService_adds clusterName clusterInfo namespace services svc :
  let spec := v1alpha1.Spec (clusterlink.ClusterLink clusterInfo) in
  v1alpha1.ShouldExcludeService spec namespace (svc_Name svc)
    (v1alpha1.ToExcludedServiceSet spec) (v1alpha1.ToExcludedServiceNameSet spec) = false →
  contributes clusterName (namespace +:+ "/" +:+ svc_Name svc)
    (addService clusterName clusterInfo namespace services svc).
Proof.
  intros spec Hx. unfold addService. fold spec. rewrite Hx.
  eexists. rewrite lookup_insert_eq. split; [reflexivity|].
  cbn. apply elem_of_app. right. apply list_elem_of_here.
Qed.

Lemma addService_fold_keeps c key clusterName clusterInfo namespace svcList services :
  contributes c key services →
  contributes c key (foldl (addService clusterName clusterInfo namespace) services svcList).
Proof.
  revert services. induction svcList as [|svc svcList IH]; intros services H; [done|].
  cbn [foldl]. by apply IH, addService_keeps.
Qed.

Lemma addService_fold_adds clusterName clusterInfo namespace svcList services svc :
  let spec := v1alpha1.Spec (clusterlink.ClusterLink clusterInfo) in
  svc ∈ svcList →
  v1alpha1.ShouldExcludeService spec namespace (svc_Name svc)
    (v1alpha1.ToExcludedServiceSet spec) (v1alpha1.ToExcludedServiceNameSet spec) = false →
  contributes clusterName (namespace +:+ "/" +:+ svc_Name svc)
    (foldl (addService clusterName clusterInfo namespace) services svcList).
Proof.
  intros spec Hin Hx. revert services.
  induction svcList as [|svc' svcList IH]; intros services; [by apply elem_of_nil in Hin|].
  cbn [foldl]. apply elem_of_cons in Hin as [<-|Hin].
  - by apply addService_fold_keeps, addService_adds.
  - by apply IH.
Qed.

Lemma discoverInCluster_loop_keeps c key clusterName clusterInfo incl namespaces :
  ∀ services w,
    contributes c key services →
    contributes c key
      (discoverInCluster_loop clusterName clusterInfo incl namespaces services w).1.1.
Proof.
  induction namespaces as [|ns namespaces IH]; intros services w H;
    cbn [discoverInCluster_loop]; [exact H|].
  destruct (_ && _); [by apply IH|].
  destruct (v1alpha1.ShouldExcludeNamespace _ _ _ _); [by apply IH|].
  destruct (Services_List _ _) as [svcList|e].
  - by apply IH, addService_fold_keeps.
  - rewrite run_bind. exact H.
Qed.

Lemma discoverInCluster_keeps c key clusterName clusterInfo incl services w :
  contributes c key services →
  contributes c key (discoverInCluster clusterName clusterInfo incl services w).1.1.
Proof.
  intros H. unfold discoverInCluster.
  destruct (Namespaces_List _) as [nss|e].
  - by apply discoverInCluster_loop_keeps.
  - rewrite run_bind. exact H.
Qed.

Lemma DiscoverServices_loop_keeps c key incl entries :
  ∀ services w,
    contributes c key services →
    contributes c key (foldM (DiscoverServices_body incl) services entries w).1.
Proof.
  induction entries as [|entry entries IH]; intros services w H; [exact H|].
  rewrite foldM_cons. apply IH. rewrite DiscoverServices_body_value.
  by apply discoverInCluster_keeps.
Qed.

Lemma discoverInCluster_loop_adds clusterName clusterInfo incl namespaces namespace svcList svc :
  let spec := v1alpha1.Spec (clusterlink.ClusterLink clusterInfo) in
  let client := clusterlink.Client_ clusterInfo in
  (∀ ns, ns ∈ namespaces → ∃ l, Services_List client ns = Ok l) →
  namespace ∈ namespaces →
  (0 < size incl → namespace ∈ incl) →
  v1alpha1.ShouldExcludeNamespace spec namespace
    (v1alpha1.ToExcludedNamespaceSet spec) (v1alpha1.ToIncludedNamespaceSet spec) = false →
  Services_List client namespace = Ok svcList →
  svc ∈ svcList →
  v1alpha1.ShouldExcludeService spec namespace (svc_Name svc)
    (v1alpha1.ToExcludedServiceSet spec) (v1alpha1.ToExcludedServiceNameSet spec) = false →
  ∀ services w,
    contributes clusterName (namespace +:+ "/" +:+ svc_Name svc)
      (discoverInCluster_loop clusterName clusterInfo incl namespaces services w).1.1.
Proof.
  intros spec client Hall Hin Hincl Hnx Hl Hsvc Hsx.
  induction namespaces as [|ns namespaces IH]; intros services w;
    [by apply elem_of_nil in Hin|].
  cbn [discoverInCluster_loop]. fold spec client.
  assert (Hall' : ∀ ns', ns' ∈ namespaces → ∃ l, Services_List client ns' = Ok l).
  { intros ns' Hns'. by apply Hall, list_elem_of_further. }
  destruct (decide (ns = namespace)) as [->|Hne].
  - assert (Hg : bool_decide (0 < size incl) && negb (bool_decide (namespace ∈ incl)) = false).
    { case_bool_decide as Hpos; [|done].
      by rewrite (bool_decide_eq_true_2 _ (Hincl Hpos)). }
    rewrite Hg, Hnx, Hl.
    by apply discoverInCluster_loop_keeps, addService_fold_adds.
  - apply elem_of_cons in Hin as [Heq|Hin]; [congruence|].
    destruct (bool_decide (0 < size incl) && negb (bool_decide (ns ∈ incl)));
      [by apply IH|].
    destruct (v1alpha1.ShouldExcludeNamespace spec ns _ _); [by apply IH|].
    destruct (Hall ns) as [l Hl']; [apply list_elem_of_here|].
    rewrite Hl'. by apply IH.
Qed.

(** X20. Discovery is complete for a cluster whose list calls succeed: a
    service it lists in a namespace that passes the global namespace
    list and the descriptor's namespace filter, and that passes the
    descriptor's service filter, has a record in the output map under
    namespace/name with the cluster among its contributors, whatever the
    other clusters do and whichever local calls fail. *)
Theorem discovery_finds_every_allowed_service clusterInfos includedNamespaces w
    clusterName clusterInfo namespaces namespace svcList svc :
  let spec := v1alpha1.Spec (clusterlink.ClusterLink clusterInfo) in
  let client := clusterlink.Client_ clusterInfo in
  (clusterName, clusterInfo) ∈ clusterInfos →
  Namespaces_List client = Ok namespaces →
  (∀ ns, ns ∈ namespaces → ∃ l, Services_List client ns = Ok l) →
  namespace ∈ namespaces →
  (includedNamespaces = [] ∨ namespace ∈ includedNamespaces) →
  v1alpha1.ShouldExcludeNamespace spec namespace
    (v1alpha1.ToExcludedNamespaceSet spec) (v1alpha1.ToIncludedNamespaceSet spec) = false →
  Services_List client namespace = Ok svcList →
  svc ∈ svcList →
  v1alpha1.ShouldExcludeService spec namespace (svc_Name svc)
    (v1alpha1.ToExcludedServiceSet spec) (v1alpha1.ToExcludedServiceNameSet spec) = false →
  ∃ info,
    (DiscoverServices clusterInfos includedNamespaces w).1.1
      !! (namespace +:+ "/" +:+ svc_Name svc) = Some info
    ∧ clusterName ∈ Clusters info.
Proof.
  intros spec client Hentry Hns Hall Hin Hincl Hnx Hl Hsvc Hsx.
  apply list_elem_of_split in Hentry as (pre & post & ->).
  unfold DiscoverServices. rewrite run_bind. cbn [fst snd ret].
  rewrite foldM_app, foldM_cons.
  apply DiscoverServices_loop_keeps. rewrite DiscoverServices_body_value. cbn [fst snd].
  unfold discoverInCluster. fold client. rewrite Hns.
  apply (discoverInCluster_loop_adds clusterName clusterInfo _ namespaces namespace svcList svc);
    try done.
  intros Hpos. destruct Hincl as [->|Hincl].
  - by apply sets_New_size_pos in Hpos.
  - by apply sets_New_elem.
Qed.

Lemma discovery_finds_every_allowed_service_witness :
  ∃ info,
    (DiscoverServices scenarios.east_only ["default"] examples.world0).1.1 !! "default/web"
    = Some info
    ∧ "east" ∈ Clusters info.
Proof.
  apply (discovery_finds_every_allowed_service scenarios.east_only ["default"] examples.world0
           "east" (examples.info "east" (examples.remote "web" [examples.webSlice]))
           ["default"; "kube-system"] "default"
           [ {| svc_Name := "web"; svc_Namespace := "default"; svc_UID := "r-1" |} ]
           {| svc_Name := "web"; svc_Namespace := "default"; svc_UID := "r-1" |}).
  - apply list_elem_of_here.
  - reflexivity.
  - intros ns _. cbn. destruct (bool_decide (ns = "default")); by eexists.
  - apply list_elem_of_here.
  - right. apply list_elem_of_here.
  - by_compute.
  - reflexivity.
  - apply list_elem_of_here.
  - by_compute.
Defined.

End DiscoveryComplete.

(** ** Status written by the registry and by the discoverer *)

Section StatusWritten.

Import clusterlink.

Lemma ListClusterInfo_body_decode_failure libs clusterInfos clusterLink w e :
  reliable w →
  DecodeString libs (v1alpha1.Kubeconfig (v1alpha1.Spec clusterLink)) = Err e →
  let name := v1alpha1.Name clusterLink in
  ListClusterInfo_body libs clusterInfos clusterLink w
  = (clusterInfos,
     extend_links w
       (put_status name
          (status_at (w_now w) (v1alpha1.Status clusterLink) false ""
             ("Failed to decode kubeconfig: " +:+ err_msg e))
          (w_clusterLinks w))
       [UpdateStatus name]
       [(ERROR, "Failed to decode kubeconfig for cluster " +:+ name +:+ ": "
                +:+ err_msg e)]).
Proof.
  intros Hnf Hdec name. unfold ListClusterInfo_body. rewrite Hdec.
  rewrite run_bind. unfold klog_Errorf.
  rewrite <- (extend_links_id w) at 1. rewrite klog_extend_links. cbn [fst snd].
  rewrite run_bind, updateClusterStatus_ok by by apply reliable_extend_links.
  cbn [fst snd ret]. by rewrite extend_links_extend_links.
Qed.

(** X21. A descriptor whose kubeconfig is not valid base64 gets the
    degraded handling: no entry in the output map, and a stored status
    that is disconnected, with the error text "Failed to decode
    kubeconfig: " followed by the decoder's error, the version cleared,
    lastConnected left as it was, and the two conditions Ready = False
    and Error = True carrying that text. The descriptor's spec is not
    touched. *)
Theorem undecodable_kubeconfig_is_degraded libs w name stored e :
  reliable w →
  w_clusterLinks w !! name = Some stored →
  DecodeString libs (v1alpha1.Kubeconfig (v1alpha1.Spec stored)) = Err e →
  let out := ListClusterInfo libs w in
  let msg := "Failed to decode kubeconfig: " +:+ err_msg e in
  ∃ clusterInfos,
    out.1 = Ok clusterInfos
    ∧ clusterInfos !! name = None
    ∧ (v1alpha1.Spec <$> w_clusterLinks out.2 !! name) = Some (v1alpha1.Spec stored)
    ∧ (v1alpha1.Status <$> w_clusterLinks out.2 !! name)
      = Some {| v1alpha1.Connected := false;
                v1alpha1.LastConnected := v1alpha1.LastConnected (v1alpha1.Status stored);
                v1alpha1.Error := msg;
                v1alpha1.Version := "";
                v1alpha1.Conditions :=
                  [ {| v1alpha1.Type_ := v1alpha1.ClusterLinkReady;
                       v1alpha1.Status_ := v1alpha1.ConditionFalse;
                       v1alpha1.LastTransitionTime := w_now w;
                       v1alpha1.Reason := "ConnectionFailed";
                       v1alpha1.Message := "Failed to connect to remote cluster" |};
                    {| v1alpha1.Type_ := v1alpha1.ClusterLinkError;
                       v1alpha1.Status_ := v1alpha1.ConditionTrue;
                       v1alpha1.LastTransitionTime := w_now w;
                       v1alpha1.Reason := "Error";
                       v1alpha1.Message := msg |} ] |}.
Proof.
  intros Hnf Hk Hdec out msg.
  destruct (ListClusterInfo_at libs w name stored None
              (status_at (w_now w) (v1alpha1.Status stored) false "" msg)
              [(ERROR, "Failed to decode kubeconfig for cluster " +:+ name +:+ ": "
                       +:+ err_msg e)] Hnf Hk)
    as (infos & Hout & Hin & Hst).
  { intros infos w0 Hnf0 Hnow.
    rewrite (ListClusterInfo_body_decode_failure libs infos (link_at name stored) w0 e)
      by done.
    cbn [link_at v1alpha1.Name v1alpha1.Spec v1alpha1.Status]. by rewrite Hnow. }
  exists infos. split; [exact Hout|]. split; [exact Hin|]. split.
  - destruct (keeps_slices_ListClusterInfo libs w) as (_ & _ & Hspec).
    subst out. rewrite Hspec, Hk. reflexivity.
  - exact Hst.
Qed.

Lemma undecodable_kubeconfig_is_degraded_witness :
  let libs := examples.libs (examples.remote "web" [examples.webSlice]) in
  let w := examples.world_links [scenarios.garbled_link] in
  ∃ clusterInfos,
    (ListClusterInfo libs w).1 = Ok clusterInfos
    ∧ clusterInfos !! "north" = None
    ∧ (v1alpha1.Error <$> (v1alpha1.Status <$> w_clusterLinks (ListClusterInfo libs w).2
                                               !! "north"))
      = Some "Failed to decode kubeconfig: illegal base64 data at input byte 0".
Proof.
  intros libs w.
  destruct (undecodable_kubeconfig_is_degraded libs w "north" scenarios.garbled_link
              (server_error "illegal base64 data at input byte 0"))
    as (infos & H1 & H2 & _ & H3).
  - intros c. reflexivity.
  - by_compute.
  - by_compute.
  - exists infos. split; [exact H1|]. split; [exact H2|].
    exact (f_equal (fmap v1alpha1.Error) H3).
Defined.

Lemma discoverInCluster_loop_succeeds clusterName clusterInfo incl namespaces :
  (∀ ns, ns ∈ namespaces → ∃ l, Services_List (Client_ clusterInfo) ns = Ok l) →
  ∀ services w,
    (discoverer.discoverInCluster_loop clusterName clusterInfo incl namespaces services w).1.2
    = None.
Proof.
  induction namespaces as [|ns namespaces IH]; intros Hall services w;
    cbn [discoverer.discoverInCluster_loop]; [done|].
  assert (Hall' : ∀ ns', ns' ∈ namespaces →
                         ∃ l, Services_List (Client_ clusterInfo) ns' = Ok l).
  { intros ns' Hns'. by apply Hall, list_elem_of_further. }
  destruct (bool_decide (0 < size incl) && negb (bool_decide (ns ∈ incl)));
    [by apply IH|].
  destruct (v1alpha1.ShouldExcludeNamespace _ ns _ _); [by apply IH|].
  destruct (Hall ns) as [l Hl]; [apply list_elem_of_here|].
  rewrite Hl. by apply IH.
Qed.

(** X22. When every list call in a remote cluster succeeds, discovery
    clears the cluster's sync error: the stored status of its descriptor
    becomes connected with an empty error text, lastConnected set to
    the time of the cycle and the ready condition alone, whatever status
    was stored before; the version is the one the cluster info carries
    from the registry. *)
Theorem successful_discovery_clears_sync_error includedNamespaces pre clusterName
    clusterInfo post w stored namespaces :
  let dname := v1alpha1.Name (ClusterLink clusterInfo) in
  let old := v1alpha1.Status (ClusterLink clusterInfo) in
  reliable w →
  w_clusterLinks w !! dname = Some stored →
  dname ∉ map descriptor_name (pre ++ post) →
  Namespaces_List (Client_ clusterInfo) = Ok namespaces →
  (∀ ns, ns ∈ namespaces → ∃ l, Services_List (Client_ clusterInfo) ns = Ok l) →
  let out := discoverer.DiscoverServices (pre ++ (clusterName, clusterInfo) :: post)
               includedNamespaces w in
  (v1alpha1.Status <$> w_clusterLinks out.2 !! dname)
  = Some {| v1alpha1.Connected := true;
            v1alpha1.LastConnected := Some (w_now w);
            v1alpha1.Error := "";
            v1alpha1.Version := v1alpha1.Version old;
            v1alpha1.Conditions :=
              [ {| v1alpha1.Type_ := v1alpha1.ClusterLinkReady;
                   v1alpha1.Status_ := v1alpha1.ConditionTrue;
                   v1alpha1.LastTransitionTime := w_now w;
                   v1alpha1.Reason := "Connected";
                   v1alpha1.Message := "Successfully connected to remote cluster" |} ] |}.
Proof.
  intros dname old Hnf Hk Hn Hns Hall out. subst out.
  unfold discoverer.DiscoverServices. rewrite !run_bind. cbn [fst snd ret].
  set (incl := v1alpha1.sets_New includedNamespaces) in *.
  rewrite foldM_app, foldM_cons.
  rewrite map_app in Hn. apply not_elem_of_app in Hn as [Hpre Hpost].
  destruct (DiscoverServices_loop_frame incl pre ∅ w dname Hnf Hpre) as (Hl1 & Hnf1 & Hnow1).
  set (s1 := (foldM (discoverer.DiscoverServices_body incl) ∅ pre w).1) in *.
  set (w1 := (foldM (discoverer.DiscoverServices_body incl) ∅ pre w).2) in *.
  destruct (DiscoverServices_body_run incl s1 clusterName clusterInfo w1 Hnf1)
    as [lines Hrun].
  destruct (DiscoverServices_loop_frame incl post
              (discoverer.DiscoverServices_body incl s1 (clusterName, clusterInfo) w1).1
              (discoverer.DiscoverServices_body incl s1 (clusterName, clusterInfo) w1).2 dname)
    as (Hl2 & _ & _).
  { rewrite Hrun. by apply reliable_extend_links. }
  { exact Hpost. }
  cbn zeta in Hl2. rewrite Hl2, Hrun. cbn [w_clusterLinks extend_links].
  fold dname. rewrite (lookup_put_status_eq _ _ _ stored) by by rewrite Hl1.
  cbn [fmap option_fmap option_map v1alpha1.Status].
  assert (Hok : (discoverer.discoverInCluster clusterName clusterInfo incl s1 w1).1.2 = None).
  { unfold discoverer.discoverInCluster. rewrite Hns.
    by apply discoverInCluster_loop_succeeds. }
  rewrite Hok, Hnow1. reflexivity.
Qed.

Lemma successful_discovery_clears_sync_error_witness :
  let east := scenarios.stale_info in
  let w := examples.world_links [scenarios.stale_link] in
  let out := discoverer.DiscoverServices [("east", east)] [] w in
  (v1alpha1.Error <$> (v1alpha1.Status <$> w_clusterLinks out.2 !! "east")) = Some "".
Proof.
  intros east w out.
  assert (H : (v1alpha1.Status <$> w_clusterLinks out.2 !! "east")
              = Some {| v1alpha1.Connected := true;
                        v1alpha1.LastConnected := Some (w_now w);
                        v1alpha1.Error := "";
                        v1alpha1.Version := "v1.28.0";
                        v1alpha1.Conditions :=
                          [ {| v1alpha1.Type_ := v1alpha1.ClusterLinkReady;
                               v1alpha1.Status_ := v1alpha1.ConditionTrue;
                               v1alpha1.LastTransitionTime := w_now w;
                               v1alpha1.Reason := "Connected";
                               v1alpha1.Message :=
                                 "Successfully connected to remote cluster" |} ] |}).
  { apply (successful_discovery_clears_sync_error [] [] "east" east [] w
             scenarios.stale_link ["default"; "kube-system"]).
    - intros c. reflexivity.
    - by_compute.
    - apply not_elem_of_nil.
    - reflexivity.
    - intros ns _. cbn. destruct (bool_decide (ns = "default")); by eexists. }
  exact (f_equal (fmap v1alpha1.Error) H).
Defined.

End StatusWritten.

(** ** One service, end to end *)

Section SyncService.

Import aggregator updater.

Lemma only_warns_AggregateEndpoints namespace serviceName clusters clusterInfos :
  respects only_warns (AggregateEndpoints namespace serviceName clusters clusterInfos).
Proof.
  unfold AggregateEndpoints.
  apply respects_bind; [apply _ | | intros ?].
  - apply respects_foldM; [apply _|]. intros acc c. apply only_warns_body.
  - apply respects_ret; apply _.
Qed.

(** With cluster names that are not repeated, the slice the loop leaves
    for a cluster holds that cluster's endpoint group. *)
Lemma fold_upsert_last namespace serviceName service ces m ce :
  NoDup (map ClusterName ces) →
  ce ∈ ces →
  ∃ old, foldl (upsert namespace serviceName service) m ces
           !! target namespace serviceName ce
         = Some (written namespace serviceName service ce old).
Proof.
  induction ces as [|x ces IH] using rev_ind; [by intros _ ?%elem_of_nil|].
  intros Hnd Hin. rewrite foldl_app. cbn [foldl]. rewrite lookup_upsert.
  rewrite map_app in Hnd. apply NoDup_app in Hnd as (Hnd & Hdis & _).
  apply elem_of_app in Hin as [Hin|Hin%list_elem_of_singleton].
  - rewrite decide_False; [by apply IH|].
    intros Heq%target_inj. apply (Hdis (ClusterName ce)).
    + by apply list_elem_of_fmap_2.
    + rewrite Heq. apply list_elem_of_here.
  - subst x. rewrite decide_True by done. by eexists.
Qed.

Lemma contribution_names namespace serviceName clusterInfos clusters :
  (∀ c info, clusterInfos !! c = Some info → clusterlink.Name info = c) →
  map ClusterName (omap (contribution namespace serviceName clusterInfos) clusters)
  `sublist_of` clusters.
Proof.
  intros Hkeyed. induction clusters as [|c clusters IH]; [constructor|].
  cbn [omap list_omap].
  destruct (contribution namespace serviceName clusterInfos c) as [ce|] eqn:Hc.
  - apply contribution_Some in Hc as (info & items & Hi & Hn & _).
    cbn [map]. rewrite Hn, (Hkeyed _ _ Hi). by constructor.
  - by constructor.
Qed.

Lemma syncService_run svcInfo clusterInfos w :
  let namespace := discoverer.Namespace svcInfo in
  let serviceName := discoverer.Name svcInfo in
  let ces := omap (contribution namespace serviceName clusterInfos)
               (discoverer.Clusters svcInfo) in
  ∃ w1,
    only_warns w w1
    ∧ (controller.syncService svcInfo clusterInfos w).2
      = (UpdateEndpointSlices namespace serviceName ces w1).2.
Proof.
  intros namespace serviceName ces. unfold controller.syncService. rewrite run_bind.
  pose proof (AggregateEndpoints_results namespace serviceName
                (discoverer.Clusters svcInfo) clusterInfos w) as Hv.
  pose proof (only_warns_AggregateEndpoints namespace serviceName
                (discoverer.Clusters svcInfo) clusterInfos w) as Hw.
  fold namespace serviceName.
  destruct (AggregateEndpoints namespace serviceName _ clusterInfos w) as [[ces' err] w1].
  cbn [fst snd] in *. injection Hv as -> ->. fold ces.
  exists w1. split; [exact Hw|]. rewrite run_bind.
  by destruct (UpdateEndpointSlices namespace serviceName ces w1) as [[e|] w2].
Qed.

(** X23. One service end to end, when no local call fails and the parent
    service exists: for a contributing cluster whose listing succeeds
    and has at least one ready entry in an unmarked slice, [syncService]
    leaves in the service's namespace the slice
    <service>-svclink-<cluster> holding exactly those ready entries,
    labelled with the service and the cluster. The contributors are
    named once each, and the cluster map is keyed by the clusters'
    names. *)
Theorem syncService_publishes_ready_endpoints svcInfo clusterInfos w service
    clusterName clusterInfo items :
  let namespace := discoverer.Namespace svcInfo in
  let serviceName := discoverer.Name svcInfo in
  let ready := filter isReady (flat_map es_Endpoints
                                 (filter (fun s => ¬ carries_marker s) items)) in
  reliable w →
  w_services w !! (namespace, serviceName) = Some service →
  NoDup (discoverer.Clusters svcInfo) →
  (∀ c info, clusterInfos !! c = Some info → clusterlink.Name info = c) →
  clusterName ∈ discoverer.Clusters svcInfo →
  clusterInfos !! clusterName = Some clusterInfo →
  EndpointSlices_List (clusterlink.Client_ clusterInfo) namespace
    (service_selector serviceName) = Ok items →
  ready ≠ [] →
  ∃ s,
    w_slices (controller.syncService svcInfo clusterInfos w).2
      !! (namespace, sliceName serviceName clusterName) = Some s
    ∧ es_Endpoints s = ready
    ∧ es_Labels s !! config.ClusterLabel = Some clusterName
    ∧ es_Labels s !! config.ServiceNameLabel = Some serviceName.
Proof.
  intros namespace serviceName ready Hnf Hsvc Hnd Hkeyed Hin Hinfo Hlist Hready.
  destruct (syncService_run svcInfo clusterInfos w)
    as (w1 & ((Hs1 & _ & Hf1) & Hsl1 & _) & ->).
  fold namespace serviceName.
  set (ces := omap (contribution namespace serviceName clusterInfos)
                (discoverer.Clusters svcInfo)).
  assert (Hnf1 : reliable w1) by (intros c; rewrite Hf1; apply Hnf).
  rewrite (UpdateEndpointSlices_ok namespace serviceName ces w1 service)
    by (by rewrite ?Hs1).
  cbn [snd w_slices extend]. rewrite cleanup_store.
  destruct (getEndpointsFromCluster_ok _ _ _ _ Hlist) as [ports Hget].
  set (ce := {| ClusterName := clusterName; Endpoints := ready; Ports := ports |}).
  assert (Hce : ce ∈ ces).
  { apply list_elem_of_omap. exists clusterName. split; [done|].
    unfold contribution. rewrite Hinfo, Hget. fold ready.
    destruct ready as [|r ready']; [done|]. cbn [length Nat.ltb Nat.leb].
    by rewrite (Hkeyed _ _ Hinfo). }
  assert (Hnd' : NoDup (map ClusterName ces)).
  { eapply sublist_NoDup; [exact Hnd|]. by apply contribution_names. }
  destruct (fold_upsert_last namespace serviceName
              (service_at (namespace, serviceName) service) ces (w_slices w1) ce Hnd' Hce)
    as [old Hold].
  change (target namespace serviceName ce)
    with (namespace, sliceName serviceName clusterName) in Hold.
  assert (Hlab : ∀ labels,
            stamp serviceName clusterName labels !! config.ClusterLabel = Some clusterName
            ∧ stamp serviceName clusterName labels !! config.ServiceNameLabel
              = Some serviceName).
  { intros labels. unfold stamp. split.
    - rewrite lookup_insert_ne by by_compute. apply lookup_insert_eq.
    - rewrite lookup_insert_ne by by_compute. rewrite lookup_insert_ne by by_compute.
      apply lookup_insert_eq. }
  eexists. split; [|split; [|split]].
  - apply map_lookup_filter_Some. split; [exact Hold|].
    cbn [fst snd]. intros (_ & _ & c & Hc & Hna).
    assert (c = clusterName) as ->.
    { destruct old; cbn [written es_Labels] in Hc;
        rewrite (proj1 (Hlab _)) in Hc; congruence. }
    apply Hna. by apply (elem_of_active_clusters ces ce).
  - by destruct old.
  - destruct old; cbn [written es_Labels]; apply Hlab.
  - destruct old; cbn [written es_Labels]; apply Hlab.
Qed.

Lemma syncService_publishes_ready_endpoints_witness :
  ∃ s,
    w_slices (controller.syncService scenarios.found_web examples.infos_web
                examples.world_web).2 !! ("default", "web-svclink-east") = Some s
    ∧ es_Endpoints s
      = [examples.ep "10.0.1.1" (Some true); examples.ep "10.0.1.2" (Some true)].
Proof.
  destruct (syncService_publishes_ready_endpoints scenarios.found_web examples.infos_web
              examples.world_web scenarios.web_service "east"
              (examples.info "east" (examples.remote "web" [examples.webSlice]))
              [examples.webSlice])
    as (s & Hs & He & _).
  - intros c. reflexivity.
  - by_compute.
  - apply NoDup_singleton.
  - intros c info Hc.
    destruct (decide (c = "east")) as [->|Hne].
    + vm_compute in Hc. by injection Hc as <-.
    + unfold examples.infos_web in Hc. by rewrite lookup_singleton_ne in Hc.
  - apply list_elem_of_here.
  - by_compute.
  - by_compute.
  - by_compute.
  - exists s. split; [exact Hs|]. rewrite He. by_compute.
Defined.

(** X24. One service end to end, when no local call fails: after
    [syncService] every stored slice of the service's namespace that
    carries the service's label and a cluster label names a cluster
    that contributed ready endpoints in this cycle; the slices of
    clusters that contribute nothing any more are gone. *)
Theorem syncService_leaves_no_stale_slice svcInfo clusterInfos w k s c :
  let namespace := discoverer.Namespace svcInfo in
  let serviceName := discoverer.Name svcInfo in
  reliable w →
  w_slices (controller.syncService svcInfo clusterInfos w).2 !! k = Some s →
  k.1 = namespace →
  es_Labels s !! config.ServiceNameLabel = Some serviceName →
  es_Labels s !! config.ClusterLabel = Some c →
  ∃ ce,
    ce ∈ omap (contribution namespace serviceName clusterInfos) (discoverer.Clusters svcInfo)
    ∧ ClusterName ce = c.
Proof.
  intros namespace serviceName Hnf Hk Hns Hsvc Hc.
  destruct (syncService_run svcInfo clusterInfos w)
    as (w1 & ((Hs1 & _ & Hf1) & Hsl1 & _) & Hrun).
  rewrite Hrun in Hk. clear Hrun. fold namespace serviceName in Hk.
  set (ces := omap (contribution namespace serviceName clusterInfos)
                (discoverer.Clusters svcInfo)) in *.
  assert (Hnf1 : reliable w1) by (intros c0; rewrite Hf1; apply Hnf).
  assert (Hno : ¬ is_orphan namespace serviceName (active_clusters ces) k s).
  { destruct (w_services w1 !! (namespace, serviceName)) as [service|] eqn:Hp.
    - rewrite (UpdateEndpointSlices_ok namespace serviceName ces w1 service) in Hk by done.
      cbn [snd w_slices extend] in Hk. rewrite cleanup_store in Hk.
      by apply map_lookup_filter_Some in Hk as [_ Hno].
    - rewrite (UpdateEndpointSlices_no_service namespace serviceName ces w1) in Hk by done.
      cbn [snd w_slices extend] in Hk. rewrite cleanup_store in Hk.
      by apply map_lookup_filter_Some in Hk as [_ Hno]. }
  destruct (decide (c ∈ active_clusters ces)) as [Hact|Hact].
  - unfold active_clusters in Hact. apply elem_of_list_to_set in Hact.
    apply list_elem_of_fmap in Hact as (ce & -> & Hce). by exists ce.
  - exfalso. apply Hno. split; [done|]. split; [done|]. by exists c.
Qed.

Lemma syncService_leaves_no_stale_slice_witness :
  ∃ ce,
    ce ∈ omap (contribution "default" "web" examples.infos_web) ["east"]
    ∧ ClusterName ce = "east".
Proof.
  apply (syncService_leaves_no_stale_slice scenarios.found_web examples.infos_web
           scenarios.world_after_first_cycle ("default", "web-svclink-east")
           scenarios.slice_east "east").
  - intros c. reflexivity.
  - by_compute.
  - reflexivity.
  - by_compute.
  - by_compute.
Defined.

End SyncService.

(** ** The status update itself *)

Section StatusUpdate.

Import clusterlink.

(** X25. [updateClusterStatus] whichever way the write goes: the
    descriptor it hands back carries the status computed for this
    cycle in every case; one status update is issued; when the write
    fails with a server error the stored descriptor is unchanged and
    the failure is logged, not returned; when the descriptor is gone
    (not-found) nothing is stored and nothing is logged; otherwise the
    stored status is replaced and the stored spec is kept. *)
Theorem status_update_outcomes cluster connected version errorMsg w :
  let out := updateClusterStatus cluster connected version errorMsg w in
  let name := v1alpha1.Name cluster in
  let status := status_at (w_now w) (v1alpha1.Status cluster) connected version errorMsg in
  out.1 = {| v1alpha1.Name := name; v1alpha1.Spec := v1alpha1.Spec cluster;
             v1alpha1.Status := status |}
  ∧ calls_since w out.2 = [UpdateStatus name]
  ∧ match w_faults w (UpdateStatus name), w_clusterLinks w !! name with
    | Some msg, _ =>
        w_clusterLinks out.2 = w_clusterLinks w
        ∧ w_log out.2
          = w_log w ++ [(ERROR, "Failed to update status for ClusterLink "
                                +:+ name +:+ ": " +:+ msg)]
    | None, None =>
        w_clusterLinks out.2 = w_clusterLinks w ∧ w_log out.2 = w_log w
    | None, Some old =>
        w_clusterLinks out.2
        = <[ name := {| v1alpha1.Name := name; v1alpha1.Spec := v1alpha1.Spec old;
                        v1alpha1.Status := status |} ]> (w_clusterLinks w)
        ∧ w_log out.2 = w_log w
    end.
Proof.
  intros out name status. subst out.
  split; [apply updateClusterStatus_value|].
  unfold updateClusterStatus. rewrite run_bind.
  assert (Hlc : (if connected then bind time_Now (λ now, ret (Some now))
                 else ret (v1alpha1.LastConnected (v1alpha1.Status cluster))) w
                = (if connected then Some (w_now w)
                   else v1alpha1.LastConnected (v1alpha1.Status cluster), w)).
  { by destruct connected. }
  rewrite Hlc. cbn [fst snd]. rewrite run_bind, buildConditions_run. cbn [fst snd].
  rewrite run_bind. unfold kubeClient.Status_Update, api.
  cbn [v1alpha1.Name]. fold name.
  assert (Hcs : ∀ c w0, calls_since w0 (record_call c w0) = [c]).
  { intros c w0. unfold calls_since, record_call. cbn. by rewrite drop_app_length. }
  destruct (w_faults w (UpdateStatus name)) as [msg|] eqn:F.
  - cbn [fst snd negb err_not_found server_error err_msg]. rewrite run_bind.
    cbn [klog_Errorf klog fst snd ret]. split; [apply Hcs|]. by split.
  - cbn [w_clusterLinks record_call].
    destruct (w_clusterLinks w !! name) as [old|] eqn:Hk; cbn [fst snd].
    + cbn [ret snd]. split; [apply Hcs|]. by split.
    + cbn [negb err_not_found not_found]. rewrite run_bind. cbn [ret fst snd].
      split; [apply Hcs|]. by split.
Qed.

End StatusUpdate.
